(** * Similarity-based element resolution: a shallow embedding

    The engine of the class [PlaywrightAISelfHealing] (index.js) embedded as
    Rocq functions, and the properties of its specification settled against
    it.

    Modelling conventions.
    - A JavaScript string is a [string]: a sequence of code units, here the
      code units 0..255.  [String.length] is the [.length] of the source.
    - A JavaScript number is modelled twice.  In the first part it is an
      exact rational ([Q]) and numeric comparison is comparison in [Q]; NaN,
      the infinities and rounding are left out.  What is stated there are
      bounds, identities, cache and frame properties, which do not turn on a
      rounded digit.  The module [Binary64] embeds the numeric methods once
      more with IEEE 754 doubles, and with configuration values that may be
      [undefined]; what the validation accepts, whether a score reaches the
      threshold and which of two scores is the greater are stated there.
    - The instance fields ([config], [domCache], [similarityCache],
      [debugElementCount]) are a record threaded through every method; a
      method returns its result, or the exception it throws, together with
      the instance it leaves behind.
    - The automation page is a record of what the host answers: whether a
      selector resolves within the wait, and what the extraction callbacks
      evaluate to (or that the evaluation is rejected).
    - Every method that receives a snapshot, and every call on the page, is
      recorded in a log of events, so that what a strategy touches can be
      stated.
    - Console output ([secureLog], [console.log], [console.warn]) is not
      modelled; it has no influence on results or on the instance. *)

From Stdlib Require Import QArith Qminmax Lqa Lia List Bool Ascii String.
From Stdlib Require Import DecimalString.
From Stdlib Require Floats.
From stdpp Require Import base option gmap strings list.

Local Open Scope string_scope.

(** ** JavaScript string primitives *)

Module Js.

(** [s.startsWith(p)] *)
Fixpoint startsWith (s p : string) {struct p} : bool :=
  match p, s with
  | EmptyString, _ => true
  | String a p', String b s' => Ascii.eqb a b && startsWith s' p'
  | String _ _, EmptyString => false
  end.

(** [s.includes(sub)] *)
Fixpoint includes (s sub : string) : bool :=
  startsWith s sub ||
  match s with
  | EmptyString => false
  | String _ s' => includes s' sub
  end.

(** WhiteSpace and LineTerminator code units below 256: the class [\s] of
    a regular expression and the characters removed by [trim]. *)
Definition isWhiteSpace (c : ascii) : bool :=
  let n := nat_of_ascii c in
  (Nat.leb 9 n && Nat.leb n 13) || Nat.eqb n 32 || Nat.eqb n 160.

(** Lower case of one code unit: A-Z and the Latin-1 capitals. *)
Definition lowerChar (c : ascii) : ascii :=
  let n := nat_of_ascii c in
  if (Nat.leb 65 n && Nat.leb n 90)
     || (Nat.leb 192 n && Nat.leb n 222 && negb (Nat.eqb n 215))
  then ascii_of_nat (n + 32) else c.

Fixpoint toLowerCase (s : string) : string :=
  match s with
  | EmptyString => EmptyString
  | String c s' => String (lowerChar c) (toLowerCase s')
  end.

Fixpoint trimStart (s : string) : string :=
  match s with
  | String c s' => if isWhiteSpace c then trimStart s' else s
  | EmptyString => EmptyString
  end.

(** [trimEnd] keeps a character when it is not white space or when
    something other than white space follows it. *)
Fixpoint trimEnd (s : string) : string :=
  match s with
  | EmptyString => EmptyString
  | String c s' =>
      match trimEnd s' with
      | EmptyString => if isWhiteSpace c then EmptyString else String c EmptyString
      | t => String c t
      end
  end.

Definition trim (s : string) : string := trimEnd (trimStart s).

(** [s.substring(0, n)] *)
Fixpoint substring0 (n : nat) (s : string) : string :=
  match n, s with
  | S n', String c s' => String c (substring0 n' s')
  | _, _ => EmptyString
  end.

(** [s.split(sep)] for a separator of one character: every separator
    cuts, so empty pieces appear; there is always a first piece. *)
Fixpoint split (sep : ascii) (s : string) : list string :=
  match s with
  | EmptyString => [EmptyString]
  | String c s' =>
      if Ascii.eqb c sep then EmptyString :: split sep s'
      else match split sep s' with
           | piece :: pieces => String c piece :: pieces
           | [] => [String c EmptyString]
           end
  end.

(** [s.split(/[-_\s]+/)]: a maximal run of separators cuts once; a leading
    or trailing run leaves an empty first or last piece. *)
Definition isWordSeparator (c : ascii) : bool :=
  Ascii.eqb c "-" || Ascii.eqb c "_" || isWhiteSpace c.

Fixpoint skipSeparators (s : string) : string :=
  match s with
  | String c s' => if isWordSeparator c then skipSeparators s' else s
  | EmptyString => EmptyString
  end.

Fixpoint splitWordsGo (fuel : nat) (cur : string) (s : string) : list string :=
  match fuel with
  | O => [String.rev cur]
  | S fuel' =>
      match s with
      | EmptyString => [String.rev cur]
      | String c s' =>
          if isWordSeparator c
          then String.rev cur :: splitWordsGo fuel' EmptyString (skipSeparators s')
          else splitWordsGo fuel' (String c cur) s'
      end
  end.

Definition splitWords (s : string) : list string :=
  splitWordsGo (String.length s) EmptyString s.

(** [parts.join(',')] *)
Fixpoint join (sep : string) (parts : list string) : string :=
  match parts with
  | [] => EmptyString
  | [p] => p
  | p :: rest => p ++ sep ++ join sep rest
  end.

(** The double-quote character, and a string in double quotes. *)
Definition dquote : string := String "034"%char EmptyString.
Definition quoted (s : string) : string := dquote ++ s ++ dquote.

(** The truthiness of a string: [''] is falsy. *)
Definition truthy (s : string) : bool :=
  match s with EmptyString => false | _ => true end.

(** [a || b] on strings *)
Definition orElse (a b : string) : string := if truthy a then a else b.

End Js.

(** ** Lexical similarity: [calculateLevenshteinSimilarity] *)

(** The inner loop [for j = 1 .. len2] of row [i]: [prev] is row [i-1] from
    column [j-1] on, [left] is [matrix[i][j-1]]; the result is row [i] from
    column [j] on. *)
Fixpoint fillRow (c : ascii) (str2 : string) (prev : list nat) (left : nat)
  : list nat :=
  match str2, prev with
  | String c2 rest, diag :: ((up :: _) as prev') =>
      let cost := if Ascii.eqb c c2 then 0 else 1 in
      let v := Nat.min (Nat.min (up + 1) (left + 1)) (diag + cost) in
      v :: fillRow c rest prev' v
  | _, _ => []
  end.

(** The outer loop [for i = 1 .. len1]: the rows [i], [i+1], ... given row
    [i-1]. *)
Fixpoint fillRows (str1 str2 : string) (i : nat) (prev : list nat)
  : list (list nat) :=
  match str1 with
  | EmptyString => []
  | String c rest =>
      let row := i :: fillRow c str2 prev i in
      row :: fillRows rest str2 (S i) row
  end.

(** The whole matrix: row 0 is [0, 1, ..., len2], column 0 of row [i] is [i]. *)
Definition levenshteinMatrix (str1 str2 : string) : list (list nat) :=
  let row0 := seq 0 (S (String.length str2)) in
  row0 :: fillRows str1 str2 1 row0.

(** [matrix[len1][len2]] *)
Definition levenshteinDistance (str1 str2 : string) : nat :=
  nth (String.length str2)
      (nth (String.length str1) (levenshteinMatrix str1 str2) []) 0.

Local Open Scope Q_scope.

Definition ofNat (n : nat) : Q := inject_Z (Z.of_nat n).

(** [1 - distance / maxLen], before the substring bonus, as an exact
    rational; [Binary64.calculateLevenshteinSimilarity] is the rounded
    computation. *)
Definition baseSimilarity (str1 str2 : string) : Q :=
  let maxLen := Nat.max (String.length str1) (String.length str2) in
  1 - ofNat (levenshteinDistance str1 str2) / ofNat maxLen.

Definition substringBonus (str1 str2 : string) : Q :=
  if Js.startsWith str2 str1 then 0.8
  else if Js.includes str2 str1 then 0.6
  else 0.

Definition calculateLevenshteinSimilarity (str1 str2 : string) : Q :=
  let len1 := String.length str1 in
  let len2 := String.length str2 in
  if Nat.eqb len1 0 then (if Nat.eqb len2 0 then 1 else 0)
  else if Nat.eqb len2 0 then 0
  else Qmin (baseSimilarity str1 str2 + substringBonus str1 str2) 1.


(** ** Data model *)

(** [SerializedElement] of types.d.ts; the optional [_element] back-reference
    does not survive serialization and is not read by the engine. *)
Module SerializedElement.
Record t := mk {
  tagName : string;
  id : string;
  className : string;
  textContent : string;
  placeholder : string;
  name : string;
  type : string;
  role : string;
  ariaLabel : string;
  title : string;
  value : string;
  href : string;
  src : string;
  alt : string
}.

#[global] Instance eq_dec : EqDecision t.
Proof. solve_decision. Defined.
End SerializedElement.
Abbreviation SerializedElement := SerializedElement.t.

(** The configuration with rational options; [Binary64.SelfHealingConfig]
    has the options as doubles or [undefined]. *)
Record SelfHealingConfig := mkConfig {
  minSimilarityThreshold : Q;
  levenshteinWeight : Q;
  semanticWeight : Q;
  structuralWeight : Q;
  domCacheTTL : Q;
  maxElementsToAnalyze : Q;
  findTimeout : Q;
  debug : bool
}.

(** [Partial<SelfHealingConfig>]: a key is supplied or absent.  (A key
    supplied as [undefined] is in [Binary64.PartialConfig].) *)
Record PartialConfig := mkPartial {
  minSimilarityThreshold' : option Q;
  levenshteinWeight' : option Q;
  semanticWeight' : option Q;
  structuralWeight' : option Q;
  domCacheTTL' : option Q;
  maxElementsToAnalyze' : option Q;
  findTimeout' : option Q;
  debug' : option bool
}.

Definition DEFAULT_CONFIG : SelfHealingConfig := {|
  minSimilarityThreshold := 0.1;
  levenshteinWeight := 0.7;
  semanticWeight := 0.2;
  structuralWeight := 0.1;
  domCacheTTL := 30000;
  maxElementsToAnalyze := 50;
  findTimeout := 5000;
  debug := false
|}.

(** [{ ...base, ...over }] *)
Definition spread (base : SelfHealingConfig) (over : PartialConfig)
  : SelfHealingConfig := {|
  minSimilarityThreshold := default (minSimilarityThreshold base) (minSimilarityThreshold' over);
  levenshteinWeight := default (levenshteinWeight base) (levenshteinWeight' over);
  semanticWeight := default (semanticWeight base) (semanticWeight' over);
  structuralWeight := default (structuralWeight base) (structuralWeight' over);
  domCacheTTL := default (domCacheTTL base) (domCacheTTL' over);
  maxElementsToAnalyze := default (maxElementsToAnalyze base) (maxElementsToAnalyze' over);
  findTimeout := default (findTimeout base) (findTimeout' over);
  debug := default (debug base) (debug' over)
|}.

(** An entry of [domCache]: [{ elements, timestamp }]. *)
Record DomCacheEntry := mkEntry {
  elements : list SerializedElement;
  timestamp : Z
}.

(** The fields of a [PlaywrightAISelfHealing] object.  [domCache] is a
    [WeakMap] keyed by page identity, here the page's [pageId]. *)
Record Instance := mkInstance {
  config : SelfHealingConfig;
  domCache : gmap nat DomCacheEntry;
  similarityCache : gmap string Q;
  debugElementCount : nat
}.

Inductive PlaywrightLocator := Locator (page : nat) (selector : string).

(** What the automation page answers.  [waitForOk sel]: the locator for
    [sel] appears within the wait.  [evaluateElements]: the value of the
    visible-element extraction callback, [None] when [page.evaluate]
    rejects.  [evaluateContext sel]: likewise for the contextual-element
    callback. *)
Record PlaywrightPage := mkPage {
  pageId : nat;
  waitForOk : string -> bool;
  evaluateElements : option (list SerializedElement);
  evaluateContext : string -> option (list SerializedElement)
}.

Inductive Exn :=
| Error (message : string)
| HostRejection.

(** The methods that receive a snapshot, and the calls made on the page. *)
Inductive Method :=
| GetElementIdentifier
| CalculateComprehensiveSimilarity
| CalculateSemanticSimilarity
| CalculateStructuralSimilarity
| CalculatePatternSimilarity
| CalculateContextualRelevance
| GenerateOptimalSelector.

Inductive Event :=
| PageLocator (page : nat) (selector : string)
| LocatorWaitFor (page : nat) (selector : string)
| PageEvaluate (page : nat)
| Call (m : Method) (element : SerializedElement).

(** ** Methods as state transformers that may throw and that log their calls *)

Record Outcome (A : Type) := mkOutcome {
  result : Exn + A;
  final : Instance;
  events : list Event
}.
Arguments mkOutcome {A}.
Arguments result {A}.
Arguments final {A}.
Arguments events {A}.

Definition M (A : Type) : Type := Instance -> Outcome A.

Definition ret {A} (a : A) : M A := fun s => mkOutcome (inr a) s [].

Definition bind {A B} (m : M A) (f : A -> M B) : M B := fun s =>
  let o := m s in
  match result o with
  | inl e => mkOutcome (inl e) (final o) (events o)
  | inr a => let o' := f a (final o) in
             mkOutcome (result o') (final o') (events o ++ events o')
  end.

Definition throw {A} (e : Exn) : M A := fun s => mkOutcome (inl e) s [].
Definition get : M Instance := fun s => mkOutcome (inr s) s [].
Definition put (s : Instance) : M unit := fun _ => mkOutcome (inr tt) s [].
Definition emit (e : Event) : M unit := fun s => mkOutcome (inr tt) s [e].

(** [try { m } catch { h }] *)
Definition tryCatch {A} (m : M A) (h : M A) : M A := fun s =>
  let o := m s in
  match result o with
  | inl _ => let o' := h (final o) in
             mkOutcome (result o') (final o') (events o ++ events o')
  | inr _ => o
  end.

Declare Scope js_scope.
Delimit Scope js_scope with js.
Notation "x <- m ;; k" := (bind m (fun x => k))
  (at level 100, m at next level, right associativity) : js_scope.
Notation "m ;;; k" := (bind m (fun _ => k))
  (at level 100, right associativity) : js_scope.
Local Open Scope js_scope.

Definition getConfig : M SelfHealingConfig := s <- get ;; ret (config s).

Definition setConfig (c : SelfHealingConfig) (s : Instance) : Instance :=
  mkInstance c (domCache s) (similarityCache s) (debugElementCount s).
Definition setDomCache (d : gmap nat DomCacheEntry) (s : Instance) : Instance :=
  mkInstance (config s) d (similarityCache s) (debugElementCount s).
Definition setSimilarityCache (c : gmap string Q) (s : Instance) : Instance :=
  mkInstance (config s) (domCache s) c (debugElementCount s).
Definition setDebugElementCount (n : nat) (s : Instance) : Instance :=
  mkInstance (config s) (domCache s) (similarityCache s) n.

Definition modify (f : Instance -> Instance) : M unit :=
  s <- get ;; put (f s).

(** Strict comparison of numbers, [a < b]. *)
Definition Qltb (a b : Q) : bool := negb (Qle_bool b a).

(** ** Configuration: [validateConfig], the constructor, [updateConfig] *)

Definition validateConfig : M unit :=
  cfg <- getConfig ;;
  if Qltb (minSimilarityThreshold cfg) 0 || Qltb 1 (minSimilarityThreshold cfg)
  then throw (Error "minSimilarityThreshold must be between 0 and 1")
  else if Qltb (maxElementsToAnalyze cfg) 1 || Qltb 1000 (maxElementsToAnalyze cfg)
  then throw (Error "maxElementsToAnalyze must be between 1 and 1000")
  else if Qltb (findTimeout cfg) 100 || Qltb 60000 (findTimeout cfg)
  then throw (Error "findTimeout must be between 100ms and 60000ms")
  else ret tt.

(** [new PlaywrightAISelfHealing(config)]: the fields are initialised, then
    validated; the object is obtained only when the constructor returns. *)
Definition constructor (partial : PartialConfig) : Outcome unit :=
  validateConfig (mkInstance (spread DEFAULT_CONFIG partial) ∅ ∅ 0).

Definition updateConfig (newConfig : PartialConfig) : M unit :=
  modify (fun s => setConfig (spread (config s) newConfig) s) ;;;
  validateConfig.


(** The three messages of [validateConfig] are the configuration errors. *)
Definition isConfigurationError (e : Exn) : bool :=
  match e with
  | Error m =>
      String.eqb m "minSimilarityThreshold must be between 0 and 1"
      || String.eqb m "maxElementsToAnalyze must be between 1 and 1000"
      || String.eqb m "findTimeout must be between 100ms and 60000ms"
  | HostRejection => false
  end.

(** ** Selector validation: [isValidSelector] *)

(** Canonicalize of a case-insensitive regular expression without the
    unicode flag: the upper case of the code unit, unless that leaves the
    one-code-unit range or maps a code unit of 128 and above below 128.
    (The upper cases of 181 and 255 lie above 255; each is the image of that
    code unit alone, so the code unit stands for it.) *)
Definition canonicalize (c : ascii) : ascii :=
  let n := nat_of_ascii c in
  if (Nat.leb 97 n && Nat.leb n 122)
     || (Nat.leb 224 n && Nat.leb n 254 && negb (Nat.eqb n 247))
  then ascii_of_nat (n - 32) else c.

Fixpoint canonical (s : string) : string :=
  match s with
  | EmptyString => EmptyString
  | String c s' => String (canonicalize c) (canonical s')
  end.

(** [/pattern/i.test(s)] for a pattern of literal characters. *)
Definition testIgnoreCase (pattern s : string) : bool :=
  Js.includes (canonical s) (canonical pattern).

Definition dangerousPatterns : list string :=
  ["javascript:"; "data:"; "vbscript:"; "<script"; "eval("].

Definition isValidSelector (selector : string) : bool :=
  if negb (Js.truthy selector) || Nat.ltb 1000 (String.length selector)
  then false
  else negb (existsb (fun pattern => testIgnoreCase pattern selector)
                     dangerousPatterns).

(** ** Identifier: [getElementIdentifier] *)

Import SerializedElement.

Definition part (key value : string) : list string :=
  if Js.truthy value then [key ++ ":" ++ value] else [].

Definition identifierOf (element : SerializedElement) : string :=
  let tagName := Js.orElse (Js.toLowerCase (tagName element)) "div" in
  let textContent := Js.substring0 50 (Js.trim (textContent element)) in
  let parts :=
    (part "id" (id element)
     ++ (if Js.truthy (className element)
         then ["class:" ++ hd "" (Js.split " " (className element))]%string
         else [])
     ++ part "name" (name element)
     ++ part "type" (type element)
     ++ part "placeholder" (placeholder element)
     ++ part "role" (role element)
     ++ part "aria" (ariaLabel element)
     ++ part "text" textContent)%list in
  if Nat.ltb 0 (List.length parts)
  then tagName ++ "[" ++ Js.join "," parts ++ "]"
  else tagName.

Definition getElementIdentifier (element : SerializedElement) : M string :=
  emit (Call GetElementIdentifier element) ;;;
  modify (fun s => setDebugElementCount (S (debugElementCount s)) s) ;;;
  ret (identifierOf element).

(** ** Sub-scores *)

Definition wordMatches (elementWords : list string) (word : string) : bool :=
  existsb (fun ew => Js.includes ew word || Js.includes word ew) elementWords.

Definition semanticScore (originalSelector elementText : string) : Q :=
  let originalWords := Js.splitWords (Js.toLowerCase originalSelector) in
  let elementWords := Js.splitWords (Js.toLowerCase elementText) in
  let matchCount := List.length (List.filter (wordMatches elementWords) originalWords) in
  if Nat.ltb 0 (List.length originalWords)
  then ofNat matchCount / ofNat (List.length originalWords)
  else 0.

Definition calculateSemanticSimilarity (originalSelector : string)
    (element : SerializedElement) : M Q :=
  emit (Call CalculateSemanticSimilarity element) ;;;
  elementText <- getElementIdentifier element ;;
  ret (semanticScore originalSelector elementText).

Definition structuralScore (originalSelector : string)
    (element : SerializedElement) : Q :=
  let tagName := Js.toLowerCase (tagName element) in
  let className := className element in
  let elementId := id element in
  let score := 0 in
  let score := if Js.truthy tagName && Js.includes originalSelector tagName
               then score + 0.3 else score in
  let score := if Js.includes originalSelector elementId && Js.truthy elementId
               then score + 0.4 else score in
  let score := if Js.truthy className && Js.includes originalSelector className
               then score + 0.3 else score in
  Qmin score 1.

Definition calculateStructuralSimilarity (originalSelector : string)
    (element : SerializedElement) : M Q :=
  emit (Call CalculateStructuralSimilarity element) ;;;
  ret (structuralScore originalSelector element).

(** ** Bonuses of the composite score *)

Definition isQuote (c : ascii) : bool :=
  Ascii.eqb c "034" || Ascii.eqb c "'".

(** The longest run of characters other than quotes, and what follows. *)
Fixpoint takeUnquoted (s : string) : string * string :=
  match s with
  | EmptyString => (EmptyString, EmptyString)
  | String c s' =>
      if isQuote c then (EmptyString, s)
      else let (run, rest) := takeUnquoted s' in (String c run, rest)
  end.

(** A quote, one or more characters other than quotes (captured), a quote,
    matched at the start of [s].  The run is greedy, and no shorter run can
    be followed by a quote. *)
Definition matchQuoted (s : string) : option string :=
  match s with
  | String q s' =>
      if isQuote q then
        match takeUnquoted s' with
        | (String c run, String _ _) => Some (String c run)
        | _ => None
        end
      else None
  | EmptyString => None
  end.

Fixpoint dropChars (n : nat) (s : string) : string :=
  match n, s with
  | S n', String _ s' => dropChars n' s'
  | _, _ => s
  end.

(** [s.match(re)] for the expression made of [key] (one of [name=],
    [placeholder=], [type=]) followed by the quoted capture: the capture of
    the leftmost match. *)
Fixpoint matchAttribute (key : string) (s : string) : option string :=
  match (if Js.startsWith s key
         then matchQuoted (dropChars (String.length key) s) else None) with
  | Some capture => Some capture
  | None =>
      match s with
      | EmptyString => None
      | String _ s' => matchAttribute key s'
      end
  end.

Definition typeBonus (originalSelector : string) (element : SerializedElement) : Q :=
  let tag := tagName element in
  let mentions := Js.includes originalSelector in
  if mentions "input" && (String.eqb tag "input" || String.eqb tag "textarea")
  then 0.4
  else if mentions "button" && (String.eqb tag "button" || String.eqb tag "input")
  then 0.4
  else if mentions "select" && String.eqb tag "select"
  then 0.4
  else if mentions "textarea" && String.eqb tag "textarea"
  then 0.4
  else if (mentions "input" || mentions "button")
          && existsb (String.eqb tag) ["html"; "body"; "div"; "span"; "a"]
  then - 0.3
  else 0.

Definition attributeBonus (originalSelector : string) (element : SerializedElement) : Q :=
  let mentions := Js.includes originalSelector in
  let bonus := 0 in
  let bonus :=
    if mentions "name=" && Js.truthy (name element) then
      match matchAttribute "name=" originalSelector with
      | Some selectorName =>
          if String.eqb selectorName (name element) then bonus + 0.5
          else
            let nameSimilarity :=
              calculateLevenshteinSimilarity selectorName (name element) in
            if Qltb 0.5 nameSimilarity
            then bonus + nameSimilarity * 0.3 else bonus
      | None => bonus
      end
    else bonus in
  let bonus :=
    if mentions "input"
       && (String.eqb (name element) "q" || String.eqb (name element) "search"
           || String.eqb (name element) "query")
    then bonus + 0.3 else bonus in
  let bonus :=
    if mentions "button"
       && (String.eqb (name element) "btnK" || String.eqb (name element) "btnG"
           || String.eqb (type element) "submit")
    then bonus + 0.4 else bonus in
  let bonus :=
    if mentions "Gmail"
       && Js.includes (Js.toLowerCase (textContent element)) "gmail"
    then bonus + 0.4 else bonus in
  let bonus :=
    if mentions "Images"
       && Js.includes (Js.toLowerCase (textContent element)) "images"
    then bonus + 0.4 else bonus in
  let bonus :=
    if mentions "placeholder=" && Js.truthy (placeholder element) then
      match matchAttribute "placeholder=" originalSelector with
      | Some p => if String.eqb p (placeholder element)
                  then bonus + 0.3 else bonus
      | None => bonus
      end
    else bonus in
  let bonus :=
    if mentions "type=" && Js.truthy (type element) then
      match matchAttribute "type=" originalSelector with
      | Some t => if String.eqb t (type element)
                  then bonus + 0.3 else bonus
      | None => bonus
      end
    else bonus in
  bonus.

(** ** Composite score: [calculateComprehensiveSimilarity] *)

(** The weighted sum, exact; [Binary64.totalScore] rounds each product and
    each sum. *)
Definition totalScore (cfg : SelfHealingConfig)
    (levenshteinScore semanticScore structuralScore typeBonus attributeBonus : Q) : Q :=
  levenshteinScore * levenshteinWeight cfg
  + semanticScore * semanticWeight cfg
  + structuralScore * structuralWeight cfg
  + typeBonus
  + attributeBonus.

Definition cacheKey (originalSelector elementText : string) : string :=
  originalSelector ++ "-" ++ elementText.

Definition calculateComprehensiveSimilarity (originalSelector : string)
    (element : SerializedElement) : M Q :=
  emit (Call CalculateComprehensiveSimilarity element) ;;;
  elementText <- getElementIdentifier element ;;
  let cacheKey := cacheKey originalSelector elementText in
  s <- get ;;
  match similarityCache s !! cacheKey with
  | Some cached => ret cached
  | None =>
      let levenshteinScore :=
        calculateLevenshteinSimilarity originalSelector elementText in
      semanticScore <- calculateSemanticSimilarity originalSelector element ;;
      structuralScore <- calculateStructuralSimilarity originalSelector element ;;
      cfg <- getConfig ;;
      let totalScore :=
        totalScore cfg levenshteinScore semanticScore structuralScore
                   (typeBonus originalSelector element)
                   (attributeBonus originalSelector element) in
      modify (fun s => setSimilarityCache (<[cacheKey := totalScore]> (similarityCache s)) s) ;;;
      ret (Qmax 0 (Qmin totalScore 1))
  end.

(** ** Pattern and context scores of the advanced strategy *)

Definition calculatePatternSimilarity (originalSelector : string)
    (element : SerializedElement) (contextualElements : list SerializedElement)
  : M Q :=
  emit (Call CalculatePatternSimilarity element) ;;;
  elementText <- getElementIdentifier element ;;
  let basicSimilarity :=
    calculateLevenshteinSimilarity originalSelector elementText in
  let patternBonus :=
    if Nat.ltb 0 (List.length contextualElements) then 0.2 else 0 in
  ret (Qmin (basicSimilarity + patternBonus) 1).

Definition contextualRelevance (element : SerializedElement)
    (contextualElements : list SerializedElement) : Q :=
  if Nat.eqb (List.length contextualElements) 0 then 0.5
  else
    Qmin (fold_left
            (fun relevanceScore contextElement =>
               let relevanceScore :=
                 if String.eqb (tagName element) (tagName contextElement)
                 then relevanceScore + 0.2 else relevanceScore in
               if Js.truthy (className element)
                  && Js.truthy (className contextElement)
                  && String.eqb (className element) (className contextElement)
               then relevanceScore + 0.1 else relevanceScore)
            contextualElements 0)
         1.

Definition calculateContextualRelevance (element : SerializedElement)
    (contextualElements : list SerializedElement) : M Q :=
  emit (Call CalculateContextualRelevance element) ;;;
  ret (contextualRelevance element contextualElements).

(** ** Selector synthesis: [generateOptimalSelector] *)

Definition optimalSelector (element : SerializedElement) : string :=
  if Js.truthy (id element) then "#" ++ id element
  else
    let cleanText := Js.trim (textContent element) in
    if String.eqb (tagName element) "a" && Js.truthy (textContent element)
       && Nat.ltb 0 (String.length cleanText)
       && Nat.ltb (String.length cleanText) 50
    then "text=" ++ cleanText
    else if Js.truthy (name element)
    then "[name=" ++ Js.quoted (name element) ++ "]"
    else if Js.truthy (type element) && String.eqb (tagName element) "input"
    then "input[type=" ++ Js.quoted (type element) ++ "]"
    else if Js.truthy (placeholder element)
    then "[placeholder=" ++ Js.quoted (placeholder element) ++ "]"
    else if Js.truthy (role element)
    then "[role=" ++ Js.quoted (role element) ++ "]"
    else
      let classes :=
        if Js.truthy (className element)
        then List.filter (fun c => Js.truthy c && negb (Js.includes c " "))
                         (Js.split " " (className element))
        else [] in
      match classes with
      | c :: _ => tagName element ++ "." ++ c
      | [] => Js.orElse (tagName element) "div"
      end.

Definition generateOptimalSelector (page : nat) (element : SerializedElement)
  : M string :=
  emit (Call GenerateOptimalSelector element) ;;;
  ret (optimalSelector element).

(** ** Snapshot provider: [getAllPageElements], [getContextualElements] *)

Definition getAllPageElements (now : Z) (page : PlaywrightPage)
  : M (list SerializedElement) :=
  s <- get ;;
  let extract : M (list SerializedElement) :=
    emit (PageEvaluate (pageId page)) ;;;
    match evaluateElements page with
    | None => throw HostRejection
    | Some elements =>
        modify (fun s => setDomCache
                  (<[pageId page := mkEntry elements now]> (domCache s)) s) ;;;
        ret elements
    end in
  match domCache s !! pageId page with
  | Some cached =>
      if Qltb (inject_Z (now - timestamp cached)) (domCacheTTL (config s))
      then ret (elements cached)
      else extract
  | None => extract
  end.

Definition getContextualElements (page : PlaywrightPage)
    (originalSelector : string) : M (list SerializedElement) :=
  tryCatch
    (emit (PageEvaluate (pageId page)) ;;;
     match evaluateContext page originalSelector with
     | None => throw HostRejection
     | Some contextual => ret contextual
     end)
    (ret []).

(** ** Healing orchestrator: the four strategies *)

(** ToIntegerOrInfinity: truncation towards zero. *)
Definition truncate (q : Q) : Z := Z.quot (Qnum q) (Zpos (Qden q)).

(** [l.slice(0, end)]: a negative [end] counts from the end of the array. *)
Definition slice0 {A} (l : list A) (finish : Q) : list A :=
  let len := Z.of_nat (List.length l) in
  let relativeEnd := truncate finish in
  let final := if Z.ltb relativeEnd 0 then Z.max (len + relativeEnd) 0
               else Z.min relativeEnd len in
  firstn (Z.to_nat final) l.

(** The fast path shared by the four operations: the locator of the
    original selector when it appears within the wait. *)
Definition tryOriginal (page : PlaywrightPage) (originalSelector : string)
  : M (option PlaywrightLocator) :=
  tryCatch
    (emit (PageLocator (pageId page) originalSelector) ;;;
     emit (LocatorWaitFor (pageId page) originalSelector) ;;;
     if waitForOk page originalSelector
     then ret (Some (Locator (pageId page) originalSelector))
     else throw HostRejection)
    (ret None).

(** [page.locator(healedSelector)] for the winning snapshot. *)
Definition heal (page : PlaywrightPage) (element : SerializedElement)
  : M (option PlaywrightLocator) :=
  healedSelector <- generateOptimalSelector (pageId page) element ;;
  emit (PageLocator (pageId page) healedSelector) ;;;
  ret (Some (Locator (pageId page) healedSelector)).

Definition when (b : bool) (m : M unit) : M unit := if b then m else ret tt.

Fixpoint universalLoop (originalSelector : string)
    (candidates : list SerializedElement)
    (bestMatch : option SerializedElement) (bestScore : Q) (elementCount : nat)
  : M (option SerializedElement * Q) :=
  match candidates with
  | [] => ret (bestMatch, bestScore)
  | element :: rest =>
      score <- calculateComprehensiveSimilarity originalSelector element ;;
      cfg <- getConfig ;;
      when (debug cfg && Nat.ltb elementCount 5)
           (_ <- getElementIdentifier element ;; ret tt) ;;;
      if Qltb bestScore score && Qle_bool (minSimilarityThreshold cfg) score
      then universalLoop originalSelector rest (Some element) score (S elementCount)
      else universalLoop originalSelector rest bestMatch bestScore (S elementCount)
  end.

Definition invalidSelector : Exn := Error "Invalid selector provided".

Definition findElementUniversal (now : Z) (page : PlaywrightPage)
    (originalSelector : string) : M (option PlaywrightLocator) :=
  if negb (isValidSelector originalSelector) then throw invalidSelector else
  original <- tryOriginal page originalSelector ;;
  match original with
  | Some locator => ret (Some locator)
  | None =>
      allElements <- getAllPageElements now page ;;
      cfg <- getConfig ;;
      best <- universalLoop originalSelector
                (slice0 allElements (maxElementsToAnalyze cfg)) None 0 0 ;;
      match fst best with
      | Some bestMatch => heal page bestMatch
      | None => ret None
      end
  end.

Fixpoint simpleLoop (page : PlaywrightPage) (originalSelector : string)
    (candidates : list SerializedElement) : M (option PlaywrightLocator) :=
  match candidates with
  | [] => ret None
  | element :: rest =>
      elementText <- getElementIdentifier element ;;
      let similarity :=
        calculateLevenshteinSimilarity originalSelector elementText in
      cfg <- getConfig ;;
      if Qle_bool (minSimilarityThreshold cfg) similarity
      then heal page element
      else simpleLoop page originalSelector rest
  end.

Definition findElementSimple (now : Z) (page : PlaywrightPage)
    (originalSelector : string) : M (option PlaywrightLocator) :=
  if negb (isValidSelector originalSelector) then throw invalidSelector else
  original <- tryOriginal page originalSelector ;;
  match original with
  | Some locator => ret (Some locator)
  | None =>
      allElements <- getAllPageElements now page ;;
      cfg <- getConfig ;;
      simpleLoop page originalSelector
                 (slice0 allElements (maxElementsToAnalyze cfg))
  end.

(** [MatchCandidate]: [{ element, score }] *)
Record MatchCandidate := mkCandidate {
  element : SerializedElement;
  score : Q
}.

(** [candidates.sort((a, b) => b.score - a.score)]: the sort of an array is
    stable, so among equal scores the earlier candidate stays first. *)
Fixpoint insertCandidate (a : MatchCandidate) (sorted : list MatchCandidate)
  : list MatchCandidate :=
  match sorted with
  | [] => [a]
  | b :: rest =>
      if Qle_bool (score b - score a) 0 then a :: b :: rest
      else b :: insertCandidate a rest
  end.

Definition sortCandidates (candidates : list MatchCandidate)
  : list MatchCandidate :=
  fold_right insertCandidate [] candidates.

(** The loop of the complex strategy on exact scores; the threshold test on
    rounded scores is that of [Binary64.complexLoop]. *)
Fixpoint complexLoop (originalSelector : string)
    (elements : list SerializedElement) (candidates : list MatchCandidate)
  : M (list MatchCandidate) :=
  match elements with
  | [] => ret candidates
  | element :: rest =>
      semanticScore <- calculateSemanticSimilarity originalSelector element ;;
      structuralScore <- calculateStructuralSimilarity originalSelector element ;;
      let totalScore := semanticScore * 0.6 + structuralScore * 0.4 in
      cfg <- getConfig ;;
      if Qle_bool (minSimilarityThreshold cfg) totalScore
      then complexLoop originalSelector rest
             (candidates ++ [mkCandidate element totalScore])%list
      else complexLoop originalSelector rest candidates
  end.

Definition findElementComplex (now : Z) (page : PlaywrightPage)
    (originalSelector : string) : M (option PlaywrightLocator) :=
  if negb (isValidSelector originalSelector) then throw invalidSelector else
  original <- tryOriginal page originalSelector ;;
  match original with
  | Some locator => ret (Some locator)
  | None =>
      allElements <- getAllPageElements now page ;;
      cfg <- getConfig ;;
      candidates <- complexLoop originalSelector
                      (slice0 allElements (maxElementsToAnalyze cfg)) [] ;;
      match sortCandidates candidates with
      | bestCandidate :: _ => heal page (element bestCandidate)
      | [] => ret None
      end
  end.

(** The loop of the advanced strategy on exact scores; the threshold test
    on rounded scores is that of [Binary64.advancedLoop]. *)
Fixpoint advancedLoop (originalSelector : string)
    (contextualElements candidates : list SerializedElement)
    (bestMatch : option SerializedElement) (bestScore : Q)
  : M (option SerializedElement * Q) :=
  match candidates with
  | [] => ret (bestMatch, bestScore)
  | element :: rest =>
      patternScore <- calculatePatternSimilarity originalSelector element
                        contextualElements ;;
      contextScore <- calculateContextualRelevance element contextualElements ;;
      let totalScore := patternScore * 0.7 + contextScore * 0.3 in
      cfg <- getConfig ;;
      if Qltb bestScore totalScore
         && Qle_bool (minSimilarityThreshold cfg) totalScore
      then advancedLoop originalSelector contextualElements rest
             (Some element) totalScore
      else advancedLoop originalSelector contextualElements rest
             bestMatch bestScore
  end.

Definition findElementAdvanced (now : Z) (page : PlaywrightPage)
    (originalSelector : string) : M (option PlaywrightLocator) :=
  if negb (isValidSelector originalSelector) then throw invalidSelector else
  original <- tryOriginal page originalSelector ;;
  match original with
  | Some locator => ret (Some locator)
  | None =>
      allElements <- getAllPageElements now page ;;
      contextualElements <- getContextualElements page originalSelector ;;
      cfg <- getConfig ;;
      best <- advancedLoop originalSelector contextualElements
                (slice0 allElements (maxElementsToAnalyze cfg)) None 0 ;;
      match fst best with
      | Some bestMatch => heal page bestMatch
      | None => ret None
      end
  end.

(** ** The configuration invariants, in the words of the specification *)

Definition inRange (lo hi x : Q) : Prop := lo <= x /\ x <= hi.

Definition validConfiguration (cfg : SelfHealingConfig) : Prop :=
  inRange 0 1 (minSimilarityThreshold cfg)
  /\ inRange 1 1000 (maxElementsToAnalyze cfg)
  /\ inRange 100 60000 (findTimeout cfg).

Definition throwsConfigurationError {A} (o : Outcome A) : Prop :=
  exists e, result o = inl e /\ isConfigurationError e = true.

Definition withWeights (wl ws wt : Q) (cfg : SelfHealingConfig)
  : SelfHealingConfig :=
  mkConfig (minSimilarityThreshold cfg) wl ws wt (domCacheTTL cfg)
           (maxElementsToAnalyze cfg) (findTimeout cfg) (debug cfg).

(** A freshly constructed instance with the default configuration. *)
Definition defaultInstance : Instance := mkInstance DEFAULT_CONFIG ∅ ∅ 0.

(** ** Selector validation, in the words of the specification *)

(** Letter case is the case of the letters A-Z: a capital and its small
    letter are the same character when case is ignored. *)
Definition foldCase (c : ascii) : ascii :=
  let n := nat_of_ascii c in
  if Nat.leb 65 n && Nat.leb n 90 then ascii_of_nat (n + 32) else c.

Fixpoint foldCases (s : string) : string :=
  match s with
  | EmptyString => EmptyString
  | String c s' => String (foldCase c) (foldCases s')
  end.

(** [s] matches [pattern] case-insensitively: some piece of [s] is the
    pattern up to letter case. *)
Definition matchesIgnoringCase (s pattern : string) : Prop :=
  exists before piece after,
    s = before ++ piece ++ after /\ foldCases piece = foldCases pattern.

Definition denylist : list string :=
  ["javascript:"; "data:"; "vbscript:"; "<script"; "eval("].

Definition rejectedSelector (s : string) : Prop :=
  s = EmptyString
  \/ (1000 < String.length s)%nat
  \/ exists pattern, In pattern denylist /\ matchesIgnoringCase s pattern.

(** The four public operations, by strategy. *)
Inductive Strategy := Universal | Simple | Complex | Advanced.

Definition findElement (strategy : Strategy)
  : Z -> PlaywrightPage -> string -> M (option PlaywrightLocator) :=
  match strategy with
  | Universal => findElementUniversal
  | Simple => findElementSimple
  | Complex => findElementComplex
  | Advanced => findElementAdvanced
  end.

(** The method to which the loop of a strategy hands each candidate first. *)
Definition leadScorer (strategy : Strategy) : Method :=
  match strategy with
  | Universal => CalculateComprehensiveSimilarity
  | Simple => GetElementIdentifier
  | Complex => CalculateSemanticSimilarity
  | Advanced => CalculatePatternSimilarity
  end.

(** The snapshots of the page as [getAllPageElements] yields them to a
    strategy (none when the extraction is rejected). *)
Definition snapshotsOf (now : Z) (page : PlaywrightPage) (s : Instance)
  : list SerializedElement :=
  match result (getAllPageElements now page s) with
  | inr allElements => allElements
  | inl _ => []
  end.

(** Quantification over all characters by evaluation. *)
Definition allBool (f : bool -> bool) : bool := f true && f false.

Definition allAscii (f : ascii -> bool) : bool :=
  allBool (fun b0 => allBool (fun b1 => allBool (fun b2 => allBool (fun b3 =>
  allBool (fun b4 => allBool (fun b5 => allBool (fun b6 => allBool (fun b7 =>
    f (Ascii b0 b1 b2 b3 b4 b5 b6 b7))))))))).

Definition isAsciiChar (c : ascii) : bool := Nat.ltb (nat_of_ascii c) 128.

Fixpoint isAsciiString (s : string) : bool :=
  match s with
  | EmptyString => true
  | String c s' => isAsciiChar c && isAsciiString s'
  end.

Definition caseNotionsAgree (c p : ascii) : bool :=
  negb (isAsciiChar p)
  || Bool.eqb (Ascii.eqb (canonicalize c) (canonicalize p))
              (Ascii.eqb (foldCase c) (foldCase p)).

(** ** The scores of the strategies as values *)

(** The composite score computed on a miss of the similarity cache, before
    the clamp. *)
Definition rawScore (cfg : SelfHealingConfig) (originalSelector : string)
    (el : SerializedElement) : Q :=
  totalScore cfg
    (calculateLevenshteinSimilarity originalSelector (identifierOf el))
    (semanticScore originalSelector (identifierOf el))
    (structuralScore originalSelector el)
    (typeBonus originalSelector el)
    (attributeBonus originalSelector el).

(** The score of a snapshot under the universal strategy on a miss of the
    cache, under the simple strategy, and under the complex strategy. *)
Definition universalScore (cfg : SelfHealingConfig) (originalSelector : string)
    (el : SerializedElement) : Q :=
  Qmax 0 (Qmin (rawScore cfg originalSelector el) 1).

Definition simpleScore (originalSelector : string) (el : SerializedElement) : Q :=
  calculateLevenshteinSimilarity originalSelector (identifierOf el).

Definition complexScore (originalSelector : string) (el : SerializedElement) : Q :=
  semanticScore originalSelector (identifierOf el) * 0.6
  + structuralScore originalSelector el * 0.4.

(** ** Reading the call log *)

#[global] Instance Method_eq_dec : EqDecision Method.
Proof. solve_decision. Defined.

(** The snapshots handed to the method [m], in call order. *)
Definition callsOf (m : Method) (log : list Event) : list SerializedElement :=
  flat_map (fun ev => match ev with
                      | Call m' el => if decide (m = m') then [el] else []
                      | _ => []
                      end) log.

Arguments callsOf : simpl never.

(** Every snapshot that occurs in the log satisfies [P]. *)
Definition snapshotsIn (P : SerializedElement -> Prop) (log : list Event) : Prop :=
  forall m el, In (Call m el) log -> P el.

(** The best match after a loop is the one before it or one of the
    candidates. *)
Definition keptOrFrom (cands : list SerializedElement)
    (before after : option SerializedElement) : Prop :=
  after = before \/ exists el, after = Some el /\ In el cands.

(** The log has no call on the page. *)
Definition noPageCall (log : list Event) : Prop :=
  forall ev, In ev log ->
    match ev with Call _ _ => True | _ => False end.

(** What every strategy does on a selector that passed the validation: it
    returns or fails with the rejection of the host; every snapshot it
    touches is among the candidates, the snapshots of the page cut at
    [maxElementsToAnalyze]; and its lead scorer receives a prefix of the
    candidates, in order. *)
Definition strategyShape (now : Z) (page : PlaywrightPage)
    (strategy : Strategy) (s : Instance)
    (o : Outcome (option PlaywrightLocator)) : Prop :=
  let cands := slice0 (snapshotsOf now page s)
                      (maxElementsToAnalyze (config s)) in
  (result o = inl HostRejection \/ exists v, result o = inr v)
  /\ snapshotsIn (fun el => In el cands) (events o)
  /\ exists k, callsOf (leadScorer strategy) (events o) = firstn k cands.

(** ** Selector synthesis, in the words of the specification *)

(** The first class token: the first run of characters other than spaces in
    the class string. *)
Fixpoint takeToken (s : string) : string :=
  match s with
  | EmptyString => EmptyString
  | String c s' => if Ascii.eqb c " " then EmptyString else String c (takeToken s')
  end.

Fixpoint firstClassToken (s : string) : option string :=
  match s with
  | EmptyString => None
  | String c s' =>
      if Ascii.eqb c " " then firstClassToken s' else Some (takeToken s)
  end.

Definition present (s : string) : bool := negb (String.eqb s "").

(** A rule gives a selector when it applies.  The text of a snapshot is its
    text content without surrounding white space. *)
Definition Rule : Type := SerializedElement -> option string.

Definition ruleId : Rule := fun el =>
  if present (id el) then Some ("#" ++ id el) else None.

Definition ruleAnchorText : Rule := fun el =>
  let text := Js.trim (textContent el) in
  if String.eqb (tagName el) "a" && present text
     && Nat.ltb (String.length text) 50
  then Some ("text=" ++ text) else None.

Definition ruleName : Rule := fun el =>
  if present (name el) then Some ("[name=" ++ Js.quoted (name el) ++ "]")
  else None.

Definition ruleInputType : Rule := fun el =>
  if String.eqb (tagName el) "input" && present (type el)
  then Some ("input[type=" ++ Js.quoted (type el) ++ "]") else None.

Definition rulePlaceholder : Rule := fun el =>
  if present (placeholder el)
  then Some ("[placeholder=" ++ Js.quoted (placeholder el) ++ "]") else None.

Definition ruleRole : Rule := fun el =>
  if present (role el) then Some ("[role=" ++ Js.quoted (role el) ++ "]")
  else None.

Definition ruleClass : Rule := fun el =>
  match firstClassToken (className el) with
  | Some token => Some (tagName el ++ "." ++ token)
  | None => None
  end.

Definition ruleTag : Rule := fun el =>
  if present (tagName el) then Some (tagName el) else None.

Definition ruleFallback : Rule := fun _ => Some "div".

Definition synthesisRules : list Rule :=
  [ruleId; ruleAnchorText; ruleName; ruleInputType; rulePlaceholder;
   ruleRole; ruleClass; ruleTag; ruleFallback].

(** The first applicable rule wins. *)
Fixpoint firstApplicable (rules : list Rule) (el : SerializedElement)
  : option string :=
  match rules with
  | [] => None
  | rule :: rest =>
      match rule el with
      | Some selector => Some selector
      | None => firstApplicable rest el
      end
  end.

(** A page on which no selector resolves and every evaluation is rejected. *)
Definition rejectingPage : PlaywrightPage :=
  mkPage 2 (fun _ => false) None (fun _ => None).

(** ** Fixtures *)

(** A snapshot with a tag, an id and a class; everything else empty. *)
Definition snapshot (tagName id className : string) : SerializedElement :=
  SerializedElement.mk tagName id className "" "" "" "" "" "" "" "" "" "" "".

(** A page of 100 visible elements [div#item0 ... div#item99] on which no
    selector resolves, analysed by an instance with
    [maxElementsToAnalyze = 10]. *)
Definition syntheticSnapshots : list SerializedElement :=
  List.map (fun i => snapshot "div"
                       ("item" ++ NilEmpty.string_of_uint (Nat.to_uint i)) "")
           (seq 0 100).

Definition syntheticPage : PlaywrightPage :=
  mkPage 1 (fun _ => false) (Some syntheticSnapshots) (fun _ => Some []).

Definition tenInstance : Instance :=
  mkInstance
    (spread DEFAULT_CONFIG
            (mkPartial None None None None None (Some 10) None None))
    ∅ ∅ 0.

(** No snapshot in the log is one of [excluded]. *)
Definition noneOf (excluded : list SerializedElement) (log : list Event) : bool :=
  forallb (fun ev => match ev with
                     | Call _ el => negb (existsb (fun x => bool_decide (x = el)) excluded)
                     | _ => true
                     end) log.

(** A container and a search field, and the selectors that look for an
    input. *)
Definition containerSnapshot : SerializedElement := snapshot "div" "" "".

Definition searchField : SerializedElement :=
  SerializedElement.mk "input" "" "" "" "" "q" "" "" "" "" "" "" "" "".

Definition searchSelector : string := "input[name=" ++ Js.quoted "q" ++ "]".

(** The fixture of the policy divergence: element A comes first and scores
    0.15, element B comes second and scores 0.9, under each of the simple,
    the universal and the complex scoring; the threshold is 0.1, and the
    composite score weighs the lexical score alone. *)
Definition elementA : SerializedElement := snapshot "li" "egh" "".

Definition elementB : SerializedElement :=
  snapshot "form" "b-e-g-h-j-k" "n-p-q-t-u-v-w".

Definition driftedSelector : string :=
  "form#id=b-e-g-h-j-k.class=n-p-q-t-u-v-w]".

Definition fixturePage : PlaywrightPage :=
  mkPage 3 (fun _ => false) (Some [elementA; elementB]) (fun _ => Some []).

Definition fixtureInstance : Instance :=
  mkInstance
    (spread DEFAULT_CONFIG
            (mkPartial (Some 0.1) (Some 1) (Some 0) (Some 0) None None None None))
    ∅ ∅ 0.


(** ** The matrix of the edit distance, entry by entry *)

(** [matrix[i][j]] *)
Definition matrixEntry (str1 str2 : string) (i j : nat) : nat :=
  nth j (nth i (levenshteinMatrix str1 str2) []) 0%nat.

(** [str1[i] === str2[j] ? 0 : 1] *)
Definition substitutionCost (str1 str2 : string) (i j : nat) : nat :=
  match String.get i str1, String.get j str2 with
  | Some a, Some b => if Ascii.eqb a b then 0%nat else 1%nat
  | _, _ => 1%nat
  end.


(** ** Selection policies as values *)

(** The loop shared by the universal and the advanced strategy: a candidate
    replaces the best match when its score is strictly greater than the best
    score so far and reaches the threshold. *)
Fixpoint selectBest (score : SerializedElement -> Q) (threshold : Q)
    (candidates : list SerializedElement)
    (bestMatch : option SerializedElement) (bestScore : Q)
  : option SerializedElement * Q :=
  match candidates with
  | [] => (bestMatch, bestScore)
  | el :: rest =>
      if Qltb bestScore (score el) && Qle_bool threshold (score el)
      then selectBest score threshold rest (Some el) (score el)
      else selectBest score threshold rest bestMatch bestScore
  end.

(** [el] is the earliest of the best candidates: it scores strictly more
    than every candidate before it and at least as much as every candidate
    after it. *)
Definition earliestBest (score : SerializedElement -> Q)
    (candidates : list SerializedElement) (el : SerializedElement) : Prop :=
  exists before after,
    candidates = (before ++ el :: after)%list
    /\ (forall c, In c before -> score c < score el)
    /\ (forall c, In c after -> score c <= score el).

(** The contextual elements as [getContextualElements] yields them. *)
Definition contextualOf (page : PlaywrightPage) (originalSelector : string)
  : list SerializedElement :=
  match evaluateContext page originalSelector with
  | Some contextual => contextual
  | None => []
  end.

(** The score of a snapshot under the advanced strategy. *)
Definition advancedScore (originalSelector : string)
    (contextualElements : list SerializedElement) (el : SerializedElement) : Q :=
  Qmin (calculateLevenshteinSimilarity originalSelector (identifierOf el)
        + (if Nat.ltb 0 (List.length contextualElements) then 0.2 else 0)) 1
  * 0.7
  + contextualRelevance el contextualElements * 0.3.

(** What a strategy answers once the loop has chosen. *)
Definition healed (page : PlaywrightPage) (choice : option SerializedElement)
  : option PlaywrightLocator :=
  match choice with
  | Some el => Some (Locator (pageId page) (optimalSelector el))
  | None => None
  end.

(** A page on which every selector resolves and every evaluation is
    rejected. *)
Definition resolvingPage : PlaywrightPage :=
  mkPage 4 (fun _ => true) None (fun _ => None).


(** The answer [r] of a strategy that ranks the candidates by [score] and
    accepts those that satisfy [qualifies]: no match when no candidate
    qualifies, otherwise the locator synthesized from the earliest of the
    best candidates, which qualifies. *)
Definition choosesEarliestBest (page : PlaywrightPage)
    (score : SerializedElement -> Q) (qualifies : SerializedElement -> Prop)
    (candidates : list SerializedElement) (r : option PlaywrightLocator)
  : Prop :=
  (r = None /\ forall c, In c candidates -> ~ qualifies c)
  \/ exists el,
       r = Some (Locator (pageId page) (optimalSelector el))
       /\ qualifies el
       /\ earliestBest score candidates el.


(** A page of two elements on which no selector resolves, and the same page
    after its elements were replaced. *)
Definition changedPage : PlaywrightPage :=
  mkPage 3 (fun _ => false) (Some [containerSnapshot]) (fun _ => Some []).

(** A custom element without attributes, whose identifier is its tag. *)
Definition customElement : SerializedElement := snapshot "nav-div" "" "".


(** [s] contains a single or a double quote. *)
Fixpoint hasQuote (s : string) : bool :=
  match s with
  | EmptyString => false
  | String c s' => isQuote c || hasQuote s'
  end.

(** A field that synthesis addresses by its name. *)
Definition namedField : SerializedElement :=
  SerializedElement.mk "input" "" "form-control" "" "Email" "email" "text"
    "" "" "" "" "" "" "".


(** What a strategy may change in the instance: never the configuration;
    the similarity cache is kept as it is, or keeps every entry it had. *)
Definition keepsScores (before after : Instance) : Prop :=
  config after = config before
  /\ similarityCache after = similarityCache before.

Definition growsScores (before after : Instance) : Prop :=
  config after = config before
  /\ similarityCache before ⊆ similarityCache after.


(** The score the similarity cache holds for a selector and a snapshot. *)
Definition cachedScore (s : Instance) (originalSelector : string)
    (el : SerializedElement) : Q :=
  default 0 (similarityCache s !! cacheKey originalSelector (identifierOf el)).

(** Two search fields, the first with an id, on a page where the search
    selector no longer resolves. *)
Definition idField : SerializedElement :=
  SerializedElement.mk "input" "search" "" "" "" "q" "" "" "" "" "" "" "" "".

Definition twoFields : PlaywrightPage :=
  mkPage 5 (fun _ => false) (Some [idField; searchField]) (fun _ => Some []).

(** * The engine in binary64 arithmetic

    The numeric methods once more, with a JavaScript number as what it is:
    an IEEE 754 double ([float], round to nearest even, with NaN, the
    infinities and the two zeros), and a configuration value as a number or
    [undefined].  Whether a score reaches the threshold, and which of two
    scores is the greater, is decided here as the engine decides it.
    Strings, snapshots, the page, the edit distance (a matrix of small
    integers), identifiers and synthesized selectors are those above. *)

Module Binary64.

Import Floats.
#[local] Set Warnings "-inexact-float".
Local Open Scope float_scope.

(** An integer as a number; exact below 2^53. *)
Definition ofZ (z : Z) : float :=
  if (z <? 0)%Z then - of_uint63 (Uint63.of_Z (- z))
  else of_uint63 (Uint63.of_Z z).

Definition ofNat (n : nat) : float := ofZ (Z.of_nat n).

(** [x !== x] *)
Definition isNaN (x : float) : bool := negb (x =? x).

(** [Math.min(x, y)] and [Math.max(x, y)]: NaN when an argument is NaN; of
    the two zeros the negative one is the smaller. *)
Definition mathMin (x y : float) : float :=
  if isNaN x || isNaN y then nan
  else if x <? y then x
  else if y <? x then y
  else if get_sign x then x else y.

Definition mathMax (x y : float) : float :=
  if isNaN x || isNaN y then nan
  else if y <? x then x
  else if x <? y then y
  else if get_sign x then y else x.

(** A value of type [number | undefined]; [undefined] converts to NaN where
    a number is expected. *)
Inductive JsValue :=
| Undefined
| Number (x : float).

Definition toNumber (v : JsValue) : float :=
  match v with
  | Undefined => nan
  | Number x => x
  end.

(** ** Lexical similarity *)

Definition calculateLevenshteinSimilarity (str1 str2 : string) : float :=
  let len1 := String.length str1 in
  let len2 := String.length str2 in
  if Nat.eqb len1 0 then (if Nat.eqb len2 0 then 1 else 0)
  else if Nat.eqb len2 0 then 0
  else
    let maxLen := Nat.max len1 len2 in
    let distance := levenshteinDistance str1 str2 in
    let similarity := 1 - ofNat distance / ofNat maxLen in
    let similarity :=
      if Js.startsWith str2 str1 then similarity + 0.8
      else if Js.includes str2 str1 then similarity + 0.6
      else similarity in
    mathMin similarity 1.

(** ** Configuration and instance *)

Record SelfHealingConfig := mkConfig {
  minSimilarityThreshold : JsValue;
  levenshteinWeight : JsValue;
  semanticWeight : JsValue;
  structuralWeight : JsValue;
  domCacheTTL : JsValue;
  maxElementsToAnalyze : JsValue;
  findTimeout : JsValue;
  debug : option bool
}.

(** [Partial<SelfHealingConfig>]: a key is absent ([None]) or supplied, and
    a supplied key may hold [undefined]. *)
Record PartialConfig := mkPartial {
  minSimilarityThreshold' : option JsValue;
  levenshteinWeight' : option JsValue;
  semanticWeight' : option JsValue;
  structuralWeight' : option JsValue;
  domCacheTTL' : option JsValue;
  maxElementsToAnalyze' : option JsValue;
  findTimeout' : option JsValue;
  debug' : option (option bool)
}.

Definition DEFAULT_CONFIG : SelfHealingConfig := {|
  minSimilarityThreshold := Number 0.1;
  levenshteinWeight := Number 0.7;
  semanticWeight := Number 0.2;
  structuralWeight := Number 0.1;
  domCacheTTL := Number 30000;
  maxElementsToAnalyze := Number 50;
  findTimeout := Number 5000;
  debug := Some false
|}.

(** [{ ...base, ...over }]: every key of [over] replaces the key of [base],
    also when it holds [undefined]. *)
Definition spread (base : SelfHealingConfig) (over : PartialConfig)
  : SelfHealingConfig := {|
  minSimilarityThreshold := default (minSimilarityThreshold base) (minSimilarityThreshold' over);
  levenshteinWeight := default (levenshteinWeight base) (levenshteinWeight' over);
  semanticWeight := default (semanticWeight base) (semanticWeight' over);
  structuralWeight := default (structuralWeight base) (structuralWeight' over);
  domCacheTTL := default (domCacheTTL base) (domCacheTTL' over);
  maxElementsToAnalyze := default (maxElementsToAnalyze base) (maxElementsToAnalyze' over);
  findTimeout := default (findTimeout base) (findTimeout' over);
  debug := default (debug base) (debug' over)
|}.

(** The truthiness of [config.debug]. *)
Definition debugOn (cfg : SelfHealingConfig) : bool := default false (debug cfg).

Record Instance := mkInstance {
  config : SelfHealingConfig;
  domCache : gmap nat DomCacheEntry;
  similarityCache : gmap string float;
  debugElementCount : nat
}.

(** ** Methods as state transformers that may throw *)

Definition M (A : Type) : Type := Instance -> (Exn + A) * Instance.

Definition ret {A} (a : A) : M A := fun s => (inr a, s).

Definition bind {A B} (m : M A) (f : A -> M B) : M B := fun s =>
  match m s with
  | (inl e, s') => (inl e, s')
  | (inr a, s') => f a s'
  end.

Definition throw {A} (e : Exn) : M A := fun s => (inl e, s).
Definition get : M Instance := fun s => (inr s, s).
Definition put (s : Instance) : M unit := fun _ => (inr tt, s).

(** [try { m } catch { h }] *)
Definition tryCatch {A} (m : M A) (h : M A) : M A := fun s =>
  match m s with
  | (inl _, s') => h s'
  | (inr a, s') => (inr a, s')
  end.

Declare Scope js64_scope.
Delimit Scope js64_scope with js64.
Notation "x <- m ;; k" := (bind m (fun x => k))
  (at level 100, m at next level, right associativity) : js64_scope.
Notation "m ;;; k" := (bind m (fun _ => k))
  (at level 100, right associativity) : js64_scope.
Local Open Scope js64_scope.

Definition getConfig : M SelfHealingConfig := s <- get ;; ret (config s).

Definition setConfig (c : SelfHealingConfig) (s : Instance) : Instance :=
  mkInstance c (domCache s) (similarityCache s) (debugElementCount s).
Definition setDomCache (d : gmap nat DomCacheEntry) (s : Instance) : Instance :=
  mkInstance (config s) d (similarityCache s) (debugElementCount s).
Definition setSimilarityCache (c : gmap string float) (s : Instance) : Instance :=
  mkInstance (config s) (domCache s) c (debugElementCount s).
Definition setDebugElementCount (n : nat) (s : Instance) : Instance :=
  mkInstance (config s) (domCache s) (similarityCache s) n.

Definition modify (f : Instance -> Instance) : M unit :=
  s <- get ;; put (f s).

(** ** [validateConfig], the constructor, [updateConfig] *)

Definition validateConfig : M unit :=
  cfg <- getConfig ;;
  if (toNumber (minSimilarityThreshold cfg) <? 0)
     || (1 <? toNumber (minSimilarityThreshold cfg))
  then throw (Error "minSimilarityThreshold must be between 0 and 1")
  else if (toNumber (maxElementsToAnalyze cfg) <? 1)
          || (1000 <? toNumber (maxElementsToAnalyze cfg))
  then throw (Error "maxElementsToAnalyze must be between 1 and 1000")
  else if (toNumber (findTimeout cfg) <? 100)
          || (60000 <? toNumber (findTimeout cfg))
  then throw (Error "findTimeout must be between 100ms and 60000ms")
  else ret tt.

(** [new PlaywrightAISelfHealing(config)]: the fields are initialised, then
    validated. *)
Definition constructor (partial : PartialConfig) : (Exn + unit) * Instance :=
  validateConfig (mkInstance (spread DEFAULT_CONFIG partial) ∅ ∅ 0).

Definition updateConfig (newConfig : PartialConfig) : M unit :=
  modify (fun s => setConfig (spread (config s) newConfig) s) ;;;
  validateConfig.

(** ** Identifier and sub-scores *)

Definition getElementIdentifier (element : SerializedElement) : M string :=
  modify (fun s => setDebugElementCount (S (debugElementCount s)) s) ;;;
  ret (identifierOf element).

Definition semanticScore (originalSelector elementText : string) : float :=
  let originalWords := Js.splitWords (Js.toLowerCase originalSelector) in
  let elementWords := Js.splitWords (Js.toLowerCase elementText) in
  let matchCount :=
    List.length (List.filter (wordMatches elementWords) originalWords) in
  if Nat.ltb 0 (List.length originalWords)
  then ofNat matchCount / ofNat (List.length originalWords)
  else 0.

Definition calculateSemanticSimilarity (originalSelector : string)
    (element : SerializedElement) : M float :=
  elementText <- getElementIdentifier element ;;
  ret (semanticScore originalSelector elementText).

Definition structuralScore (originalSelector : string)
    (element : SerializedElement) : float :=
  let tagName := Js.toLowerCase (tagName element) in
  let className := className element in
  let elementId := id element in
  let score := 0 in
  let score := if Js.truthy tagName && Js.includes originalSelector tagName
               then score + 0.3 else score in
  let score := if Js.includes originalSelector elementId && Js.truthy elementId
               then score + 0.4 else score in
  let score := if Js.truthy className && Js.includes originalSelector className
               then score + 0.3 else score in
  mathMin score 1.

Definition calculateStructuralSimilarity (originalSelector : string)
    (element : SerializedElement) : M float :=
  ret (structuralScore originalSelector element).

(** ** Bonuses and composite score *)

Definition typeBonus (originalSelector : string) (element : SerializedElement)
  : float :=
  let tag := tagName element in
  let mentions := Js.includes originalSelector in
  if mentions "input" && (String.eqb tag "input" || String.eqb tag "textarea")
  then 0.4
  else if mentions "button" && (String.eqb tag "button" || String.eqb tag "input")
  then 0.4
  else if mentions "select" && String.eqb tag "select"
  then 0.4
  else if mentions "textarea" && String.eqb tag "textarea"
  then 0.4
  else if (mentions "input" || mentions "button")
          && existsb (String.eqb tag) ["html"; "body"; "div"; "span"; "a"]
  then - 0.3
  else 0.

Definition attributeBonus (originalSelector : string)
    (element : SerializedElement) : float :=
  let mentions := Js.includes originalSelector in
  let bonus := 0 in
  let bonus :=
    if mentions "name=" && Js.truthy (name element) then
      match matchAttribute "name=" originalSelector with
      | Some selectorName =>
          if String.eqb selectorName (name element) then bonus + 0.5
          else
            let nameSimilarity :=
              calculateLevenshteinSimilarity selectorName (name element) in
            if 0.5 <? nameSimilarity
            then bonus + nameSimilarity * 0.3 else bonus
      | None => bonus
      end
    else bonus in
  let bonus :=
    if mentions "input"
       && (String.eqb (name element) "q" || String.eqb (name element) "search"
           || String.eqb (name element) "query")
    then bonus + 0.3 else bonus in
  let bonus :=
    if mentions "button"
       && (String.eqb (name element) "btnK" || String.eqb (name element) "btnG"
           || String.eqb (type element) "submit")
    then bonus + 0.4 else bonus in
  let bonus :=
    if mentions "Gmail"
       && Js.includes (Js.toLowerCase (textContent element)) "gmail"
    then bonus + 0.4 else bonus in
  let bonus :=
    if mentions "Images"
       && Js.includes (Js.toLowerCase (textContent element)) "images"
    then bonus + 0.4 else bonus in
  let bonus :=
    if mentions "placeholder=" && Js.truthy (placeholder element) then
      match matchAttribute "placeholder=" originalSelector with
      | Some p => if String.eqb p (placeholder element)
                  then bonus + 0.3 else bonus
      | None => bonus
      end
    else bonus in
  let bonus :=
    if mentions "type=" && Js.truthy (type element) then
      match matchAttribute "type=" originalSelector with
      | Some t => if String.eqb t (type element)
                  then bonus + 0.3 else bonus
      | None => bonus
      end
    else bonus in
  bonus.

Definition totalScore (cfg : SelfHealingConfig)
    (levenshteinScore semanticScore structuralScore typeBonus attributeBonus
       : float) : float :=
  levenshteinScore * toNumber (levenshteinWeight cfg)
  + semanticScore * toNumber (semanticWeight cfg)
  + structuralScore * toNumber (structuralWeight cfg)
  + typeBonus
  + attributeBonus.

Definition calculateComprehensiveSimilarity (originalSelector : string)
    (element : SerializedElement) : M float :=
  elementText <- getElementIdentifier element ;;
  let cacheKey := cacheKey originalSelector elementText in
  s <- get ;;
  match similarityCache s !! cacheKey with
  | Some cached => ret cached
  | None =>
      let levenshteinScore :=
        calculateLevenshteinSimilarity originalSelector elementText in
      semanticScore <- calculateSemanticSimilarity originalSelector element ;;
      structuralScore <- calculateStructuralSimilarity originalSelector element ;;
      cfg <- getConfig ;;
      let totalScore :=
        totalScore cfg levenshteinScore semanticScore structuralScore
                   (typeBonus originalSelector element)
                   (attributeBonus originalSelector element) in
      modify (fun s => setSimilarityCache
                         (<[cacheKey := totalScore]> (similarityCache s)) s) ;;;
      ret (mathMax 0 (mathMin totalScore 1))
  end.

(** ** Pattern and context scores *)

Definition calculatePatternSimilarity (originalSelector : string)
    (element : SerializedElement) (contextualElements : list SerializedElement)
  : M float :=
  elementText <- getElementIdentifier element ;;
  let basicSimilarity :=
    calculateLevenshteinSimilarity originalSelector elementText in
  let patternBonus :=
    if Nat.ltb 0 (List.length contextualElements) then 0.2 else 0 in
  ret (mathMin (basicSimilarity + patternBonus) 1).

Definition contextualRelevance (element : SerializedElement)
    (contextualElements : list SerializedElement) : float :=
  if Nat.eqb (List.length contextualElements) 0 then 0.5
  else
    mathMin (fold_left
               (fun relevanceScore contextElement =>
                  let relevanceScore :=
                    if String.eqb (tagName element) (tagName contextElement)
                    then relevanceScore + 0.2 else relevanceScore in
                  if Js.truthy (className element)
                     && Js.truthy (className contextElement)
                     && String.eqb (className element) (className contextElement)
                  then relevanceScore + 0.1 else relevanceScore)
               contextualElements 0)
            1.

Definition calculateContextualRelevance (element : SerializedElement)
    (contextualElements : list SerializedElement) : M float :=
  ret (contextualRelevance element contextualElements).

Definition generateOptimalSelector (page : nat) (element : SerializedElement)
  : M string :=
  ret (optimalSelector element).

(** ** Snapshot provider *)

Definition getAllPageElements (now : Z) (page : PlaywrightPage)
  : M (list SerializedElement) :=
  s <- get ;;
  let extract : M (list SerializedElement) :=
    match evaluateElements page with
    | None => throw HostRejection
    | Some elements =>
        modify (fun s => setDomCache
                  (<[pageId page := mkEntry elements now]> (domCache s)) s) ;;;
        ret elements
    end in
  match domCache s !! pageId page with
  | Some cached =>
      if ofZ (now - timestamp cached) <? toNumber (domCacheTTL (config s))
      then ret (elements cached)
      else extract
  | None => extract
  end.

Definition getContextualElements (page : PlaywrightPage)
    (originalSelector : string) : M (list SerializedElement) :=
  tryCatch
    (match evaluateContext page originalSelector with
     | None => throw HostRejection
     | Some contextual => ret contextual
     end)
    (ret []).

(** ** The four strategies *)

(** ToIntegerOrInfinity of a finite number: truncation towards zero. *)
Definition truncate (x : float) : Z :=
  match Prim2SF x with
  | S754_finite sign m e =>
      let magnitude := Z.shiftl (Zpos m) e in
      if sign then (- magnitude)%Z else magnitude
  | _ => 0%Z
  end.

(** [l.slice(0, end)]: [undefined] is the length of the array, NaN is 0, a
    negative [end] counts from the end of the array. *)
Definition slice0 {A} (l : list A) (finish : JsValue) : list A :=
  let len := Z.of_nat (List.length l) in
  match finish with
  | Undefined => l
  | Number x =>
      if x =? infinity then l
      else if x =? neg_infinity then []
      else
        let relativeEnd := truncate x in
        let final := if (relativeEnd <? 0)%Z then Z.max (len + relativeEnd) 0
                     else Z.min relativeEnd len in
        firstn (Z.to_nat final) l
  end.

Definition tryOriginal (page : PlaywrightPage) (originalSelector : string)
  : M (option PlaywrightLocator) :=
  tryCatch
    (if waitForOk page originalSelector
     then ret (Some (Locator (pageId page) originalSelector))
     else throw HostRejection)
    (ret None).

Definition heal (page : PlaywrightPage) (element : SerializedElement)
  : M (option PlaywrightLocator) :=
  healedSelector <- generateOptimalSelector (pageId page) element ;;
  ret (Some (Locator (pageId page) healedSelector)).

Definition when (b : bool) (m : M unit) : M unit := if b then m else ret tt.

Fixpoint universalLoop (originalSelector : string)
    (candidates : list SerializedElement)
    (bestMatch : option SerializedElement) (bestScore : float)
    (elementCount : nat)
  : M (option SerializedElement * float) :=
  match candidates with
  | [] => ret (bestMatch, bestScore)
  | element :: rest =>
      score <- calculateComprehensiveSimilarity originalSelector element ;;
      cfg <- getConfig ;;
      when (debugOn cfg && Nat.ltb elementCount 5)
           (_ <- getElementIdentifier element ;; ret tt) ;;;
      if (bestScore <? score)
         && (toNumber (minSimilarityThreshold cfg) <=? score)
      then universalLoop originalSelector rest (Some element) score (S elementCount)
      else universalLoop originalSelector rest bestMatch bestScore (S elementCount)
  end.

Definition findElementUniversal (now : Z) (page : PlaywrightPage)
    (originalSelector : string) : M (option PlaywrightLocator) :=
  if negb (isValidSelector originalSelector) then throw invalidSelector else
  original <- tryOriginal page originalSelector ;;
  match original with
  | Some locator => ret (Some locator)
  | None =>
      allElements <- getAllPageElements now page ;;
      cfg <- getConfig ;;
      best <- universalLoop originalSelector
                (slice0 allElements (maxElementsToAnalyze cfg)) None 0 0 ;;
      match fst best with
      | Some bestMatch => heal page bestMatch
      | None => ret None
      end
  end.

Fixpoint simpleLoop (page : PlaywrightPage) (originalSelector : string)
    (candidates : list SerializedElement) : M (option PlaywrightLocator) :=
  match candidates with
  | [] => ret None
  | element :: rest =>
      elementText <- getElementIdentifier element ;;
      let similarity :=
        calculateLevenshteinSimilarity originalSelector elementText in
      cfg <- getConfig ;;
      if toNumber (minSimilarityThreshold cfg) <=? similarity
      then heal page element
      else simpleLoop page originalSelector rest
  end.

Definition findElementSimple (now : Z) (page : PlaywrightPage)
    (originalSelector : string) : M (option PlaywrightLocator) :=
  if negb (isValidSelector originalSelector) then throw invalidSelector else
  original <- tryOriginal page originalSelector ;;
  match original with
  | Some locator => ret (Some locator)
  | None =>
      allElements <- getAllPageElements now page ;;
      cfg <- getConfig ;;
      simpleLoop page originalSelector
                 (slice0 allElements (maxElementsToAnalyze cfg))
  end.

(** [{ element, score }] *)
Record MatchCandidate := mkCandidate {
  element : SerializedElement;
  score : float
}.

(** [candidates.sort((a, b) => b.score - a.score)]: [b] moves in front of
    the earlier [a] when the comparator is positive; the sort is stable. *)
Fixpoint insertCandidate (a : MatchCandidate) (sorted : list MatchCandidate)
  : list MatchCandidate :=
  match sorted with
  | [] => [a]
  | b :: rest =>
      if 0 <? score b - score a then b :: insertCandidate a rest
      else a :: b :: rest
  end.

Definition sortCandidates (candidates : list MatchCandidate)
  : list MatchCandidate :=
  fold_right insertCandidate [] candidates.

Fixpoint complexLoop (originalSelector : string)
    (elements : list SerializedElement) (candidates : list MatchCandidate)
  : M (list MatchCandidate) :=
  match elements with
  | [] => ret candidates
  | element :: rest =>
      semanticScore <- calculateSemanticSimilarity originalSelector element ;;
      structuralScore <- calculateStructuralSimilarity originalSelector element ;;
      let totalScore := semanticScore * 0.6 + structuralScore * 0.4 in
      cfg <- getConfig ;;
      if toNumber (minSimilarityThreshold cfg) <=? totalScore
      then complexLoop originalSelector rest
             (candidates ++ [mkCandidate element totalScore])%list
      else complexLoop originalSelector rest candidates
  end.

Definition findElementComplex (now : Z) (page : PlaywrightPage)
    (originalSelector : string) : M (option PlaywrightLocator) :=
  if negb (isValidSelector originalSelector) then throw invalidSelector else
  original <- tryOriginal page originalSelector ;;
  match original with
  | Some locator => ret (Some locator)
  | None =>
      allElements <- getAllPageElements now page ;;
      cfg <- getConfig ;;
      candidates <- complexLoop originalSelector
                      (slice0 allElements (maxElementsToAnalyze cfg)) [] ;;
      match sortCandidates candidates with
      | bestCandidate :: _ => heal page (element bestCandidate)
      | [] => ret None
      end
  end.

Fixpoint advancedLoop (originalSelector : string)
    (contextualElements candidates : list SerializedElement)
    (bestMatch : option SerializedElement) (bestScore : float)
  : M (option SerializedElement * float) :=
  match candidates with
  | [] => ret (bestMatch, bestScore)
  | element :: rest =>
      patternScore <- calculatePatternSimilarity originalSelector element
                        contextualElements ;;
      contextScore <- calculateContextualRelevance element contextualElements ;;
      let totalScore := patternScore * 0.7 + contextScore * 0.3 in
      cfg <- getConfig ;;
      if (bestScore <? totalScore)
         && (toNumber (minSimilarityThreshold cfg) <=? totalScore)
      then advancedLoop originalSelector contextualElements rest
             (Some element) totalScore
      else advancedLoop originalSelector contextualElements rest
             bestMatch bestScore
  end.

Definition findElementAdvanced (now : Z) (page : PlaywrightPage)
    (originalSelector : string) : M (option PlaywrightLocator) :=
  if negb (isValidSelector originalSelector) then throw invalidSelector else
  original <- tryOriginal page originalSelector ;;
  match original with
  | Some locator => ret (Some locator)
  | None =>
      allElements <- getAllPageElements now page ;;
      contextualElements <- getContextualElements page originalSelector ;;
      cfg <- getConfig ;;
      best <- advancedLoop originalSelector contextualElements
                (slice0 allElements (maxElementsToAnalyze cfg)) None 0 ;;
      match fst best with
      | Some bestMatch => heal page bestMatch
      | None => ret None
      end
  end.

(** ** The scores of the strategies as values *)

Definition simpleScore (originalSelector : string) (el : SerializedElement)
  : float :=
  calculateLevenshteinSimilarity originalSelector (identifierOf el).

(** The composite score before the clamp, which the similarity cache
    stores, and after it, which a miss returns. *)
Definition rawScore (cfg : SelfHealingConfig) (originalSelector : string)
    (el : SerializedElement) : float :=
  totalScore cfg
    (calculateLevenshteinSimilarity originalSelector (identifierOf el))
    (semanticScore originalSelector (identifierOf el))
    (structuralScore originalSelector el)
    (typeBonus originalSelector el)
    (attributeBonus originalSelector el).

Definition universalScore (cfg : SelfHealingConfig) (originalSelector : string)
    (el : SerializedElement) : float :=
  mathMax 0 (mathMin (rawScore cfg originalSelector el) 1).

Definition complexScore (originalSelector : string) (el : SerializedElement)
  : float :=
  semanticScore originalSelector (identifierOf el) * 0.6
  + structuralScore originalSelector el * 0.4.

Definition advancedScore (originalSelector : string)
    (contextualElements : list SerializedElement) (el : SerializedElement)
  : float :=
  mathMin (calculateLevenshteinSimilarity originalSelector (identifierOf el)
           + (if Nat.ltb 0 (List.length contextualElements) then 0.2 else 0)) 1
  * 0.7
  + contextualRelevance el contextualElements * 0.3.

(** The score the similarity cache holds for a selector and a snapshot. *)
Definition cachedScore (s : Instance) (originalSelector : string)
    (el : SerializedElement) : float :=
  default 0 (similarityCache s !! cacheKey originalSelector (identifierOf el)).

(** ** Selection, in the words of the properties *)

(** The loop of the universal and the advanced strategy on scores that are
    given. *)
Fixpoint selectBest (score : SerializedElement -> float) (threshold : float)
    (candidates : list SerializedElement)
    (bestMatch : option SerializedElement) (bestScore : float)
  : option SerializedElement * float :=
  match candidates with
  | [] => (bestMatch, bestScore)
  | el :: rest =>
      if (bestScore <? score el) && (threshold <=? score el)
      then selectBest score threshold rest (Some el) (score el)
      else selectBest score threshold rest bestMatch bestScore
  end.

(** [el] is the earliest of the best candidates: no candidate before it
    scores as much, no candidate after it scores more.  (A candidate whose
    score is NaN compares with nothing.) *)
Definition earliestBest (score : SerializedElement -> float)
    (candidates : list SerializedElement) (el : SerializedElement) : Prop :=
  exists before after,
    candidates = (before ++ el :: after)%list
    /\ (forall c, In c before -> (score el <=? score c) = false)
    /\ (forall c, In c after -> (score el <? score c) = false).

(** The answer [r] of a strategy that accepts the candidates that satisfy
    [qualifies]: no match when no candidate qualifies, otherwise the locator
    synthesized from the candidate [el] singled out by [chosen], which
    qualifies. *)
Definition answers (page : PlaywrightPage)
    (qualifies : SerializedElement -> bool)
    (chosen : list SerializedElement -> SerializedElement -> Prop)
    (candidates : list SerializedElement) (r : option PlaywrightLocator)
  : Prop :=
  (r = None /\ forall c, In c candidates -> qualifies c = false)
  \/ exists el,
       r = Some (Locator (pageId page) (optimalSelector el))
       /\ qualifies el = true
       /\ chosen candidates el.

(** ** The configuration invariants, in the words of the specification *)

(** A value within [lo, hi]: a number that is at least [lo] and at most
    [hi]. *)
Definition inRange (lo hi : float) (v : JsValue) : Prop :=
  exists x, v = Number x /\ (lo <=? x) = true /\ (x <=? hi) = true.

Definition validConfiguration (cfg : SelfHealingConfig) : Prop :=
  inRange 0 1 (minSimilarityThreshold cfg)
  /\ inRange 1 1000 (maxElementsToAnalyze cfg)
  /\ inRange 100 60000 (findTimeout cfg).

(** The test of [validateConfig] on one option: [v < lo || v > hi]. *)
Definition outside (lo hi : float) (v : JsValue) : bool :=
  (toNumber v <? lo) || (hi <? toNumber v).

(** A number that compares with other numbers: not [undefined], not NaN. *)
Definition ordered (v : JsValue) : Prop :=
  exists x, v = Number x /\ isNaN x = false.

Definition throwsConfigurationError {A} (o : (Exn + A) * Instance) : Prop :=
  exists e, fst o = inl e /\ isConfigurationError e = true.

Definition withWeights (wl ws wt : JsValue) (cfg : SelfHealingConfig)
  : SelfHealingConfig :=
  mkConfig (minSimilarityThreshold cfg) wl ws wt (domCacheTTL cfg)
           (maxElementsToAnalyze cfg) (findTimeout cfg) (debug cfg).

Definition defaultInstance : Instance := mkInstance DEFAULT_CONFIG ∅ ∅ 0.

(** An instance with the default configuration but for the threshold. *)
Definition withThreshold (threshold : JsValue) : Instance :=
  mkInstance (spread DEFAULT_CONFIG
                (mkPartial (Some threshold) None None None None None None None))
             ∅ ∅ 0.

End Binary64.

(** ** Fixtures next to the threshold *)

(** A page with the given visible elements on which no selector resolves. *)
Definition brokenPage (pageId : nat) (visible : list SerializedElement)
  : PlaywrightPage :=
  mkPage pageId (fun _ => false) (Some visible) (fun _ => Some []).

(** [div#ab], whose lexical score for the selector [.b] is one rounding
    below a tenth. *)
Definition nearThresholdPage : PlaywrightPage :=
  brokenPage 6 [snapshot "div" "ab" ""].

(** Two custom elements whose composite scores for the selector [x-y] are a
    tenth and one rounding above it. *)
Definition nearTiePage : PlaywrightPage :=
  brokenPage 7 [snapshot "qqqqx" "" ""; snapshot "abcd-ef" "" ""].

(** [p#foo-bar], which matches one of the six words of the selector. *)
Definition sixWordsSelector : string := "foo a1 a2 a3 a4 a5".

Definition oneWordPage : PlaywrightPage :=
  brokenPage 8 [snapshot "p" "foo-bar" ""].

(** A custom element [pass], looked for as [pass-input]. *)
Definition passPage : PlaywrightPage :=
  brokenPage 9 [snapshot "pass" "" ""].

(** * Properties *)

(** ** Lexical similarity *)

Section Levenshtein.

Lemma startsWith_refl (s : string) : Js.startsWith s s = true.
Proof.
  induction s as [|c s IH]; simpl; [reflexivity|].
  rewrite Ascii.eqb_refl. exact IH.
Qed.

Lemma append_cons (c : ascii) (a b : string) :
  String c a ++ b = String c (a ++ b).
Proof. reflexivity. Qed.

Lemma append_assoc (a b c : string) : a ++ (b ++ c) = (a ++ b) ++ c.
Proof.
  induction a as [|x a IH]; [reflexivity|].
  rewrite !append_cons. now rewrite IH.
Qed.

Lemma string_length_app (a b : string) :
  String.length (a ++ b) = (String.length a + String.length b)%nat.
Proof.
  induction a as [|x a IH]; [reflexivity|].
  rewrite append_cons. simpl. now rewrite IH.
Qed.

(** Row [i] keeps a zero on the diagonal when row [i-1] has one on it and
    the two characters at that place agree. *)
Lemma fillRow_diagonal (c : ascii) (pre rest : string) :
  forall (prev : list nat) (left : nat),
    List.length prev = S (String.length (pre ++ String c rest)) ->
    nth (String.length pre) prev 0%nat = 0%nat ->
    nth (String.length pre) (fillRow c (pre ++ String c rest) prev left) 0%nat
    = 0%nat.
Proof.
  induction pre as [|a pre IH]; intros prev left Hlen Hdiag.
  - destruct prev as [|diag [|up prev]]; simpl in Hlen; try discriminate.
    simpl in Hdiag. subst diag. simpl. rewrite Ascii.eqb_refl.
    now rewrite Nat.min_0_r.
  - destruct prev as [|diag [|up prev]]; simpl in Hlen; try discriminate.
    simpl. apply IH; [simpl; lia | exact Hdiag].
Qed.

Lemma fillRow_length (c : ascii) (str2 : string) :
  forall (prev : list nat) (left : nat),
    List.length prev = S (String.length str2) ->
    List.length (fillRow c str2 prev left) = String.length str2.
Proof.
  induction str2 as [|c2 str2 IH]; intros prev left Hlen.
  - destruct prev as [|? [|? ?]]; reflexivity.
  - destruct prev as [|diag [|up prev]]; simpl in Hlen; try discriminate.
    simpl. f_equal. apply IH. simpl. lia.
Qed.

Lemma fillRows_diagonal (str1 : string) :
  forall (str2 pre : string) (i : nat) (prev : list nat),
    str2 = pre ++ str1 ->
    List.length prev = S (String.length str2) ->
    nth (String.length pre) prev 0%nat = 0%nat ->
    nth (String.length str2)
        (nth (String.length str1) (prev :: fillRows str1 str2 i prev) [])
        0%nat = 0%nat.
Proof.
  induction str1 as [|c rest IH]; intros str2 pre i prev Hstr Hlen Hdiag.
  - subst str2. simpl. rewrite string_length_app. simpl.
    now rewrite Nat.add_0_r.
  - change (nth (String.length (String c rest))
                (prev :: fillRows (String c rest) str2 i prev) [])
      with (nth (String.length rest)
                ((i :: fillRow c str2 prev i)
                   :: fillRows rest str2 (S i) (i :: fillRow c str2 prev i)) []).
    apply (IH str2 (pre ++ String c EmptyString)).
    + subst str2. exact (append_assoc pre (String c EmptyString) rest).
    + simpl. now rewrite fillRow_length.
    + rewrite string_length_app. simpl. rewrite Nat.add_1_r. simpl.
      subst str2. now apply fillRow_diagonal.
Qed.

Lemma levenshteinDistance_refl (s : string) : levenshteinDistance s s = 0%nat.
Proof.
  unfold levenshteinDistance, levenshteinMatrix.
  apply (fillRows_diagonal s s EmptyString); try reflexivity.
  now rewrite length_seq.
Qed.

Lemma baseSimilarity_refl (s : string) : baseSimilarity s s == 1.
Proof.
  unfold baseSimilarity. rewrite levenshteinDistance_refl.
  unfold ofNat, Qdiv. simpl. ring.
Qed.

(** C6: the lexical similarity of a non-empty string with itself is 1, of
    the empty string with itself is 1, and of a non-empty string with the
    empty string is 0. *)
Theorem lex_identity_and_empty :
  (forall s : string, s <> EmptyString ->
     calculateLevenshteinSimilarity s s == 1)
  /\ calculateLevenshteinSimilarity "" "" == 1
  /\ (forall s : string, s <> EmptyString ->
        calculateLevenshteinSimilarity s "" == 0)
  /\ calculateLevenshteinSimilarity "x" "" == 0.
Proof.
  split; [|split; [reflexivity|split; [|reflexivity]]].
  - intros [|c s] Hs; [congruence|].
    unfold calculateLevenshteinSimilarity, substringBonus.
    rewrite startsWith_refl. cbn [String.length Nat.eqb].
    rewrite baseSimilarity_refl. reflexivity.
  - intros [|c s] Hs; [congruence|]. reflexivity.
Qed.

Lemma lex_identity_and_empty_witness :
  calculateLevenshteinSimilarity "submit-button" "submit-button" == 1
  /\ calculateLevenshteinSimilarity "submit-button" "" == 0.
Proof.
  destruct lex_identity_and_empty as (Hrefl & _ & Hempty & _).
  split; [apply Hrefl | apply Hempty]; discriminate.
Defined.

(** C7: the lexical similarity is not commutative.  From ["pass"] to
    ["pass-input"] it is 1, the other way round 0.4: the edit distance is
    the same in both directions, and the bonus is given only when the
    second argument starts with (0.8) or else contains (0.6) the first. *)
Theorem lex_not_commutative :
  ~ calculateLevenshteinSimilarity "pass" "pass-input"
    == calculateLevenshteinSimilarity "pass-input" "pass"
  /\ calculateLevenshteinSimilarity "pass" "pass-input" == 1
  /\ calculateLevenshteinSimilarity "pass-input" "pass" == 0.4
  /\ baseSimilarity "pass" "pass-input" == baseSimilarity "pass-input" "pass"
  /\ substringBonus "pass" "pass-input" == 0.8
  /\ substringBonus "pass-input" "pass" == 0.
Proof.
  repeat split; try (vm_compute; congruence).
Qed.

End Levenshtein.

(** ** Configuration *)

Section Configuration.

Lemma Qltb_lt (a b : Q) : Qltb a b = true <-> a < b.
Proof.
  unfold Qltb. rewrite negb_true_iff, <- not_true_iff_false, Qle_bool_iff.
  split; [apply Qnot_le_lt | apply Qlt_not_le].
Qed.

Lemma Qltb_ge (a b : Q) : Qltb a b = false <-> b <= a.
Proof.
  unfold Qltb. rewrite negb_false_iff. apply Qle_bool_iff.
Qed.

(** [validateConfig] throws one of its three errors exactly on the
    configurations outside the ranges, and never touches the instance. *)
Lemma validateConfig_spec (s : Instance) :
  final (validateConfig s) = s
  /\ events (validateConfig s) = []
  /\ (throwsConfigurationError (validateConfig s)
      <-> ~ validConfiguration (config s))
  /\ (result (validateConfig s) = inr tt <-> validConfiguration (config s)).
Proof.
  unfold validateConfig, getConfig, bind, get, ret, throw,
    throwsConfigurationError, validConfiguration, inRange.
  cbn [result final events].
  destruct (Qltb (minSimilarityThreshold (config s)) 0) eqn:H1;
  destruct (Qltb 1 (minSimilarityThreshold (config s))) eqn:H2;
  destruct (Qltb (maxElementsToAnalyze (config s)) 1) eqn:H3;
  destruct (Qltb 1000 (maxElementsToAnalyze (config s))) eqn:H4;
  destruct (Qltb (findTimeout (config s)) 100) eqn:H5;
  destruct (Qltb 60000 (findTimeout (config s))) eqn:H6;
  cbn [orb result final events app];
  rewrite ?Qltb_lt, ?Qltb_ge in *;
  (split; [reflexivity|split; [reflexivity|split; split]]);
  try (intros _; try (eexists; split; reflexivity); lra);
  try (intros (e & He & _); discriminate);
  try (intros ?; exfalso; lra);
  try discriminate; try reflexivity;
  try (intros Hn; exfalso; apply Hn; lra).
Qed.

(** C10 (fails on the code): a rejected update is not rolled back.  On a
    fresh default instance [updateConfig({ maxElementsToAnalyze: 0 })]
    throws, and the instance is left holding the rejected value 0 where it
    held 50; the universal strategy, which healed the drifted selector on
    the two-element page before, finds nothing after the rejected update. *)
Theorem updateConfig_rejected_update_is_kept :
  let newConfig :=
    mkPartial None None None None None (Some 0) None None in
  let o := updateConfig newConfig defaultInstance in
  result o = inl (Error "maxElementsToAnalyze must be between 1 and 1000")
  /\ maxElementsToAnalyze (config defaultInstance) = 50
  /\ maxElementsToAnalyze (config (final o)) = 0
  /\ config (final o) <> config defaultInstance
  /\ ~ validConfiguration (config (final o))
  /\ result (findElementUniversal 0 fixturePage driftedSelector defaultInstance)
     = inr (Some (Locator 3 "#b-e-g-h-j-k"))
  /\ result (findElementUniversal 0 fixturePage driftedSelector (final o))
     = inr None.
Proof.
  cbv zeta. split; [reflexivity|]. split; [reflexivity|].
  split; [reflexivity|]. split; [discriminate|]. split.
  - intros (_ & (H & _) & _). vm_compute in H. apply H. reflexivity.
  - split; vm_compute; reflexivity.
Qed.

End Configuration.

(** ** Selector validation *)

Section Validation.

Lemma allBool_spec (f : bool -> bool) :
  allBool f = true -> forall b, f b = true.
Proof.
  unfold allBool. intros H b. apply andb_true_iff in H.
  destruct b; tauto.
Qed.

Lemma allAscii_spec (f : ascii -> bool) :
  allAscii f = true -> forall c, f c = true.
Proof.
  unfold allAscii. intros H [b0 b1 b2 b3 b4 b5 b6 b7].
  apply allBool_spec with (b := b0) in H.
  apply allBool_spec with (b := b1) in H.
  apply allBool_spec with (b := b2) in H.
  apply allBool_spec with (b := b3) in H.
  apply allBool_spec with (b := b4) in H.
  apply allBool_spec with (b := b5) in H.
  apply allBool_spec with (b := b6) in H.
  apply allBool_spec with (b := b7) in H.
  exact H.
Qed.

Lemma caseNotionsAgree_all :
  allAscii (fun c => allAscii (caseNotionsAgree c)) = true.
Proof. vm_compute. reflexivity. Qed.

(** Against a character below 128 the canonical form of the regular
    expression and the folding of A-Z identify the same characters. *)
Lemma canonicalize_foldCase (c p : ascii) :
  isAsciiChar p = true ->
  (canonicalize c = canonicalize p <-> foldCase c = foldCase p).
Proof.
  intros Hp.
  pose proof (allAscii_spec _ (allAscii_spec _ caseNotionsAgree_all c) p) as H.
  unfold caseNotionsAgree in H. rewrite Hp in H. cbn in H.
  apply eqb_prop in H.
  split; intros E.
  - apply Ascii.eqb_eq. rewrite <- H. now apply Ascii.eqb_eq.
  - apply Ascii.eqb_eq. rewrite H. now apply Ascii.eqb_eq.
Qed.

Lemma canonical_foldCases (pattern : string) :
  isAsciiString pattern = true ->
  forall piece : string,
    canonical piece = canonical pattern <-> foldCases piece = foldCases pattern.
Proof.
  induction pattern as [|p pattern IH]; intros Hascii [|c piece]; cbn;
    try (split; discriminate); [tauto|].
  cbn in Hascii. apply andb_true_iff in Hascii as [Hp Hrest].
  split; intros E; injection E as Ec Es; f_equal.
  - now apply canonicalize_foldCase.
  - now apply IH.
  - now apply canonicalize_foldCase.
  - now apply IH.
Qed.

Lemma startsWith_spec (s p : string) :
  Js.startsWith s p = true <-> exists after, s = p ++ after.
Proof.
  revert s. induction p as [|a p IH]; intros s.
  - split; [intros _; now exists s | reflexivity].
  - destruct s as [|b s]; cbn.
    + split; [discriminate | intros (after & H); discriminate].
    + rewrite andb_true_iff, IH, Ascii.eqb_eq. split.
      * intros (-> & after & ->). now exists after.
      * intros (after & H). rewrite append_cons in H.
        injection H as -> ->. eauto.
Qed.

Lemma includes_spec (s sub : string) :
  Js.includes s sub = true <-> exists before after, s = before ++ sub ++ after.
Proof.
  induction s as [|c s IH].
  - cbn. rewrite orb_false_r, startsWith_spec. split.
    + intros (after & H). now exists EmptyString, after.
    + intros ([|? ?] & after & H); [now exists after | discriminate].
  - cbn [Js.includes]. rewrite orb_true_iff, IH, startsWith_spec. split.
    + intros [(after & H) | (before & after & H)].
      * now exists EmptyString, after.
      * exists (String c before), after. rewrite append_cons. now f_equal.
    + intros ([|b before] & after & H).
      * left. now exists after.
      * right. rewrite append_cons in H. injection H as -> ->. eauto.
Qed.

Lemma canonical_app (a b : string) :
  canonical (a ++ b) = canonical a ++ canonical b.
Proof.
  induction a as [|c a IH]; [reflexivity|].
  rewrite append_cons. cbn. rewrite IH. reflexivity.
Qed.

Lemma canonical_app_inv (s a b : string) :
  canonical s = a ++ b ->
  exists a0 b0, s = a0 ++ b0 /\ canonical a0 = a /\ canonical b0 = b.
Proof.
  revert s. induction a as [|c a IH]; intros s H.
  - now exists EmptyString, s.
  - destruct s as [|d s]; [discriminate|].
    rewrite append_cons in H. cbn in H. injection H as Hc Hs.
    destruct (IH s Hs) as (a0 & b0 & -> & Ha & Hb).
    exists (String d a0), b0. cbn. rewrite Ha, Hc. auto.
Qed.

(** The test of a case-insensitive literal pattern is the relation of the
    specification. *)
Lemma testIgnoreCase_spec (pattern s : string) :
  isAsciiString pattern = true ->
  (testIgnoreCase pattern s = true <-> matchesIgnoringCase s pattern).
Proof.
  intros Hascii. unfold testIgnoreCase, matchesIgnoringCase.
  rewrite includes_spec. split.
  - intros (before & after & H).
    apply canonical_app_inv in H as (b0 & rest & -> & _ & H).
    apply canonical_app_inv in H as (piece & a0 & -> & H & _).
    exists b0, piece, a0. split; [reflexivity|].
    now apply canonical_foldCases.
  - intros (before & piece & after & -> & H).
    exists (canonical before), (canonical after).
    rewrite !canonical_app. do 2 f_equal.
    now apply canonical_foldCases.
Qed.

Lemma truthy_false (s : string) : Js.truthy s = false <-> s = EmptyString.
Proof. destruct s; cbn; split; congruence. Qed.

(** [isValidSelector] refuses exactly the selectors the specification
    rejects. *)
Lemma isValidSelector_spec (selector : string) :
  isValidSelector selector = false <-> rejectedSelector selector.
Proof.
  unfold isValidSelector, rejectedSelector.
  destruct (Js.truthy selector) eqn:Ht; cbn [negb orb].
  - destruct (Nat.ltb 1000 (String.length selector)) eqn:Hl.
    + apply Nat.ltb_lt in Hl. split; auto.
    + apply Nat.ltb_ge in Hl.
      rewrite negb_false_iff, existsb_exists. split.
      * intros (pattern & Hin & Htest). right; right. exists pattern.
        split; [exact Hin|].
        apply testIgnoreCase_spec; [|exact Htest].
        cbn in Hin. intuition (subst; reflexivity).
      * intros [-> | [Hlen | (pattern & Hin & Hm)]];
          [discriminate | lia |].
        exists pattern. split; [exact Hin|].
        apply testIgnoreCase_spec; [|exact Hm].
        cbn in Hin. intuition (subst; reflexivity).
  - apply truthy_false in Ht. split; auto.
Qed.

End Validation.

(** ** Methods on one snapshot *)

Section Methods.

Variable originalSelector : string.

Lemma snapshotsIn_app P (l1 l2 : list Event) :
  snapshotsIn P l1 -> snapshotsIn P l2 -> snapshotsIn P (l1 ++ l2)%list.
Proof.
  unfold snapshotsIn. intros H1 H2 m el Hin.
  apply in_app_or in Hin as [Hin|Hin]; eauto.
Qed.

Lemma snapshotsIn_weaken (P P' : SerializedElement -> Prop) (l : list Event) :
  (forall el, P el -> P' el) -> snapshotsIn P l -> snapshotsIn P' l.
Proof. unfold snapshotsIn. eauto. Qed.

Lemma callsOf_app m (l1 l2 : list Event) :
  callsOf m (l1 ++ l2) = (callsOf m l1 ++ callsOf m l2)%list.
Proof. unfold callsOf. apply flat_map_app. Qed.

Lemma callsOf_cons m m' (el : SerializedElement) (l : list Event) :
  callsOf m (Call m' el :: l)
  = ((if decide (m = m') then [el] else []) ++ callsOf m l)%list.
Proof. reflexivity. Qed.

Lemma getElementIdentifier_outcome (el : SerializedElement) (s : Instance) :
  getElementIdentifier el s
  = mkOutcome (inr (identifierOf el))
              (setDebugElementCount (S (debugElementCount s)) s)
              [Call GetElementIdentifier el].
Proof. reflexivity. Qed.

Lemma calculateSemanticSimilarity_outcome (el : SerializedElement) (s : Instance) :
  calculateSemanticSimilarity originalSelector el s
  = mkOutcome (inr (semanticScore originalSelector (identifierOf el)))
              (setDebugElementCount (S (debugElementCount s)) s)
              [Call CalculateSemanticSimilarity el; Call GetElementIdentifier el].
Proof. reflexivity. Qed.

Lemma calculateStructuralSimilarity_outcome (el : SerializedElement) (s : Instance) :
  calculateStructuralSimilarity originalSelector el s
  = mkOutcome (inr (structuralScore originalSelector el)) s
              [Call CalculateStructuralSimilarity el].
Proof. reflexivity. Qed.

Lemma calculatePatternSimilarity_outcome (el : SerializedElement)
    (contextual : list SerializedElement) (s : Instance) :
  calculatePatternSimilarity originalSelector el contextual s
  = mkOutcome
      (inr (Qmin (calculateLevenshteinSimilarity originalSelector
                    (identifierOf el)
                  + (if Nat.ltb 0 (List.length contextual) then 0.2 else 0))
                 1))
      (setDebugElementCount (S (debugElementCount s)) s)
      [Call CalculatePatternSimilarity el; Call GetElementIdentifier el].
Proof. reflexivity. Qed.

Lemma calculateContextualRelevance_outcome (el : SerializedElement)
    (contextual : list SerializedElement) (s : Instance) :
  calculateContextualRelevance el contextual s
  = mkOutcome (inr (contextualRelevance el contextual)) s
              [Call CalculateContextualRelevance el].
Proof. reflexivity. Qed.

Lemma calculateComprehensiveSimilarity_hit (el : SerializedElement)
    (s : Instance) (cached : Q) :
  similarityCache s !! cacheKey originalSelector (identifierOf el) = Some cached ->
  calculateComprehensiveSimilarity originalSelector el s
  = mkOutcome (inr cached)
              (setDebugElementCount (S (debugElementCount s)) s)
              [Call CalculateComprehensiveSimilarity el;
               Call GetElementIdentifier el].
Proof.
  intros H. unfold calculateComprehensiveSimilarity, bind. cbn.
  rewrite H. reflexivity.
Qed.

Lemma calculateComprehensiveSimilarity_miss (el : SerializedElement)
    (s : Instance) :
  similarityCache s !! cacheKey originalSelector (identifierOf el) = None ->
  calculateComprehensiveSimilarity originalSelector el s
  = mkOutcome (inr (universalScore (config s) originalSelector el))
              (mkInstance (config s) (domCache s)
                 (<[cacheKey originalSelector (identifierOf el)
                    := rawScore (config s) originalSelector el]> (similarityCache s))
                 (S (S (debugElementCount s))))
              [Call CalculateComprehensiveSimilarity el;
               Call GetElementIdentifier el;
               Call CalculateSemanticSimilarity el;
               Call GetElementIdentifier el;
               Call CalculateStructuralSimilarity el].
Proof.
  intros H. unfold calculateComprehensiveSimilarity, bind. cbn.
  rewrite H. reflexivity.
Qed.

End Methods.

(** ** The scoring loops *)

Section Loops.

Variable originalSelector : string.

Local Opaque Qltb Qle_bool calculateLevenshteinSimilarity semanticScore
  structuralScore typeBonus attributeBonus identifierOf optimalSelector
  universalScore rawScore contextualRelevance Qmin Qplus Qmult.

Lemma bind_outcome {A B} (m : M A) (f : A -> M B) (s s1 : Instance)
    (a : A) (ev1 : list Event) :
  m s = mkOutcome (inr a) s1 ev1 ->
  bind m f s
  = mkOutcome (result (f a s1)) (final (f a s1)) (ev1 ++ events (f a s1)).
Proof. intros H. unfold bind. rewrite H. reflexivity. Qed.

(** The events logged before the rest of a loop runs. *)
Ltac log_prefix l :=
  lazymatch l with
  | ?x :: ?l' => let p := log_prefix l' in constr:(x :: p)
  | _ => constr:(@nil Event)
  end.

(** Supplies the instance, the log and the loop variables with which the
    rest of the loop is entered. *)
Ltac split_step :=
  lazymatch goal with
  | |- exists s1 ev1 bm bs,
      {| result := _; final := _; events := ?evs |} = _ /\ _ =>
      lazymatch evs with
      | context [events (universalLoop _ _ ?bm' ?bs' _ ?s1')] =>
          let pre := log_prefix evs in exists s1', pre, bm', bs'
      | context [events (advancedLoop _ _ _ ?bm' ?bs' ?s1')] =>
          let pre := log_prefix evs in exists s1', pre, bm', bs'
      end
  end.

(** One turn of the loop of the universal strategy: the snapshot is
    scored once, and the best match is kept or replaced by it. *)
Lemma universalLoop_step (el : SerializedElement)
    (rest : list SerializedElement) (bestMatch : option SerializedElement)
    (bestScore : Q) (elementCount : nat) (s : Instance) :
  exists s1 ev1 bestMatch' bestScore',
    universalLoop originalSelector (el :: rest) bestMatch bestScore
                  elementCount s
    = (let o := universalLoop originalSelector rest bestMatch' bestScore'
                              (S elementCount) s1 in
       mkOutcome (result o) (final o) (ev1 ++ events o))
    /\ config s1 = config s
    /\ callsOf CalculateComprehensiveSimilarity ev1 = [el]
    /\ snapshotsIn (eq el) ev1
    /\ noPageCall ev1
    /\ (bestMatch' = bestMatch \/ bestMatch' = Some el).
Proof.
  cbn [universalLoop].
  destruct (similarityCache s !! cacheKey originalSelector (identifierOf el))
    as [cached|] eqn:Hcache.
  - rewrite (bind_outcome _ _ _ _ _ _
               (calculateComprehensiveSimilarity_hit _ _ _ _ Hcache)).
    unfold bind, getConfig, get, ret, when. cbn.
    repeat (match goal with
            | |- context [if ?b then _ else _] => destruct b
            end; cbn);
      (split_step; split; [reflexivity|];
       split; [reflexivity|]; split; [reflexivity|];
       split; [intros m e Hin; cbn in Hin; intuition congruence|];
       split; [intros ev Hin; cbn in Hin; intuition (subst; exact I)|];
       auto).
  - rewrite (bind_outcome _ _ _ _ _ _
               (calculateComprehensiveSimilarity_miss _ _ _ Hcache)).
    unfold bind, getConfig, get, ret, when. cbn.
    repeat (match goal with
            | |- context [if ?b then _ else _] => destruct b
            end; cbn);
      (split_step; split; [reflexivity|];
       split; [reflexivity|]; split; [reflexivity|];
       split; [intros m e Hin; cbn in Hin; intuition congruence|];
       split; [intros ev Hin; cbn in Hin; intuition (subst; exact I)|];
       auto).
Qed.

Lemma noPageCall_app (l1 l2 : list Event) :
  noPageCall l1 -> noPageCall l2 -> noPageCall (l1 ++ l2)%list.
Proof.
  unfold noPageCall. intros H1 H2 ev Hin.
  apply in_app_or in Hin as [Hin|Hin]; [now apply H1 | now apply H2].
Qed.

(** The loop of the universal strategy never throws, hands each candidate
    to the composite score once and in order, touches no other snapshot
    and makes no call on the page. *)
Lemma universalLoop_spec (cands : list SerializedElement) :
  forall (bestMatch : option SerializedElement) (bestScore : Q)
         (elementCount : nat) (s : Instance),
    let o := universalLoop originalSelector cands bestMatch bestScore
                           elementCount s in
    (exists v, result o = inr v /\ keptOrFrom cands bestMatch (fst v))
    /\ callsOf CalculateComprehensiveSimilarity (events o) = cands
    /\ snapshotsIn (fun el => In el cands) (events o)
    /\ noPageCall (events o)
    /\ config (final o) = config s.
Proof.
  induction cands as [|el rest IH]; intros bestMatch bestScore elementCount s.
  - cbn. repeat split.
    + eexists. split; [reflexivity|]. now left.
    + intros m e [].
    + intros ev [].
  - destruct (universalLoop_step el rest bestMatch bestScore elementCount s)
      as (s1 & ev1 & bm' & bs' & -> & Hcfg & Hcalls & Hsnap & Hpage & Hbm).
    specialize (IH bm' bs' (S elementCount) s1).
    cbv zeta in IH |- *. cbn [result final events].
    destruct IH as ((v & Hv & Hkept) & IHcalls & IHsnap & IHpage & IHcfg).
    repeat split.
    + exists v. split; [exact Hv|].
      destruct Hkept as [-> | (e & -> & Hin)].
      * destruct Hbm as [-> | ->]; [now left|].
        right. exists el. split; [reflexivity | now left].
      * right. exists e. split; [reflexivity | now right].
    + rewrite callsOf_app, Hcalls, IHcalls. reflexivity.
    + apply snapshotsIn_app.
      * eapply snapshotsIn_weaken; [|exact Hsnap]. intros e <-. now left.
      * eapply snapshotsIn_weaken; [|exact IHsnap]. intros e He. now right.
    + now apply noPageCall_app.
    + congruence.
Qed.

Lemma advancedLoop_step (contextual : list SerializedElement)
    (el : SerializedElement) (rest : list SerializedElement)
    (bestMatch : option SerializedElement) (bestScore : Q) (s : Instance) :
  exists s1 ev1 bestMatch' bestScore',
    advancedLoop originalSelector contextual (el :: rest) bestMatch bestScore s
    = (let o := advancedLoop originalSelector contextual rest
                             bestMatch' bestScore' s1 in
       mkOutcome (result o) (final o) (ev1 ++ events o))
    /\ config s1 = config s
    /\ callsOf CalculatePatternSimilarity ev1 = [el]
    /\ snapshotsIn (eq el) ev1
    /\ noPageCall ev1
    /\ (bestMatch' = bestMatch \/ bestMatch' = Some el).
Proof.
  cbn [advancedLoop].
  rewrite (bind_outcome _ _ _ _ _ _
             (calculatePatternSimilarity_outcome _ _ _ _)).
  rewrite (bind_outcome _ _ _ _ _ _
             (calculateContextualRelevance_outcome _ _ _)).
  unfold bind, getConfig, get, ret. cbn.
  repeat (match goal with
          | |- context [if ?b then _ else _] => destruct b
          end; cbn);
    (split_step; split; [reflexivity|];
     split; [reflexivity|]; split; [reflexivity|];
     split; [intros m e Hin; cbn in Hin; intuition congruence|];
     split; [intros ev Hin; cbn in Hin; intuition (subst; exact I)|];
     auto).
Qed.

Lemma advancedLoop_spec (contextual cands : list SerializedElement) :
  forall (bestMatch : option SerializedElement) (bestScore : Q)
         (s : Instance),
    let o := advancedLoop originalSelector contextual cands bestMatch
                          bestScore s in
    (exists v, result o = inr v /\ keptOrFrom cands bestMatch (fst v))
    /\ callsOf CalculatePatternSimilarity (events o) = cands
    /\ snapshotsIn (fun el => In el cands) (events o)
    /\ noPageCall (events o)
    /\ config (final o) = config s.
Proof.
  induction cands as [|el rest IH]; intros bestMatch bestScore s.
  - cbn. repeat split.
    + eexists. split; [reflexivity|]. now left.
    + intros m e [].
    + intros ev [].
  - destruct (advancedLoop_step contextual el rest bestMatch bestScore s)
      as (s1 & ev1 & bm' & bs' & -> & Hcfg & Hcalls & Hsnap & Hpage & Hbm).
    specialize (IH bm' bs' s1).
    cbv zeta in IH |- *. cbn [result final events].
    destruct IH as ((v & Hv & Hkept) & IHcalls & IHsnap & IHpage & IHcfg).
    repeat split.
    + exists v. split; [exact Hv|].
      destruct Hkept as [-> | (e & -> & Hin)].
      * destruct Hbm as [-> | ->]; [now left|].
        right. exists el. split; [reflexivity | now left].
      * right. exists e. split; [reflexivity | now right].
    + rewrite callsOf_app, Hcalls, IHcalls. reflexivity.
    + apply snapshotsIn_app.
      * eapply snapshotsIn_weaken; [|exact Hsnap]. intros e <-. now left.
      * eapply snapshotsIn_weaken; [|exact IHsnap]. intros e He. now right.
    + now apply noPageCall_app.
    + congruence.
Qed.

Variable page : PlaywrightPage.

Lemma heal_outcome (el : SerializedElement) (s : Instance) :
  heal page el s
  = mkOutcome (inr (Some (Locator (pageId page) (optimalSelector el)))) s
              [Call GenerateOptimalSelector el;
               PageLocator (pageId page) (optimalSelector el)].
Proof. reflexivity. Qed.

(** The loop of the simple strategy never throws and identifies the
    candidates in order, up to the first that meets the threshold. *)
Lemma simpleLoop_spec (cands : list SerializedElement) :
  forall s : Instance,
    let o := simpleLoop page originalSelector cands s in
    (exists v, result o = inr v)
    /\ (exists k, callsOf GetElementIdentifier (events o) = firstn k cands)
    /\ snapshotsIn (fun el => In el cands) (events o)
    /\ config (final o) = config s.
Proof.
  induction cands as [|el rest IH]; intros s.
  - cbn. repeat split; eauto.
    + now exists 0%nat.
    + intros m e [].
  - cbn [simpleLoop].
    rewrite (bind_outcome _ _ _ _ _ _ (getElementIdentifier_outcome _ _)).
    unfold bind, getConfig, get, ret. cbn.
    match goal with
    | |- context [if ?b then _ else _] => destruct b
    end.
    + rewrite heal_outcome. cbn. repeat split; eauto.
      * now exists 1%nat.
      * intros m e Hin. cbn in Hin. left. intuition congruence.
    + specialize (IH (setDebugElementCount (S (debugElementCount s)) s)).
      cbv zeta in IH. destruct IH as (Hv & (k & Hk) & Hsnap & Hcfg).
      cbn [result final events app]. repeat split.
      * exact Hv.
      * exists (S k). rewrite callsOf_cons, Hk. reflexivity.
      * intros m e [Hin|Hin]; [left; congruence | right; eauto].
      * exact Hcfg.
Qed.

(** The loop of the complex strategy never throws, hands each candidate to
    the semantic score once and in order, and collects candidates only. *)
Lemma complexLoop_spec (els : list SerializedElement) :
  forall (candidates : list MatchCandidate) (s : Instance),
    let o := complexLoop originalSelector els candidates s in
    (exists v, result o = inr v
               /\ forall c, In c v -> In c candidates \/ In (element c) els)
    /\ callsOf CalculateSemanticSimilarity (events o) = els
    /\ snapshotsIn (fun el => In el els) (events o)
    /\ noPageCall (events o)
    /\ config (final o) = config s.
Proof.
  induction els as [|el rest IH]; intros candidates s.
  - cbn. repeat split.
    + eexists. split; [reflexivity|]. now left.
    + intros m e [].
    + intros ev [].
  - cbn [complexLoop].
    rewrite (bind_outcome _ _ _ _ _ _
               (calculateSemanticSimilarity_outcome _ _ _)).
    rewrite (bind_outcome _ _ _ _ _ _
               (calculateStructuralSimilarity_outcome _ _ _)).
    unfold bind, getConfig, get, ret. cbn.
    match goal with
    | |- context [if ?b then _ else _] => destruct b
    end;
      match goal with
      | |- context [complexLoop _ _ ?c ?s1] => specialize (IH c s1)
      end;
      cbv zeta in IH;
      destruct IH as ((v & Hv & Hfrom) & Hcalls & Hsnap & Hpage & Hcfg);
      cbn; (repeat split;
        [ exists v; split; [exact Hv|]; intros c Hc;
          destruct (Hfrom c Hc) as [Hin|Hin];
          [ try (apply in_app_or in Hin as [Hin|[<-|[]]]); auto
          | auto ]
        | rewrite !callsOf_cons, Hcalls; reflexivity
        | intros m e [Hin|[Hin|[Hin|Hin]]];
          [left; congruence | left; congruence | left; congruence
          | right; eauto]
        | intros ev [<-|[<-|[<-|Hin]]]; try exact I; now apply Hpage
        | exact Hcfg ]).
Qed.

End Loops.

(** ** The snapshot provider and the fast path *)

Section Provider.

Variables (now : Z) (page : PlaywrightPage).

Lemma tryOriginal_outcome (originalSelector : string) (s : Instance) :
  tryOriginal page originalSelector s
  = mkOutcome
      (inr (if waitForOk page originalSelector
            then Some (Locator (pageId page) originalSelector) else None))
      s
      [PageLocator (pageId page) originalSelector;
       LocatorWaitFor (pageId page) originalSelector].
Proof.
  unfold tryOriginal, tryCatch, bind, emit, ret, throw. cbn.
  destruct (waitForOk page originalSelector); reflexivity.
Qed.

Lemma bind_throw {A B} (m : M A) (f : A -> M B) (s s1 : Instance)
    (e : Exn) (ev1 : list Event) :
  m s = mkOutcome (inl e) s1 ev1 -> bind m f s = mkOutcome (inl e) s1 ev1.
Proof. intros H. unfold bind. rewrite H. reflexivity. Qed.

(** [getAllPageElements] either rejects with the rejection of the host,
    leaving the instance as it was, or yields the snapshots; it changes
    the snapshot cache only, and hands no snapshot to any method. *)
Lemma getAllPageElements_cases (s : Instance) :
  (getAllPageElements now page s
   = mkOutcome (inl HostRejection) s [PageEvaluate (pageId page)])
  \/ exists allElements s1 ev,
       getAllPageElements now page s = mkOutcome (inr allElements) s1 ev
       /\ config s1 = config s
       /\ similarityCache s1 = similarityCache s
       /\ (ev = [] \/ ev = [PageEvaluate (pageId page)]).
Proof.
  unfold getAllPageElements, bind, get, modify, put, emit, ret, throw. cbn.
  destruct (domCache s !! pageId page) as [cached|];
    [destruct (Qltb _ _); [right; eexists _, _, _; eauto 6|]|];
    (destruct (evaluateElements page); cbn;
     [right; eexists _, _, _; eauto 6 | now left]).
Qed.

Lemma truncate_nonneg (q : Q) : 0 <= q -> (0 <= truncate q)%Z.
Proof.
  unfold Qle, truncate. cbn. intros H.
  apply Z.quot_pos; lia.
Qed.

(** For a bound that is not negative, [slice(0, bound)] is the first
    [bound] entries, the bound truncated to an integer. *)
Lemma slice0_firstn {A} (l : list A) (q : Q) :
  0 <= q -> slice0 l q = firstn (Z.to_nat (truncate q)) l.
Proof.
  intros Hq. apply truncate_nonneg in Hq. unfold slice0.
  destruct (Z.ltb_spec (truncate q) 0); [lia|].
  destruct (Z.le_ge_cases (truncate q) (Z.of_nat (List.length l))) as [Hle|Hge].
  - now rewrite Z.min_l.
  - rewrite Z.min_r, Nat2Z.id by exact Hge.
    rewrite !firstn_all2; [reflexivity | lia | lia].
Qed.

End Provider.

(** ** The four strategies *)

Section Strategies.

Variables (now : Z) (page : PlaywrightPage) (originalSelector : string).

Local Opaque Qltb Qle_bool calculateLevenshteinSimilarity semanticScore
  structuralScore typeBonus attributeBonus identifierOf optimalSelector
  universalScore rawScore contextualRelevance Qmin Qplus Qmult
  universalLoop simpleLoop complexLoop advancedLoop.

Lemma getConfig_outcome (s : Instance) :
  getConfig s = mkOutcome (inr (config s)) s [].
Proof. reflexivity. Qed.

Lemma snapshotsIn_host P (l : list Event) :
  (forall ev, In ev l -> match ev with Call _ _ => False | _ => True end) ->
  snapshotsIn P l.
Proof. intros H m el Hin. destruct (H _ Hin). Qed.

Lemma shape_fast_path (strategy : Strategy) (s : Instance) v :
  strategyShape now page strategy s
    (mkOutcome (inr v) s
       [PageLocator (pageId page) originalSelector;
        LocatorWaitFor (pageId page) originalSelector]).
Proof.
  split; [right; eauto|]. split.
  - intros m e Hin. cbn in Hin. intuition discriminate.
  - exists 0%nat. reflexivity.
Qed.

Lemma shape_rejected (strategy : Strategy) (s : Instance) :
  strategyShape now page strategy s
    (mkOutcome (inl HostRejection) s
       ([PageLocator (pageId page) originalSelector;
         LocatorWaitFor (pageId page) originalSelector]
        ++ [PageEvaluate (pageId page)])).
Proof.
  split; [now left|]. split.
  - intros m e Hin. cbn in Hin. intuition discriminate.
  - exists 0%nat. reflexivity.
Qed.

Lemma callsOf_extraction m (ev : list Event) :
  ev = [] \/ ev = [PageEvaluate (pageId page)] -> callsOf m ev = [].
Proof. intros [-> | ->]; reflexivity. Qed.

Lemma snapshotsIn_extraction P (ev : list Event) :
  ev = [] \/ ev = [PageEvaluate (pageId page)] -> snapshotsIn P ev.
Proof.
  intros [-> | ->] m el Hin; cbn in Hin; intuition discriminate.
Qed.

Lemma findElementUniversal_valid (s : Instance) :
  isValidSelector originalSelector = true ->
  strategyShape now page Universal s
    (findElementUniversal now page originalSelector s).
Proof.
  intros Hvalid. unfold findElementUniversal. rewrite Hvalid. cbn [negb].
  rewrite (bind_outcome _ _ _ _ _ _ (tryOriginal_outcome _ _ _)).
  destruct (waitForOk page originalSelector); [apply shape_fast_path|].
  destruct (getAllPageElements_cases now page s)
    as [Hrej | (allElements & s1 & ev & Hget & Hcfg & _ & Hev)].
  { rewrite (bind_throw _ _ _ _ _ _ Hrej). apply shape_rejected. }
  unfold strategyShape, snapshotsOf. cbn [leadScorer].
  rewrite (bind_outcome _ _ _ _ _ _ Hget), Hget.
  rewrite (bind_outcome _ _ _ _ _ _ (getConfig_outcome _)).
  cbn [result final events]. rewrite Hcfg.
  set (cands := slice0 allElements (maxElementsToAnalyze (config s))).
  pose proof (universalLoop_spec originalSelector cands None 0 0%nat s1)
    as Hloop. cbv zeta in Hloop.
  destruct (universalLoop originalSelector cands None 0 0%nat s1)
    as [r s2 evl] eqn:Hrun.
  cbn [result final events] in Hloop.
  destruct Hloop as (([bm bs] & -> & Hkept) & Hcalls & Hsnap & _ & _).
  rewrite (bind_outcome _ _ _ _ _ _ Hrun). cbn [fst] in *.
  destruct bm as [bm|]; [rewrite heal_outcome|]; cbn [result final events].
  - destruct Hkept as [? | (e & [= <-] & Hin)]; [discriminate|].
    split; [right; eauto|]. split.
    + repeat apply snapshotsIn_app;
        try (intros m e Hm; cbn in Hm; intuition congruence).
      * now apply snapshotsIn_extraction.
      * exact Hsnap.
    + exists (List.length cands).
      rewrite !callsOf_app, Hcalls, (callsOf_extraction _ ev Hev).
      cbn. now rewrite app_nil_r, firstn_all.
  - split; [right; eauto|]. split.
    + repeat apply snapshotsIn_app;
        try (intros m e Hm; cbn in Hm; intuition congruence).
      * now apply snapshotsIn_extraction.
      * exact Hsnap.
    + exists (List.length cands).
      rewrite !callsOf_app, Hcalls, (callsOf_extraction _ ev Hev).
      cbn. now rewrite app_nil_r, firstn_all.
Qed.

Lemma findElementSimple_valid (s : Instance) :
  isValidSelector originalSelector = true ->
  strategyShape now page Simple s
    (findElementSimple now page originalSelector s).
Proof.
  intros Hvalid. unfold findElementSimple. rewrite Hvalid. cbn [negb].
  rewrite (bind_outcome _ _ _ _ _ _ (tryOriginal_outcome _ _ _)).
  destruct (waitForOk page originalSelector); [apply shape_fast_path|].
  destruct (getAllPageElements_cases now page s)
    as [Hrej | (allElements & s1 & ev & Hget & Hcfg & _ & Hev)].
  { rewrite (bind_throw _ _ _ _ _ _ Hrej). apply shape_rejected. }
  unfold strategyShape, snapshotsOf. cbn [leadScorer].
  rewrite (bind_outcome _ _ _ _ _ _ Hget), Hget.
  rewrite (bind_outcome _ _ _ _ _ _ (getConfig_outcome _)).
  cbn [result final events]. rewrite Hcfg.
  set (cands := slice0 allElements (maxElementsToAnalyze (config s))).
  destruct (simpleLoop_spec originalSelector page cands s1)
    as (Hv & (k & Hk) & Hsnap & _).
  split; [now right|]. split.
  - repeat apply snapshotsIn_app;
      try (intros m e Hm; cbn in Hm; intuition congruence).
    + now apply snapshotsIn_extraction.
    + exact Hsnap.
  - exists k.
    rewrite !callsOf_app, Hk, (callsOf_extraction _ ev Hev). reflexivity.
Qed.

Lemma insertCandidate_In (a c : MatchCandidate) (l : list MatchCandidate) :
  In c (insertCandidate a l) -> c = a \/ In c l.
Proof.
  induction l as [|b l IH]; cbn.
  - intuition.
  - destruct (Qle_bool _ _); cbn; intuition.
Qed.

Lemma sortCandidates_In (c : MatchCandidate) (l : list MatchCandidate) :
  In c (sortCandidates l) -> In c l.
Proof.
  induction l as [|a l IH]; cbn; [tauto|].
  intros H. apply insertCandidate_In in H. intuition.
Qed.

Lemma findElementComplex_valid (s : Instance) :
  isValidSelector originalSelector = true ->
  strategyShape now page Complex s
    (findElementComplex now page originalSelector s).
Proof.
  intros Hvalid. unfold findElementComplex. rewrite Hvalid. cbn [negb].
  rewrite (bind_outcome _ _ _ _ _ _ (tryOriginal_outcome _ _ _)).
  destruct (waitForOk page originalSelector); [apply shape_fast_path|].
  destruct (getAllPageElements_cases now page s)
    as [Hrej | (allElements & s1 & ev & Hget & Hcfg & _ & Hev)].
  { rewrite (bind_throw _ _ _ _ _ _ Hrej). apply shape_rejected. }
  unfold strategyShape, snapshotsOf. cbn [leadScorer].
  rewrite (bind_outcome _ _ _ _ _ _ Hget), Hget.
  rewrite (bind_outcome _ _ _ _ _ _ (getConfig_outcome _)).
  cbn [result final events]. rewrite Hcfg.
  set (cands := slice0 allElements (maxElementsToAnalyze (config s))).
  pose proof (complexLoop_spec originalSelector cands [] s1) as Hloop.
  cbv zeta in Hloop.
  destruct (complexLoop originalSelector cands [] s1)
    as [r s2 evl] eqn:Hrun.
  cbn [result final events] in Hloop.
  destruct Hloop as ((v & -> & Hfrom) & Hcalls & Hsnap & _ & _).
  rewrite (bind_outcome _ _ _ _ _ _ Hrun).
  destruct (sortCandidates v) as [|best sorted] eqn:Hsort;
    [|rewrite heal_outcome]; cbn [result final events].
  - split; [right; eauto|]. split.
    + repeat apply snapshotsIn_app;
        try (intros m e Hm; cbn in Hm; intuition congruence).
      * now apply snapshotsIn_extraction.
      * exact Hsnap.
    + exists (List.length cands).
      rewrite !callsOf_app, Hcalls, (callsOf_extraction _ ev Hev).
      cbn. now rewrite app_nil_r, firstn_all.
  - assert (In (element best) cands) as Hbest.
    { destruct (Hfrom best) as [[]|Hin]; [|exact Hin].
      apply sortCandidates_In. rewrite Hsort. now left. }
    split; [right; eauto|]. split.
    + repeat apply snapshotsIn_app;
        try (intros m e Hm; cbn in Hm; intuition congruence).
      * now apply snapshotsIn_extraction.
      * exact Hsnap.
    + exists (List.length cands).
      rewrite !callsOf_app, Hcalls, (callsOf_extraction _ ev Hev).
      cbn. now rewrite app_nil_r, firstn_all.
Qed.

Lemma getContextualElements_outcome (s : Instance) :
  exists contextual,
    getContextualElements page originalSelector s
    = mkOutcome (inr contextual) s [PageEvaluate (pageId page)].
Proof.
  unfold getContextualElements, tryCatch, bind, emit, ret, throw. cbn.
  destruct (evaluateContext page originalSelector); cbn; eauto.
Qed.

Lemma findElementAdvanced_valid (s : Instance) :
  isValidSelector originalSelector = true ->
  strategyShape now page Advanced s
    (findElementAdvanced now page originalSelector s).
Proof.
  intros Hvalid. unfold findElementAdvanced. rewrite Hvalid. cbn [negb].
  rewrite (bind_outcome _ _ _ _ _ _ (tryOriginal_outcome _ _ _)).
  destruct (waitForOk page originalSelector); [apply shape_fast_path|].
  destruct (getAllPageElements_cases now page s)
    as [Hrej | (allElements & s1 & ev & Hget & Hcfg & _ & Hev)].
  { rewrite (bind_throw _ _ _ _ _ _ Hrej). apply shape_rejected. }
  unfold strategyShape, snapshotsOf. cbn [leadScorer].
  rewrite (bind_outcome _ _ _ _ _ _ Hget), Hget.
  destruct (getContextualElements_outcome s1) as (contextual & Hctx).
  rewrite (bind_outcome _ _ _ _ _ _ Hctx).
  rewrite (bind_outcome _ _ _ _ _ _ (getConfig_outcome _)).
  cbn [result final events]. rewrite Hcfg.
  set (cands := slice0 allElements (maxElementsToAnalyze (config s))).
  pose proof (advancedLoop_spec originalSelector contextual cands None 0 s1)
    as Hloop. cbv zeta in Hloop.
  destruct (advancedLoop originalSelector contextual cands None 0 s1)
    as [r s2 evl] eqn:Hrun.
  cbn [result final events] in Hloop.
  destruct Hloop as (([bm bs] & -> & Hkept) & Hcalls & Hsnap & _ & _).
  rewrite (bind_outcome _ _ _ _ _ _ Hrun). cbn [fst] in *.
  destruct bm as [bm|]; [rewrite heal_outcome|]; cbn [result final events].
  - destruct Hkept as [? | (e & [= <-] & Hin)]; [discriminate|].
    split; [right; eauto|]. split.
    + repeat apply snapshotsIn_app;
        try (intros m e Hm; cbn in Hm; intuition congruence).
      * now apply snapshotsIn_extraction.
      * exact Hsnap.
    + exists (List.length cands).
      rewrite !callsOf_app, Hcalls, (callsOf_extraction _ ev Hev).
      cbn. now rewrite app_nil_r, firstn_all.
  - split; [right; eauto|]. split.
    + repeat apply snapshotsIn_app;
        try (intros m e Hm; cbn in Hm; intuition congruence).
      * now apply snapshotsIn_extraction.
      * exact Hsnap.
    + exists (List.length cands).
      rewrite !callsOf_app, Hcalls, (callsOf_extraction _ ev Hev).
      cbn. now rewrite app_nil_r, firstn_all.
Qed.

(** Every strategy refuses a selector that fails the validation before
    anything else happens, and has the shape above on any other. *)
Lemma findElement_cases (strategy : Strategy) (s : Instance) :
  let o := findElement strategy now page originalSelector s in
  (isValidSelector originalSelector = false ->
   o = mkOutcome (inl invalidSelector) s [])
  /\ (isValidSelector originalSelector = true ->
      strategyShape now page strategy s o).
Proof.
  split.
  - intros H.
    destruct strategy; cbn [findElement];
      unfold findElementUniversal, findElementSimple, findElementComplex,
        findElementAdvanced; rewrite H; reflexivity.
  - intros H. destruct strategy; cbn [findElement].
    + now apply findElementUniversal_valid.
    + now apply findElementSimple_valid.
    + now apply findElementComplex_valid.
    + now apply findElementAdvanced_valid.
Qed.

End Strategies.

(** ** Validation comes first; analysis is bounded *)

Section Orchestrator.

(** C3: each of the four public operations fails with the invalid-selector
    error exactly when the selector is empty, longer than 1000 characters
    or matches a pattern of the denylist case-insensitively; when it does,
    nothing was asked of the page and the instance is untouched.  The two
    script selectors are rejected and the test-id selector is accepted. *)
Theorem invalid_selector_rejected_first :
  (forall (strategy : Strategy) (now : Z) (page : PlaywrightPage)
          (selector : string) (s : Instance),
      let o := findElement strategy now page selector s in
      (result o = inl invalidSelector <-> rejectedSelector selector)
      /\ (rejectedSelector selector -> final o = s /\ events o = []))
  /\ rejectedSelector "javascript:alert(1)"
  /\ rejectedSelector "<script>x</script>"
  /\ ~ rejectedSelector ("[data-testid=" ++ Js.quoted "login" ++ "]").
Proof.
  split; [|split; [|split]].
  - intros strategy now page selector s o.
    destruct (findElement_cases now page selector strategy s)
      as (Hbad & Hgood). fold o in Hbad, Hgood.
    rewrite <- isValidSelector_spec.
    destruct (isValidSelector selector).
    + unfold invalidSelector.
      destruct (Hgood eq_refl) as ([Hr | (v & Hr)] & _); rewrite Hr;
        (split; [split; discriminate | discriminate]).
    + rewrite (Hbad eq_refl). cbn. tauto.
  - apply isValidSelector_spec. reflexivity.
  - apply isValidSelector_spec. reflexivity.
  - rewrite <- isValidSelector_spec. discriminate.
Qed.

Lemma invalid_selector_rejected_first_witness :
  rejectedSelector "javascript:alert(1)"
  /\ result (findElementUniversal 0 syntheticPage "javascript:alert(1)"
                                  defaultInstance)
     = inl (Error "Invalid selector provided")
  /\ events (findElementUniversal 0 syntheticPage "javascript:alert(1)"
                                  defaultInstance) = [].
Proof.
  destruct invalid_selector_rejected_first as (H & Hjs & _).
  destruct (H Universal 0%Z syntheticPage "javascript:alert(1)"
              defaultInstance) as (Hiff & Hfirst).
  split; [exact Hjs|]. split.
  - apply Hiff. exact Hjs.
  - apply Hfirst. exact Hjs.
Defined.

(** C8: whatever the strategy, every snapshot handed to a method is among
    the first [maxElementsToAnalyze] snapshots of the page, and the lead
    scorer receives a prefix of them, in document order.  With the bound
    10 on the page of 100 snapshots the lead scorer of every strategy
    receives the snapshots 1 to 10 and none of the snapshots 11 to 100
    reaches any method. *)
Theorem only_first_candidates_are_scored :
  (forall (strategy : Strategy) (now : Z) (page : PlaywrightPage)
          (selector : string) (s : Instance),
      0 <= maxElementsToAnalyze (config s) ->
      let o := findElement strategy now page selector s in
      let n := Z.to_nat (truncate (maxElementsToAnalyze (config s))) in
      snapshotsIn (fun el => In el (firstn n (snapshotsOf now page s)))
                  (events o)
      /\ exists k, (k <= n)%nat
                   /\ callsOf (leadScorer strategy) (events o)
                      = firstn k (snapshotsOf now page s))
  /\ (forall strategy : Strategy,
        let o := findElement strategy 0 syntheticPage "#checkout" tenInstance in
        callsOf (leadScorer strategy) (events o) = firstn 10 syntheticSnapshots
        /\ noneOf (skipn 10 syntheticSnapshots) (events o) = true).
Proof.
  split.
  - intros strategy now page selector s Hmax o n.
    destruct (findElement_cases now page selector strategy s)
      as (Hbad & Hgood). fold o in Hbad, Hgood.
    destruct (isValidSelector selector).
    + destruct (Hgood eq_refl) as (_ & Hsnap & (k & Hk)).
      rewrite slice0_firstn in Hsnap, Hk by exact Hmax. fold n in Hsnap, Hk.
      split; [exact Hsnap|].
      exists (Nat.min k n). split; [lia|].
      rewrite Hk. apply firstn_firstn.
    + rewrite (Hbad eq_refl). cbn. split.
      * intros m el [].
      * exists 0%nat. split; [lia | reflexivity].
  - intros []; vm_compute; split; reflexivity.
Qed.

Lemma only_first_candidates_are_scored_witness :
  0 <= maxElementsToAnalyze (config tenInstance)
  /\ forall strategy : Strategy,
       snapshotsIn (fun el => In el (firstn 10 syntheticSnapshots))
         (events (findElement strategy 0 syntheticPage "#checkout" tenInstance)).
Proof.
  assert (0 <= maxElementsToAnalyze (config tenInstance)) as Hmax
    by (vm_compute; discriminate).
  split; [exact Hmax|].
  intros strategy.
  exact (proj1 (proj1 only_first_candidates_are_scored strategy 0%Z
                  syntheticPage "#checkout" tenInstance Hmax)).
Defined.

End Orchestrator.

(** ** Selector synthesis *)

Section Synthesis.

Lemma includes_cons (c sep : ascii) (p : string) :
  Js.includes (String c p) (String sep EmptyString)
  = Ascii.eqb sep c || Js.includes p (String sep EmptyString).
Proof. cbn [Js.includes Js.startsWith]. now rewrite andb_true_r. Qed.

Lemma split_head (s : string) : hd EmptyString (Js.split " " s) = takeToken s.
Proof.
  induction s as [|c s IH]; [reflexivity|]. cbn [Js.split takeToken].
  destruct (Ascii.eqb c " "); [reflexivity|].
  destruct (Js.split " " s); cbn [hd] in *; now rewrite <- IH.
Qed.

Lemma split_pieces (s : string) :
  Forall (fun piece => Js.includes piece " " = false) (Js.split " " s).
Proof.
  induction s as [|c s IH]; cbn [Js.split].
  - repeat constructor.
  - destruct (Ascii.eqb c " ") eqn:Hc.
    + constructor; [reflexivity | exact IH].
    + rewrite Ascii.eqb_sym in Hc.
      destruct (Js.split " " s) as [|piece pieces].
      * constructor; [|constructor].
        rewrite includes_cons, Hc. reflexivity.
      * inversion IH as [|? ? Hpiece Hpieces]; subst.
        constructor; [|exact Hpieces].
        rewrite includes_cons, Hc. exact Hpiece.
Qed.

(** The first piece of the class string that is not empty is the first
    class token. *)
Lemma classes_head (s : string) :
  hd_error (List.filter (fun c => Js.truthy c && negb (Js.includes c " "))
                        (Js.split " " s))
  = firstClassToken s.
Proof.
  induction s as [|c s IH]; [reflexivity|]. cbn [Js.split firstClassToken].
  destruct (Ascii.eqb c " ") eqn:Hc; [exact IH|].
  pose proof (split_head s) as Hhd. pose proof (split_pieces s) as Hps.
  cbn [takeToken]. rewrite Hc. rewrite Ascii.eqb_sym in Hc.
  destruct (Js.split " " s) as [|piece pieces]; cbn [hd] in Hhd;
    cbn [List.filter Js.truthy andb]; rewrite includes_cons, Hc.
  - cbn. now rewrite <- Hhd.
  - inversion Hps as [|? ? Hpiece _]; subst.
    rewrite Hpiece. reflexivity.
Qed.

Lemma present_truthy (s : string) : present s = Js.truthy s.
Proof. destruct s; reflexivity. Qed.

Lemma optimalSelector_rules (el : SerializedElement) :
  firstApplicable synthesisRules el = Some (optimalSelector el).
Proof.
  unfold optimalSelector. cbn [firstApplicable synthesisRules].
  unfold ruleId, ruleAnchorText, ruleName, ruleInputType, rulePlaceholder,
    ruleRole, ruleClass, ruleTag, ruleFallback.
  rewrite !present_truthy.
  destruct (Js.truthy (id el)); [reflexivity|].
  assert (String.eqb (tagName el) "a" && Js.truthy (textContent el)
          && Nat.ltb 0 (String.length (Js.trim (textContent el)))
          && Nat.ltb (String.length (Js.trim (textContent el))) 50
          = String.eqb (tagName el) "a"
            && Js.truthy (Js.trim (textContent el))
            && Nat.ltb (String.length (Js.trim (textContent el))) 50)
    as ->.
  { f_equal. rewrite <- andb_assoc. f_equal.
    destruct (textContent el); [reflexivity|].
    destruct (Js.trim _); reflexivity. }
  destruct (String.eqb (tagName el) "a" && _ && _); [reflexivity|].
  destruct (Js.truthy (name el)); [reflexivity|].
  rewrite (andb_comm (Js.truthy (type el))).
  destruct (String.eqb (tagName el) "input" && _); [reflexivity|].
  destruct (Js.truthy (placeholder el)); [reflexivity|].
  destruct (Js.truthy (role el)); [reflexivity|].
  rewrite <- classes_head.
  destruct (Js.truthy (className el)) eqn:Hclass.
  - destruct (List.filter _ _); cbn; [|reflexivity].
    unfold Js.orElse. destruct (Js.truthy (tagName el)); reflexivity.
  - apply truthy_false in Hclass. rewrite Hclass. cbn.
    unfold Js.orElse. destruct (Js.truthy (tagName el)); reflexivity.
Qed.

(** C9: for every snapshot the synthesis returns, without throwing and
    without touching the instance, the selector of the first applicable
    rule in the order: id, text of an anchor (not empty, shorter than 50
    characters), name, type of an input, placeholder, role, tag with the
    first class token, tag, and the generic fallback. *)
Theorem synthesis_follows_priority :
  forall (page : nat) (el : SerializedElement) (s : Instance),
    exists selector,
      firstApplicable synthesisRules el = Some selector
      /\ result (generateOptimalSelector page el s) = inr selector
      /\ final (generateOptimalSelector page el s) = s.
Proof.
  intros page el s. exists (optimalSelector el).
  split; [apply optimalSelector_rules | split; reflexivity].
Qed.

End Synthesis.

(** ** The composite score and its cache *)

Section Composite.

(** On a miss of the cache the returned score is clamped. *)
Lemma universalScore_bounds (cfg : SelfHealingConfig) (selector : string)
    (el : SerializedElement) :
  0 <= universalScore cfg selector el /\ universalScore cfg selector el <= 1.
Proof.
  unfold universalScore. split.
  - apply Q.le_max_l.
  - apply Q.max_lub; [discriminate | apply Q.le_min_r].
Qed.

Lemma calculateComprehensiveSimilarity_miss_bounds (selector : string)
    (el : SerializedElement) (s : Instance) :
  similarityCache s !! cacheKey selector (identifierOf el) = None ->
  exists v, result (calculateComprehensiveSimilarity selector el s) = inr v
            /\ 0 <= v /\ v <= 1.
Proof.
  intros Hmiss. rewrite (calculateComprehensiveSimilarity_miss _ _ _ Hmiss).
  eexists. split; [reflexivity | apply universalScore_bounds].
Qed.

(** C1 (fails on the code): the cache records the score before the clamp
    and a hit returns what the cache holds.  On a fresh default instance
    the first call for the selector [input] and a [div] returns 0 and
    records -0.3; the second call returns -0.3.  For the search selector
    and the search field the first call returns 1 and the second a score
    above 1. *)
Theorem cached_score_is_not_clamped :
  let first := calculateComprehensiveSimilarity "input" containerSnapshot
                 defaultInstance in
  let second := calculateComprehensiveSimilarity "input" containerSnapshot
                  (final first) in
  let first' := calculateComprehensiveSimilarity searchSelector searchField
                  defaultInstance in
  let second' := calculateComprehensiveSimilarity searchSelector searchField
                   (final first') in
  (exists v, result first = inr v /\ v == 0)
  /\ (exists v, similarityCache (final first) !! "input-div" = Some v
                /\ v == -0.3)
  /\ (exists v, result second = inr v /\ v == -0.3 /\ v < 0)
  /\ (exists v, result first' = inr v /\ v == 1)
  /\ (exists v, result second' = inr v /\ 1 < v).
Proof.
  cbv zeta. repeat split; eexists; (split; [vm_compute; reflexivity|]);
    try split; reflexivity.
Qed.

End Composite.

(** ** Failure of the extraction *)

Section Extraction.

Lemma getAllPageElements_rejected (now : Z) (page : PlaywrightPage)
    (s : Instance) :
  evaluateElements page = None ->
  domCache s !! pageId page = None ->
  getAllPageElements now page s
  = mkOutcome (inl HostRejection) s [PageEvaluate (pageId page)].
Proof.
  intros Heval Hcache.
  unfold getAllPageElements, bind, get, emit, throw. cbn.
  rewrite Hcache, Heval. reflexivity.
Qed.

(** C2 (fails on the code): [getAllPageElements] has no handler around the
    evaluation.  On a page whose evaluation is rejected it throws the
    rejection, and so does each of the four operations, where the sibling
    [getContextualElements] returns the empty list. *)
Theorem extraction_failure_propagates :
  result (getAllPageElements 0 rejectingPage defaultInstance)
  = inl HostRejection
  /\ (forall strategy : Strategy,
        result (findElement strategy 0 rejectingPage "#checkout"
                            defaultInstance)
        = inl HostRejection)
  /\ result (getContextualElements rejectingPage "#checkout" defaultInstance)
     = inr [].
Proof.
  split; [reflexivity|]. split; [|reflexivity].
  intros []; vm_compute; reflexivity.
Qed.

End Extraction.

(** ** Policy divergence *)

Section Policies.

Variables (now : Z) (page : PlaywrightPage) (selector : string).
Variables (A B : SerializedElement) (s : Instance).

Hypothesis Hvalid : isValidSelector selector = true.
Hypothesis Hfails : waitForOk page selector = false.
Hypothesis Hpage : result (getAllPageElements now page s) = inr [A; B].
Hypothesis Hthreshold : minSimilarityThreshold (config s) == 0.1.
Hypothesis Hscope : 2 <= maxElementsToAnalyze (config s).

Local Opaque Qltb Qle_bool calculateLevenshteinSimilarity semanticScore
  structuralScore typeBonus attributeBonus identifierOf optimalSelector
  universalScore rawScore Qmin Qplus Qmult Qminus.



Lemma debugIdentifier_outcome (b : bool) (el : SerializedElement)
    (s0 : Instance) :
  when b (_ <- getElementIdentifier el ;; ret tt) s0
  = mkOutcome (inr tt)
      (if b then setDebugElementCount (S (debugElementCount s0)) s0 else s0)
      (if b then [Call GetElementIdentifier el] else []).
Proof. destruct b; reflexivity. Qed.




End Policies.




(** * Further properties of the code *)

(** ** The edit distance *)

Section EditDistance.

Lemma fillRow_entry (c : ascii) (str2 : string) :
  forall (prev : list nat) (left j : nat),
    List.length prev = S (String.length str2) ->
    (j < String.length str2)%nat ->
    nth (S j) (left :: fillRow c str2 prev left) 0%nat
    = Nat.min
        (Nat.min (nth (S j) prev 0%nat + 1)
                 (nth j (left :: fillRow c str2 prev left) 0%nat + 1))
        (nth j prev 0%nat
         + match String.get j str2 with
           | Some c2 => if Ascii.eqb c c2 then 0 else 1
           | None => 1
           end)%nat.
Proof.
  induction str2 as [|c2 rest IH]; intros prev left j Hlen Hj;
    [cbn in Hj; lia|].
  destruct prev as [|diag [|up prev]]; cbn in Hlen; try discriminate.
  cbn [fillRow]. destruct j as [|j].
  - reflexivity.
  - cbn [String.length] in Hj.
    change (nth (S (S j)) (left :: ?v :: ?F) 0%nat) with (nth (S j) (v :: F) 0%nat).
    rewrite IH by (cbn; lia). reflexivity.
Qed.

(** Row [i + 1] of the matrix is computed from row [i]. *)
Lemma fillRows_row (str1 str2 : string) :
  forall (i0 : nat) (prev : list nat) (k : nat) (c : ascii),
    String.get k str1 = Some c ->
    nth (S k) (prev :: fillRows str1 str2 i0 prev) []
    = (i0 + k)%nat
        :: fillRow c str2 (nth k (prev :: fillRows str1 str2 i0 prev) [])
                   (i0 + k).
Proof.
  induction str1 as [|a rest IH]; intros i0 prev k c Hget; [discriminate|].
  destruct k as [|k].
  - cbn in Hget. injection Hget as <-. cbn. now rewrite Nat.add_0_r.
  - cbn [String.get] in Hget. cbn [fillRows].
    change (nth (S (S k)) (prev :: ?row :: ?rows) [])
      with (nth (S k) (row :: rows) []).
    change (nth (S k) (prev :: ?row :: ?rows) [])
      with (nth k (row :: rows) []).
    rewrite (IH (S i0) _ k c Hget).
    now replace (S i0 + k)%nat with (i0 + S k)%nat by lia.
Qed.

Lemma row_length (str1 str2 : string) :
  forall (i0 : nat) (prev : list nat) (k : nat),
    List.length prev = S (String.length str2) ->
    (k <= String.length str1)%nat ->
    List.length (nth k (prev :: fillRows str1 str2 i0 prev) [])
    = S (String.length str2).
Proof.
  induction str1 as [|a rest IH]; intros i0 prev k Hlen Hk.
  - cbn in Hk. replace k with 0%nat by lia. exact Hlen.
  - destruct k as [|k]; [exact Hlen|].
    cbn [fillRows String.length] in *.
    change (nth (S k) (prev :: ?row :: ?rows) [])
      with (nth k (row :: rows) []).
    apply IH; [|lia]. cbn. now rewrite fillRow_length.
Qed.

Lemma get_some (s : string) (k : nat) :
  (k < String.length s)%nat -> exists c, String.get k s = Some c.
Proof.
  revert k. induction s as [|a s IH]; intros k Hk; [cbn in Hk; lia|].
  destruct k as [|k]; [now exists a|]. apply IH. cbn in Hk. lia.
Qed.

Lemma matrixEntry_row0 (str1 str2 : string) (j : nat) :
  (j <= String.length str2)%nat -> matrixEntry str1 str2 0 j = j.
Proof.
  intros Hj. unfold matrixEntry, levenshteinMatrix. cbn [nth].
  rewrite seq_nth by lia. reflexivity.
Qed.

Lemma matrixEntry_column0 (str1 str2 : string) (i : nat) :
  (i <= String.length str1)%nat -> matrixEntry str1 str2 i 0 = i.
Proof.
  intros Hi. unfold matrixEntry, levenshteinMatrix.
  destruct i as [|i]; [reflexivity|].
  destruct (get_some str1 i) as (c & Hc); [lia|].
  rewrite (fillRows_row _ _ _ _ _ _ Hc). reflexivity.
Qed.

(** The recurrence of the inner loop, read on the finished matrix. *)
Lemma matrixEntry_step (str1 str2 : string) (i j : nat) :
  (i < String.length str1)%nat -> (j < String.length str2)%nat ->
  matrixEntry str1 str2 (S i) (S j)
  = Nat.min
      (Nat.min (matrixEntry str1 str2 i (S j) + 1)
               (matrixEntry str1 str2 (S i) j + 1))
      (matrixEntry str1 str2 i j + substitutionCost str1 str2 i j)%nat.
Proof.
  intros Hi Hj. unfold matrixEntry, levenshteinMatrix, substitutionCost.
  destruct (get_some str1 i Hi) as (c & Hc).
  rewrite (fillRows_row _ _ _ _ _ _ Hc), Hc.
  rewrite fillRow_entry; [reflexivity | | exact Hj].
  apply row_length; [now rewrite length_seq | lia].
Qed.

Lemma levenshteinDistance_entry (str1 str2 : string) :
  levenshteinDistance str1 str2
  = matrixEntry str1 str2 (String.length str1) (String.length str2).
Proof. reflexivity. Qed.

Lemma matrixEntry_bound (str1 str2 : string) (i : nat) :
  forall j : nat,
    (i <= String.length str1)%nat -> (j <= String.length str2)%nat ->
    (matrixEntry str1 str2 i j <= Nat.max i j)%nat.
Proof.
  induction i as [|i IH]; intros j Hi Hj.
  - rewrite matrixEntry_row0 by exact Hj. lia.
  - destruct j as [|j].
    + rewrite matrixEntry_column0 by exact Hi. lia.
    + rewrite matrixEntry_step by lia.
      specialize (IH j ltac:(lia) ltac:(lia)).
      assert (substitutionCost str1 str2 i j <= 1)%nat.
      { unfold substitutionCost.
        destruct (String.get i str1), (String.get j str2);
          try destruct (Ascii.eqb _ _); lia. }
      lia.
Qed.

Lemma substitutionCost_sym (str1 str2 : string) (i j : nat) :
  substitutionCost str1 str2 i j = substitutionCost str2 str1 j i.
Proof.
  unfold substitutionCost.
  destruct (String.get i str1), (String.get j str2); try reflexivity.
  now rewrite Ascii.eqb_sym.
Qed.

Lemma matrixEntry_sym (str1 str2 : string) (i : nat) :
  forall j : nat,
    (i <= String.length str1)%nat -> (j <= String.length str2)%nat ->
    matrixEntry str1 str2 i j = matrixEntry str2 str1 j i.
Proof.
  induction i as [|i IHi]; intros j Hi Hj.
  - rewrite matrixEntry_row0, matrixEntry_column0 by assumption. reflexivity.
  - induction j as [|j IHj].
    + rewrite matrixEntry_row0, matrixEntry_column0 by assumption. reflexivity.
    + rewrite !matrixEntry_step by lia.
      rewrite (IHi (S j)), (IHi j), IHj, substitutionCost_sym by lia.
      lia.
Qed.

End EditDistance.


Section LexicalScore.

Lemma includes_startsWith (s sub : string) :
  Js.includes s sub = false -> Js.startsWith s sub = false.
Proof.
  destruct s; cbn [Js.includes]; intros H;
    apply orb_false_iff in H; tauto.
Qed.

Lemma ofNat_le (n m : nat) : (n <= m)%nat -> ofNat n <= ofNat m.
Proof.
  intros H. unfold ofNat. rewrite <- Zle_Qle. lia.
Qed.

Lemma baseSimilarity_bounds (str1 str2 : string) :
  str1 <> EmptyString ->
  0 <= baseSimilarity str1 str2 /\ baseSimilarity str1 str2 <= 1.
Proof.
  intros Hne. unfold baseSimilarity.
  set (maxLen := Nat.max (String.length str1) (String.length str2)).
  assert (0 < ofNat maxLen) as Hpos.
  { unfold ofNat. change 0 with (inject_Z 0). rewrite <- Zlt_Qlt.
    destruct str1; [congruence|]. cbn in maxLen. lia. }
  assert (0 <= ofNat (levenshteinDistance str1 str2)) as Hd0.
  { change 0 with (ofNat 0). apply ofNat_le. lia. }
  assert (ofNat (levenshteinDistance str1 str2) <= ofNat maxLen) as Hd.
  { apply ofNat_le. rewrite levenshteinDistance_entry.
    apply matrixEntry_bound; lia. }
  assert (0 <= ofNat (levenshteinDistance str1 str2) / ofNat maxLen) as Hq0.
  { apply Qle_shift_div_l; [exact Hpos|]. lra. }
  assert (ofNat (levenshteinDistance str1 str2) / ofNat maxLen <= 1) as Hq1.
  { apply Qle_shift_div_r; [exact Hpos|]. lra. }
  lra.
Qed.

Lemma substringBonus_nonneg (str1 str2 : string) : 0 <= substringBonus str1 str2.
Proof.
  unfold substringBonus.
  destruct (Js.startsWith str2 str1); [discriminate|].
  destruct (Js.includes str2 str1); discriminate.
Qed.

Lemma calculateLevenshteinSimilarity_bounds (str1 str2 : string) :
  0 <= calculateLevenshteinSimilarity str1 str2
  /\ calculateLevenshteinSimilarity str1 str2 <= 1.
Proof.
  unfold calculateLevenshteinSimilarity.
  destruct str1 as [|a str1]; [destruct str2; cbn; split; discriminate|].
  destruct str2 as [|b str2]; [cbn; split; discriminate|].
  cbn [String.length Nat.eqb].
  pose proof (baseSimilarity_bounds (String a str1) (String b str2)
                ltac:(discriminate)) as (H0 & _).
  pose proof (substringBonus_nonneg (String a str1) (String b str2)).
  split.
  - apply Q.min_glb; [lra | discriminate].
  - apply Q.le_min_r.
Qed.

(** X1: the edit distance never exceeds the longer length, and the lexical
    similarity of any two strings lies in [0,1]. *)
Theorem lexical_similarity_in_unit_interval :
  forall str1 str2 : string,
    (levenshteinDistance str1 str2
     <= Nat.max (String.length str1) (String.length str2))%nat
    /\ 0 <= calculateLevenshteinSimilarity str1 str2
    /\ calculateLevenshteinSimilarity str1 str2 <= 1.
Proof.
  intros str1 str2. split.
  - rewrite levenshteinDistance_entry. apply matrixEntry_bound; lia.
  - apply calculateLevenshteinSimilarity_bounds.
Qed.

Lemma baseSimilarity_sym (str1 str2 : string) :
  baseSimilarity str1 str2 == baseSimilarity str2 str1.
Proof.
  unfold baseSimilarity.
  rewrite !levenshteinDistance_entry.
  rewrite (matrixEntry_sym str1 str2) by lia.
  rewrite (Nat.max_comm (String.length str1)). reflexivity.
Qed.

(** X2: the edit distance is symmetric, and so is the lexical similarity of
    two strings neither of which contains the other: the direction matters
    through the substring bonus only. *)
Theorem lexical_similarity_symmetric_without_bonus :
  forall str1 str2 : string,
    levenshteinDistance str1 str2 = levenshteinDistance str2 str1
    /\ (Js.includes str2 str1 = false ->
        Js.includes str1 str2 = false ->
        calculateLevenshteinSimilarity str1 str2
        == calculateLevenshteinSimilarity str2 str1).
Proof.
  intros str1 str2. split.
  - rewrite !levenshteinDistance_entry. apply matrixEntry_sym; lia.
  - intros H21 H12. unfold calculateLevenshteinSimilarity, substringBonus.
    rewrite H21, H12, (includes_startsWith _ _ H21),
      (includes_startsWith _ _ H12).
    destruct str1 as [|a str1], str2 as [|b str2]; try reflexivity.
    cbn [String.length Nat.eqb].
    now rewrite baseSimilarity_sym.
Qed.

Lemma lexical_similarity_symmetric_without_bonus_witness :
  calculateLevenshteinSimilarity "login-btn" "signin-button"
  == calculateLevenshteinSimilarity "signin-button" "login-btn".
Proof.
  apply (proj2 (lexical_similarity_symmetric_without_bonus
                  "login-btn" "signin-button")); reflexivity.
Defined.

End LexicalScore.


(** ** The sub-scores *)

Section SubScores.

Variable originalSelector : string.

Lemma filter_length_bound {A} (f : A -> bool) (l : list A) :
  (List.length (List.filter f l) <= List.length l)%nat.
Proof.
  induction l as [|x l IH]; cbn; [lia|]. destruct (f x); cbn; lia.
Qed.

Lemma ratio_bounds (n m : nat) :
  (n <= m)%nat -> (0 < m)%nat ->
  0 <= ofNat n / ofNat m /\ ofNat n / ofNat m <= 1.
Proof.
  intros Hnm Hm.
  assert (0 < ofNat m) as Hpos.
  { unfold ofNat. change 0 with (inject_Z 0). rewrite <- Zlt_Qlt. lia. }
  assert (0 <= ofNat n) by (change 0 with (ofNat 0); apply ofNat_le; lia).
  pose proof (ofNat_le n m Hnm).
  split.
  - apply Qle_shift_div_l; [exact Hpos | lra].
  - apply Qle_shift_div_r; [exact Hpos | lra].
Qed.

Lemma semanticScore_bounds (elementText : string) :
  0 <= semanticScore originalSelector elementText
  /\ semanticScore originalSelector elementText <= 1.
Proof.
  unfold semanticScore.
  destruct (Nat.ltb_spec 0
              (List.length (Js.splitWords (Js.toLowerCase originalSelector))));
    [|split; discriminate].
  apply ratio_bounds; [apply filter_length_bound | assumption].
Qed.

Lemma structuralScore_bounds (el : SerializedElement) :
  0 <= structuralScore originalSelector el
  /\ structuralScore originalSelector el <= 1.
Proof.
  unfold structuralScore.
  destruct (Js.truthy _ && Js.includes originalSelector _),
    (Js.includes originalSelector _ && Js.truthy _),
    (Js.truthy _ && Js.includes originalSelector _);
    split; first [apply Q.min_glb; discriminate | apply Q.le_min_r].
Qed.

(** X3: the semantic and the structural score of any selector and snapshot
    lie in [0,1], and so does the score [semantic * 0.6 + structural * 0.4]
    by which the complex strategy ranks; neither method throws. *)
Theorem semantic_and_structural_scores_in_unit_interval :
  forall (el : SerializedElement) (s : Instance),
    (exists v, result (calculateSemanticSimilarity originalSelector el s) = inr v
               /\ 0 <= v /\ v <= 1)
    /\ (exists v, result (calculateStructuralSimilarity originalSelector el s)
                  = inr v
                  /\ 0 <= v /\ v <= 1)
    /\ 0 <= complexScore originalSelector el
    /\ complexScore originalSelector el <= 1.
Proof.
  intros el s.
  pose proof (semanticScore_bounds (identifierOf el)) as (Hs0 & Hs1).
  pose proof (structuralScore_bounds el) as (Ht0 & Ht1).
  split; [|split; [|unfold complexScore; split; lra]].
  - rewrite calculateSemanticSimilarity_outcome. eauto.
  - rewrite calculateStructuralSimilarity_outcome. eauto.
Qed.

Lemma contextualRelevance_step_nonneg (el : SerializedElement)
    (contextual : list SerializedElement) :
  forall acc : Q,
    0 <= acc ->
    0 <= fold_left
           (fun relevanceScore contextElement =>
              let relevanceScore :=
                if String.eqb (SerializedElement.tagName el)
                              (SerializedElement.tagName contextElement)
                then relevanceScore + 0.2 else relevanceScore in
              if Js.truthy (SerializedElement.className el)
                 && Js.truthy (SerializedElement.className contextElement)
                 && String.eqb (SerializedElement.className el)
                               (SerializedElement.className contextElement)
              then relevanceScore + 0.1 else relevanceScore)
           contextual acc.
Proof.
  induction contextual as [|c contextual IH]; intros acc Hacc; [exact Hacc|].
  cbn [fold_left]. apply IH. cbv zeta.
  repeat match goal with
         | |- context [if ?b then _ else _] => destruct b
         end; lra.
Qed.

Lemma contextualRelevance_bounds (el : SerializedElement)
    (contextual : list SerializedElement) :
  0 <= contextualRelevance el contextual
  /\ contextualRelevance el contextual <= 1.
Proof.
  unfold contextualRelevance.
  destruct (Nat.eqb (List.length contextual) 0); [split; discriminate|].
  split; [|apply Q.le_min_r].
  apply Q.min_glb; [|discriminate].
  apply contextualRelevance_step_nonneg. discriminate.
Qed.

(** X4: the pattern score and the contextual relevance of any snapshot lie
    in [0,1], whatever the contextual elements, and so does the score
    [pattern * 0.7 + context * 0.3] by which the advanced strategy ranks;
    without contextual elements the relevance is 0.5. *)
Theorem pattern_and_context_scores_in_unit_interval :
  forall (el : SerializedElement) (contextual : list SerializedElement)
         (s : Instance),
    exists pattern context,
      result (calculatePatternSimilarity originalSelector el contextual s)
      = inr pattern
      /\ result (calculateContextualRelevance el contextual s) = inr context
      /\ 0 <= pattern /\ pattern <= 1
      /\ 0 <= context /\ context <= 1
      /\ 0 <= pattern * 0.7 + context * 0.3
      /\ pattern * 0.7 + context * 0.3 <= 1
      /\ (contextual = [] -> context == 0.5).
Proof.
  intros el contextual s.
  rewrite calculatePatternSimilarity_outcome,
    calculateContextualRelevance_outcome.
  eexists _, _. split; [reflexivity|]. split; [reflexivity|].
  pose proof (contextualRelevance_bounds el contextual) as (Hc0 & Hc1).
  pose proof (calculateLevenshteinSimilarity_bounds originalSelector
                (identifierOf el)) as (Hl0 & _).
  assert (0 <= Qmin (calculateLevenshteinSimilarity originalSelector
                       (identifierOf el)
                     + (if Nat.ltb 0 (List.length contextual) then 0.2 else 0))
                    1) as Hp0.
  { apply Q.min_glb; [|discriminate].
    destruct (Nat.ltb 0 (List.length contextual)); lra. }
  pose proof (Q.le_min_r
                (calculateLevenshteinSimilarity originalSelector
                   (identifierOf el)
                 + (if Nat.ltb 0 (List.length contextual) then 0.2 else 0))
                1) as Hp1.
  repeat split; try assumption; try lra.
  intros ->. reflexivity.
Qed.

End SubScores.


(** ** The fast path *)

Lemma findElement_resolving (strategy : Strategy) (now : Z)
    (page : PlaywrightPage) (selector : string) (s : Instance) :
  isValidSelector selector = true ->
  waitForOk page selector = true ->
  findElement strategy now page selector s
  = mkOutcome (inr (Some (Locator (pageId page) selector))) s
              [PageLocator (pageId page) selector;
               LocatorWaitFor (pageId page) selector].
Proof.
  intros Hvalid Hwait.
  destruct strategy; cbn [findElement];
    unfold findElementUniversal, findElementSimple, findElementComplex,
      findElementAdvanced;
    rewrite Hvalid; cbn [negb];
    rewrite (bind_outcome _ _ _ _ _ _ (tryOriginal_outcome _ _ _)), Hwait;
    reflexivity.
Qed.

(** X5: when the original selector passes the validation and resolves within
    the wait, every strategy returns its locator after the two calls
    [page.locator] and [waitFor]: the page is not evaluated, no snapshot is
    scored and the instance, caches included, is unchanged. *)
Theorem resolving_selector_is_returned_unhealed :
  forall (strategy : Strategy) (now : Z) (page : PlaywrightPage)
         (selector : string) (s : Instance),
    isValidSelector selector = true ->
    waitForOk page selector = true ->
    findElement strategy now page selector s
    = mkOutcome (inr (Some (Locator (pageId page) selector))) s
                [PageLocator (pageId page) selector;
                 LocatorWaitFor (pageId page) selector].
Proof. exact findElement_resolving. Qed.

Lemma resolving_selector_is_returned_unhealed_witness :
  result (findElement Advanced 0 resolvingPage "#checkout" defaultInstance)
  = inr (Some (Locator 4 "#checkout")).
Proof.
  rewrite (resolving_selector_is_returned_unhealed Advanced 0%Z resolvingPage
             "#checkout" defaultInstance eq_refl eq_refl).
  reflexivity.
Defined.


(** ** The selection policies *)

Section Selection.

Variable score : SerializedElement -> Q.
Variable threshold : Q.

(** The loop either keeps the best match it started with, when no candidate
    beats the best score and reaches the threshold, or ends on the earliest
    of the best candidates. *)
Lemma selectBest_spec (candidates : list SerializedElement) :
  forall (bestMatch : option SerializedElement) (bestScore : Q),
    let r := selectBest score threshold candidates bestMatch bestScore in
    (r = (bestMatch, bestScore)
     /\ forall c, In c candidates ->
                  score c <= bestScore \/ score c < threshold)
    \/ exists el,
         r = (Some el, score el)
         /\ threshold <= score el
         /\ bestScore < score el
         /\ earliestBest score candidates el.
Proof.
  induction candidates as [|c rest IH]; intros bestMatch bestScore.
  - left. split; [reflexivity | intros c []].
  - cbn [selectBest]. cbv zeta.
    destruct (Qltb bestScore (score c) && Qle_bool threshold (score c))
      eqn:Hupdate.
    + apply andb_true_iff in Hupdate as (Hgt & Hthr).
      apply Qltb_lt in Hgt. apply Qle_bool_iff in Hthr.
      destruct (IH (Some c) (score c)) as [(-> & Hrest) | (el & -> & ? & ? & Hbest)].
      * right. exists c. repeat split; try assumption.
        exists [], rest. repeat split; [intros x [] |].
        intros x Hx. destruct (Hrest x Hx); lra.
      * right. exists el. repeat split; try assumption; [lra|].
        destruct Hbest as (before & after & -> & Hbefore & Hafter).
        exists (c :: before), after. repeat split; [|exact Hafter].
        intros x [<- | Hx]; [assumption | now apply Hbefore].
    + assert (score c <= bestScore \/ score c < threshold) as Hc.
      { apply andb_false_iff in Hupdate as [H | H].
        - left. now apply Qltb_ge.
        - right. apply Qnot_le_lt. intros Hle.
          apply Qle_bool_iff in Hle. congruence. }
      destruct (IH bestMatch bestScore)
        as [(-> & Hrest) | (el & -> & ? & ? & Hbest)].
      * left. split; [reflexivity|]. intros x [<- | Hx]; auto.
      * right. exists el. repeat split; try assumption.
        destruct Hbest as (before & after & -> & Hbefore & Hafter).
        exists (c :: before), after. repeat split; [|exact Hafter].
        intros x [<- | Hx]; [destruct Hc; lra | now apply Hbefore].
Qed.

End Selection.


Section Healing.

Variables (now : Z) (page : PlaywrightPage) (selector : string).
Variables (s : Instance) (allElements : list SerializedElement).

Hypothesis Hvalid : isValidSelector selector = true.
Hypothesis Hfails : waitForOk page selector = false.
Hypothesis Hpage : result (getAllPageElements now page s) = inr allElements.

Local Opaque Qltb Qle_bool calculateLevenshteinSimilarity semanticScore
  structuralScore typeBonus attributeBonus identifierOf optimalSelector
  universalScore rawScore contextualRelevance Qmin Qplus Qmult Qminus.

Lemma extraction_outcome :
  exists s1 ev,
    getAllPageElements now page s = mkOutcome (inr allElements) s1 ev
    /\ config s1 = config s
    /\ similarityCache s1 = similarityCache s.
Proof.
  destruct (getAllPageElements_cases now page s)
    as [Hrej | (l & s1 & ev & Hget & Hcfg & Hsim & _)];
    rewrite ?Hrej, ?Hget in Hpage; cbn in Hpage; [discriminate|].
  injection Hpage as ->. eauto.
Qed.

Lemma simpleLoop_finds (cands : list SerializedElement) :
  forall s1 : Instance,
    result (simpleLoop page selector cands s1)
    = inr (healed page
             (List.find (fun el => Qle_bool (minSimilarityThreshold (config s1))
                                            (simpleScore selector el))
                        cands)).
Proof.
  induction cands as [|el rest IH]; intros s1; [reflexivity|].
  cbn [simpleLoop List.find].
  rewrite (bind_outcome _ _ _ _ _ _ (getElementIdentifier_outcome _ _)).
  rewrite (bind_outcome _ _ _ _ _ _ (getConfig_outcome _)).
  cbn [result final events config setDebugElementCount].
  unfold simpleScore at 1.
  destruct (Qle_bool _ _); [reflexivity|].
  now rewrite IH.
Qed.

Lemma findElementSimple_result :
  result (findElementSimple now page selector s)
  = inr (healed page
           (List.find (fun el => Qle_bool (minSimilarityThreshold (config s))
                                          (simpleScore selector el))
                      (slice0 allElements (maxElementsToAnalyze (config s))))).
Proof.
  destruct extraction_outcome as (s1 & ev & Hget & Hcfg & _).
  unfold findElementSimple. rewrite Hvalid. cbn [negb].
  rewrite (bind_outcome _ _ _ _ _ _ (tryOriginal_outcome _ _ _)), Hfails.
  rewrite (bind_outcome _ _ _ _ _ _ Hget).
  rewrite (bind_outcome _ _ _ _ _ _ (getConfig_outcome _)).
  cbn [result final events]. now rewrite simpleLoop_finds, Hcfg.
Qed.

Lemma advancedLoop_selects (contextual cands : list SerializedElement) :
  forall (bestMatch : option SerializedElement) (bestScore : Q)
         (s1 : Instance),
    result (advancedLoop selector contextual cands bestMatch bestScore s1)
    = inr (selectBest (advancedScore selector contextual)
                      (minSimilarityThreshold (config s1))
                      cands bestMatch bestScore).
Proof.
  induction cands as [|el rest IH]; intros bestMatch bestScore s1;
    [reflexivity|].
  cbn [advancedLoop selectBest].
  rewrite (bind_outcome _ _ _ _ _ _ (calculatePatternSimilarity_outcome _ _ _ _)).
  rewrite (bind_outcome _ _ _ _ _ _ (calculateContextualRelevance_outcome _ _ _)).
  rewrite (bind_outcome _ _ _ _ _ _ (getConfig_outcome _)).
  cbn [result final events config setDebugElementCount].
  unfold advancedScore at 1 2 3.
  destruct (Qltb _ _ && Qle_bool _ _); now rewrite IH.
Qed.

Lemma getContextualElements_value (s1 : Instance) :
  getContextualElements page selector s1
  = mkOutcome (inr (contextualOf page selector)) s1
              [PageEvaluate (pageId page)].
Proof.
  unfold getContextualElements, contextualOf, tryCatch, bind, emit, ret, throw.
  cbn. destruct (evaluateContext page selector); reflexivity.
Qed.

Lemma findElementAdvanced_result :
  result (findElementAdvanced now page selector s)
  = inr (healed page
           (fst (selectBest (advancedScore selector (contextualOf page selector))
                            (minSimilarityThreshold (config s))
                            (slice0 allElements (maxElementsToAnalyze (config s)))
                            None 0))).
Proof.
  destruct extraction_outcome as (s1 & ev & Hget & Hcfg & _).
  unfold findElementAdvanced. rewrite Hvalid. cbn [negb].
  rewrite (bind_outcome _ _ _ _ _ _ (tryOriginal_outcome _ _ _)), Hfails.
  rewrite (bind_outcome _ _ _ _ _ _ Hget).
  rewrite (bind_outcome _ _ _ _ _ _ (getContextualElements_value _)).
  rewrite (bind_outcome _ _ _ _ _ _ (getConfig_outcome _)).
  cbn [result final events]. rewrite Hcfg.
  pose proof (advancedLoop_selects (contextualOf page selector)
                (slice0 allElements (maxElementsToAnalyze (config s)))
                None 0 s1) as Hloop.
  rewrite Hcfg in Hloop.
  destruct (advancedLoop selector (contextualOf page selector)
              (slice0 allElements (maxElementsToAnalyze (config s))) None 0 s1)
    as [r s2 evl] eqn:Hrun.
  cbn [result] in Hloop. subst r.
  rewrite (bind_outcome _ _ _ _ _ _ Hrun).
  destruct (selectBest _ _ _ _ _) as [[bm|] bs]; reflexivity.
Qed.

Lemma universalLoop_selects (cands : list SerializedElement) :
  forall (bestMatch : option SerializedElement) (bestScore : Q)
         (elementCount : nat) (s1 : Instance),
    (forall el, In el cands ->
       similarityCache s1 !! cacheKey selector (identifierOf el) = None) ->
    List.NoDup (List.map identifierOf cands) ->
    result (universalLoop selector cands bestMatch bestScore elementCount s1)
    = inr (selectBest (universalScore (config s1) selector)
                      (minSimilarityThreshold (config s1))
                      cands bestMatch bestScore).
Proof.
  induction cands as [|el rest IH];
    intros bestMatch bestScore elementCount s1 Hfresh Hdistinct;
    [reflexivity|].
  cbn [universalLoop selectBest].
  rewrite (bind_outcome _ _ _ _ _ _
             (calculateComprehensiveSimilarity_miss _ _ _
                (Hfresh el (or_introl eq_refl)))).
  rewrite (bind_outcome _ _ _ _ _ _ (getConfig_outcome _)).
  cbn [result final events config].
  rewrite (bind_outcome _ _ _ _ _ _ (debugIdentifier_outcome _ _ _)).
  cbn [result final events].
  inversion Hdistinct as [|? ? Hnotin Hrest]; subst.
  assert (forall next : Instance,
             config next = config s1 ->
             similarityCache next
             = <[cacheKey selector (identifierOf el)
                 := rawScore (config s1) selector el]> (similarityCache s1) ->
             forall bm bs n,
               result (universalLoop selector rest bm bs n next)
               = inr (selectBest (universalScore (config s1) selector)
                                 (minSimilarityThreshold (config s1))
                                 rest bm bs)) as Hnext.
  { intros next Hcfg Hsim bm bs n. rewrite IH, Hcfg; [reflexivity| |exact Hrest].
    intros el' Hin. rewrite Hsim, lookup_insert_ne; [now apply Hfresh; right|].
    unfold cacheKey. intros Heq.
    apply (inj (String.append selector)) in Heq.
    apply (inj (String.append "-")) in Heq.
    apply Hnotin. rewrite Heq. now apply in_map. }
  destruct (Qltb _ _ && Qle_bool _ _);
    (apply Hnext; destruct (debug (config s1) && Nat.ltb elementCount 5);
     reflexivity).
Qed.

Lemma findElementUniversal_result :
  (forall el, In el (slice0 allElements (maxElementsToAnalyze (config s))) ->
     similarityCache s !! cacheKey selector (identifierOf el) = None) ->
  List.NoDup (List.map identifierOf
           (slice0 allElements (maxElementsToAnalyze (config s)))) ->
  result (findElementUniversal now page selector s)
  = inr (healed page
           (fst (selectBest (universalScore (config s) selector)
                            (minSimilarityThreshold (config s))
                            (slice0 allElements (maxElementsToAnalyze (config s)))
                            None 0))).
Proof.
  intros Hfresh Hdistinct.
  destruct extraction_outcome as (s1 & ev & Hget & Hcfg & Hsim).
  unfold findElementUniversal. rewrite Hvalid. cbn [negb].
  rewrite (bind_outcome _ _ _ _ _ _ (tryOriginal_outcome _ _ _)), Hfails.
  rewrite (bind_outcome _ _ _ _ _ _ Hget).
  rewrite (bind_outcome _ _ _ _ _ _ (getConfig_outcome _)).
  cbn [result final events].
  rewrite Hcfg.
  pose proof (universalLoop_selects
                (slice0 allElements (maxElementsToAnalyze (config s)))
                None 0 0%nat s1) as Hloop.
  rewrite Hcfg, Hsim in Hloop. specialize (Hloop Hfresh Hdistinct).
  destruct (universalLoop selector
              (slice0 allElements (maxElementsToAnalyze (config s))) None 0
              0%nat s1) as [r s2 evl] eqn:Hrun.
  cbn [result] in Hloop. subst r.
  rewrite (bind_outcome _ _ _ _ _ _ Hrun).
  destruct (selectBest _ _ _ _ _) as [[bm|] bs]; reflexivity.
Qed.

Lemma complexLoop_collects (els : list SerializedElement) :
  forall (candidates : list MatchCandidate) (s1 : Instance),
    result (complexLoop selector els candidates s1)
    = inr (candidates
           ++ List.map (fun el => mkCandidate el (complexScore selector el))
                (List.filter
                   (fun el => Qle_bool (minSimilarityThreshold (config s1))
                                       (complexScore selector el))
                   els))%list.
Proof.
  induction els as [|el rest IH]; intros candidates s1.
  - cbn. now rewrite app_nil_r.
  - cbn [complexLoop List.filter].
    rewrite (bind_outcome _ _ _ _ _ _ (calculateSemanticSimilarity_outcome _ _ _)).
    rewrite (bind_outcome _ _ _ _ _ _ (calculateStructuralSimilarity_outcome _ _ _)).
    rewrite (bind_outcome _ _ _ _ _ _ (getConfig_outcome _)).
    cbn [result final events config setDebugElementCount].
    unfold complexScore at 1 2.
    destruct (Qle_bool _ _); rewrite IH; cbn [config setDebugElementCount];
      [|reflexivity].
    cbn [List.map]. now rewrite <- app_assoc.
Qed.

(** The head of the sorted candidates is the earliest of the candidates with
    the highest score. *)
Lemma sortCandidates_head (l : list MatchCandidate) :
  match sortCandidates l with
  | [] => l = []
  | best :: _ =>
      exists before after,
        l = (before ++ best :: after)%list
        /\ (forall c, In c before -> score c < score best)
        /\ (forall c, In c after -> score c <= score best)
  end.
Proof.
  induction l as [|a l IH]; [reflexivity|].
  cbn [sortCandidates fold_right].
  change (fold_right insertCandidate [] l) with (sortCandidates l).
  destruct (sortCandidates l) as [|h t].
  - subst l. cbn. exists [], []. repeat split; intros c [].
  - destruct IH as (before & after & -> & Hbefore & Hafter).
    cbn [insertCandidate].
    destruct (Qle_bool (score h - score a) 0) eqn:Hle.
    + apply Qle_bool_iff in Hle.
      exists [], (before ++ h :: after)%list.
      repeat split; [intros c []|].
      intros c Hc. apply in_app_or in Hc as [Hc | [<- | Hc]].
      * specialize (Hbefore c Hc). lra.
      * lra.
      * specialize (Hafter c Hc). lra.
    + assert (score a < score h) as Hlt.
      { apply Qnot_le_lt. intros H.
        assert (Qle_bool (score h - score a) 0 = true)
          by (apply Qle_bool_iff; lra).
        congruence. }
      exists (a :: before), after. repeat split; [|exact Hafter].
      intros c [<- | Hc]; [exact Hlt | now apply Hbefore].
Qed.

Lemma collected_split {A B} (g : A -> B) (q : A -> bool) (els : list A) :
  forall (before : list B) (best : B) (after : list B),
    List.map g (List.filter q els) = (before ++ best :: after)%list ->
    exists before0 el after0,
      els = (before0 ++ el :: after0)%list
      /\ best = g el /\ q el = true
      /\ before = List.map g (List.filter q before0)
      /\ after = List.map g (List.filter q after0).
Proof.
  induction els as [|x xs IH]; intros before best after Heq.
  - destruct before; discriminate.
  - cbn [List.filter] in Heq. destruct (q x) eqn:Hq.
    + destruct before as [|b before]; cbn in Heq; injection Heq as <- Heq.
      * exists [], x, xs. repeat split; auto.
      * destruct (IH _ _ _ Heq) as (b0 & el & a0 & -> & -> & Hel & -> & ->).
        exists (x :: b0), el, a0. cbn. rewrite Hq. repeat split; auto.
    + destruct (IH _ _ _ Heq) as (b0 & el & a0 & -> & -> & Hel & -> & ->).
      exists (x :: b0), el, a0. cbn. rewrite Hq. repeat split; auto.
Qed.

Lemma findElementComplex_result :
  exists r,
    result (findElementComplex now page selector s) = inr r
    /\ choosesEarliestBest page (complexScore selector)
         (fun el => minSimilarityThreshold (config s) <= complexScore selector el)
         (slice0 allElements (maxElementsToAnalyze (config s))) r.
Proof.
  destruct extraction_outcome as (s1 & ev & Hget & Hcfg & _).
  unfold findElementComplex. rewrite Hvalid. cbn [negb].
  rewrite (bind_outcome _ _ _ _ _ _ (tryOriginal_outcome _ _ _)), Hfails.
  rewrite (bind_outcome _ _ _ _ _ _ Hget).
  rewrite (bind_outcome _ _ _ _ _ _ (getConfig_outcome _)).
  cbn [result final events]. rewrite Hcfg.
  set (cands := slice0 allElements (maxElementsToAnalyze (config s))).
  pose proof (complexLoop_collects cands [] s1) as Hloop.
  rewrite Hcfg in Hloop. cbn [app] in Hloop.
  destruct (complexLoop selector cands [] s1) as [r s2 evl] eqn:Hrun.
  cbn [result] in Hloop. subst r.
  rewrite (bind_outcome _ _ _ _ _ _ Hrun).
  set (q := fun el => Qle_bool (minSimilarityThreshold (config s))
                               (complexScore selector el)) in *.
  set (g := fun el => mkCandidate el (complexScore selector el)) in *.
  pose proof (sortCandidates_head (List.map g (List.filter q cands))) as Hhead.
  destruct (sortCandidates (List.map g (List.filter q cands)))
    as [|best sorted].
  - eexists. split; [reflexivity|]. left. split; [reflexivity|].
    intros c Hc Hq.
    assert (In c (List.filter q cands)) as Hin
      by (apply filter_In; split; [exact Hc | now apply Qle_bool_iff]).
    apply (in_map g) in Hin. rewrite Hhead in Hin. destruct Hin.
  - destruct Hhead as (before & after & Heq & Hbefore & Hafter).
    apply collected_split in Heq
      as (before0 & el & after0 & Hcands & -> & Hel & -> & ->).
    apply Qle_bool_iff in Hel.
    rewrite heal_outcome. eexists. split; [reflexivity|].
    right. exists el. split; [reflexivity|]. split; [exact Hel|].
    exists before0, after0. split; [exact Hcands|].
    assert (forall c, q c = false -> complexScore selector c
                                     < minSimilarityThreshold (config s))
      as Hout.
    { intros c Hc. apply Qnot_le_lt. intros H.
      apply Qle_bool_iff in H. unfold q in Hc. congruence. }
    split; intros c Hc; destruct (q c) eqn:Hq.
    + apply (Hbefore (g c)). apply in_map, filter_In. auto.
    + specialize (Hout c Hq). cbn [g score element]. lra.
    + apply (Hafter (g c)). apply in_map, filter_In. auto.
    + specialize (Hout c Hq). cbn [g score element]. lra.
Qed.

End Healing.


Lemma selected_chooses (page : PlaywrightPage)
    (score : SerializedElement -> Q) (threshold : Q)
    (cands : list SerializedElement) :
  choosesEarliestBest page score
    (fun el => 0 < score el /\ threshold <= score el) cands
    (healed page (fst (selectBest score threshold cands None 0))).
Proof.
  destruct (selectBest_spec score threshold cands None 0)
    as [(-> & Hnone) | (el & -> & Hthr & Hpos & Hbest)]; cbn [fst healed].
  - left. split; [reflexivity|].
    intros c Hc (Hpos & Hthr). destruct (Hnone c Hc); lra.
  - right. exists el. auto.
Qed.

(** ** The snapshot cache *)

Section SnapshotCache.

Lemma getAllPageElements_first (now : Z) (page : PlaywrightPage)
    (s : Instance) (els : list SerializedElement) :
  domCache s !! pageId page = None ->
  evaluateElements page = Some els ->
  getAllPageElements now page s
  = mkOutcome (inr els)
      (setDomCache (<[pageId page := mkEntry els now]> (domCache s)) s)
      [PageEvaluate (pageId page)].
Proof.
  intros Hcache Heval.
  unfold getAllPageElements, bind, get, modify, put, emit, ret. cbn.
  rewrite Hcache, Heval. reflexivity.
Qed.

Lemma getAllPageElements_cached (later : Z) (page : PlaywrightPage)
    (s : Instance) (entry : DomCacheEntry) :
  domCache s !! pageId page = Some entry ->
  getAllPageElements later page s
  = if Qltb (inject_Z (later - timestamp entry)) (domCacheTTL (config s))
    then mkOutcome (inr (elements entry)) s []
    else match evaluateElements page with
         | Some els =>
             mkOutcome (inr els)
               (setDomCache (<[pageId page := mkEntry els later]> (domCache s)) s)
               [PageEvaluate (pageId page)]
         | None => mkOutcome (inl HostRejection) s [PageEvaluate (pageId page)]
         end.
Proof.
  intros Hcache.
  unfold getAllPageElements, bind, get, modify, put, emit, ret, throw. cbn.
  rewrite Hcache. destruct (Qltb _ _); [reflexivity|].
  destruct (evaluateElements page); reflexivity.
Qed.

(** X10: after the first extraction for a page at time [now], a call for the
    same page at a time less than [domCacheTTL] later returns the stored
    snapshots without evaluating the page and without changing the instance,
    whatever the page has become; from [domCacheTTL] on, the page is
    evaluated again, and a rejection is thrown. *)
Theorem snapshot_cache_serves_until_ttl :
  forall (now later : Z) (page page' : PlaywrightPage) (s : Instance)
         (els : list SerializedElement),
    pageId page' = pageId page ->
    domCache s !! pageId page = None ->
    evaluateElements page = Some els ->
    let s1 := final (getAllPageElements now page s) in
    result (getAllPageElements now page s) = inr els
    /\ (inject_Z (later - now) < domCacheTTL (config s) ->
        getAllPageElements later page' s1 = mkOutcome (inr els) s1 [])
    /\ (domCacheTTL (config s) <= inject_Z (later - now) ->
        events (getAllPageElements later page' s1)
        = [PageEvaluate (pageId page)]
        /\ result (getAllPageElements later page' s1)
           = match evaluateElements page' with
             | Some els' => inr els'
             | None => inl HostRejection
             end).
Proof.
  intros now later page page' s els Hid Hcache Heval s1. subst s1.
  rewrite (getAllPageElements_first now page s els Hcache Heval).
  cbn [result final].
  assert (domCache
            (setDomCache (<[pageId page := mkEntry els now]> (domCache s)) s)
          !! pageId page' = Some (mkEntry els now)) as Hentry
    by (rewrite Hid; cbn; apply lookup_insert_eq).
  rewrite (getAllPageElements_cached later page' _ _ Hentry).
  cbn [timestamp elements config setDomCache].
  split; [reflexivity|]. split.
  - intros Hfresh. apply Qltb_lt in Hfresh. now rewrite Hfresh.
  - intros Hstale. apply Qltb_ge in Hstale. rewrite Hstale, Hid.
    destruct (evaluateElements page'); split; reflexivity.
Qed.

Lemma snapshot_cache_serves_until_ttl_witness :
  result (getAllPageElements 29999 changedPage
            (final (getAllPageElements 0 fixturePage defaultInstance)))
  = inr [elementA; elementB]
  /\ result (getAllPageElements 30000 changedPage
               (final (getAllPageElements 0 fixturePage defaultInstance)))
     = inr [containerSnapshot].
Proof.
  destruct (snapshot_cache_serves_until_ttl 0%Z 29999%Z fixturePage changedPage
              defaultInstance [elementA; elementB] eq_refl eq_refl eq_refl)
    as (_ & Hfresh & _).
  destruct (snapshot_cache_serves_until_ttl 0%Z 30000%Z fixturePage changedPage
              defaultInstance [elementA; elementB] eq_refl eq_refl eq_refl)
    as (_ & _ & Hstale).
  split.
  - rewrite Hfresh; [reflexivity | reflexivity].
  - apply Hstale. discriminate.
Defined.

End SnapshotCache.

(** ** The similarity cache *)

Section SimilarityCache.

Variables (selector : string) (el : SerializedElement).


(** X12: a composite score computed on a miss is served from the cache
    afterwards without the semantic and the structural score being computed
    again; the value served is the one computed under the configuration of
    the miss, also after [updateConfig] has changed the weights. *)
Theorem cached_score_survives_updateConfig :
  forall (s : Instance) (newConfig : PartialConfig),
    similarityCache s !! cacheKey selector (identifierOf el) = None ->
    validConfiguration (spread (config s) newConfig) ->
    let s1 := final (calculateComprehensiveSimilarity selector el s) in
    let again := calculateComprehensiveSimilarity selector el s1 in
    let s2 := final (updateConfig newConfig s1) in
    result again = inr (rawScore (config s) selector el)
    /\ callsOf CalculateSemanticSimilarity (events again) = []
    /\ callsOf CalculateStructuralSimilarity (events again) = []
    /\ result (updateConfig newConfig s1) = inr tt
    /\ config s2 = spread (config s) newConfig
    /\ result (calculateComprehensiveSimilarity selector el s2)
       = inr (rawScore (config s) selector el).
Proof.
  intros s newConfig Hmiss Hvalid s1 again s2. subst s1 again s2.
  rewrite (calculateComprehensiveSimilarity_miss _ _ _ Hmiss).
  cbn [final].
  set (s1 := mkInstance _ _ _ _).
  assert (similarityCache s1 !! cacheKey selector (identifierOf el)
          = Some (rawScore (config s) selector el)) as Hhit
    by apply lookup_insert_eq.
  rewrite (calculateComprehensiveSimilarity_hit _ _ _ _ Hhit).
  cbn [result events]. split; [reflexivity|].
  split; [reflexivity|]. split; [reflexivity|].
  pose proof (validateConfig_spec (setConfig (spread (config s1) newConfig) s1))
    as (Hfinal & _ & _ & Hok).
  assert (final (updateConfig newConfig s1)
          = setConfig (spread (config s1) newConfig) s1) as Hs2 by exact Hfinal.
  split; [apply Hok; exact Hvalid|].
  rewrite Hs2. split; [reflexivity|].
  now rewrite (calculateComprehensiveSimilarity_hit _ _
                 (setConfig (spread (config s1) newConfig) s1) _ Hhit).
Qed.

End SimilarityCache.

Lemma cached_score_survives_updateConfig_witness :
  result (calculateComprehensiveSimilarity driftedSelector elementB
            (final (updateConfig
                      (mkPartial None (Some 0) None None None None None None)
                      (final (calculateComprehensiveSimilarity driftedSelector
                                elementB fixtureInstance)))))
  = inr (rawScore (config fixtureInstance) driftedSelector elementB).
Proof.
  assert (validConfiguration
            (spread (config fixtureInstance)
               (mkPartial None (Some 0) None None None None None None)))
    as Hvalid by (vm_compute; intuition discriminate).
  exact (proj2 (proj2 (proj2 (proj2 (proj2
           (cached_score_survives_updateConfig driftedSelector elementB
              fixtureInstance
              (mkPartial None (Some 0) None None None None None None)
              eq_refl Hvalid)))))).
Defined.

(** X13: the key of the similarity cache joins selector and identifier with
    a hyphen, so it does not tell [(a-b, c)] from [(a, b-c)]: once a score
    is cached for the selector [a-b] and a snapshot, the selector [a] is
    served that score for any snapshot whose identifier is [b-] followed by
    the identifier of the first. *)
Theorem cache_key_is_ambiguous :
  forall (a b : string) (el1 el2 : SerializedElement) (s : Instance),
    identifierOf el2 = b ++ "-" ++ identifierOf el1 ->
    similarityCache s !! cacheKey (a ++ "-" ++ b) (identifierOf el1) = None ->
    let s1 := final (calculateComprehensiveSimilarity (a ++ "-" ++ b) el1 s) in
    cacheKey a (identifierOf el2) = cacheKey (a ++ "-" ++ b) (identifierOf el1)
    /\ result (calculateComprehensiveSimilarity a el2 s1)
       = inr (rawScore (config s) (a ++ "-" ++ b) el1).
Proof.
  intros a b el1 el2 s Hid Hmiss s1. subst s1.
  assert (cacheKey a (identifierOf el2)
          = cacheKey (a ++ "-" ++ b) (identifierOf el1)) as Hkey.
  { unfold cacheKey. rewrite Hid.
    rewrite <- !append_assoc. reflexivity. }
  split; [exact Hkey|].
  rewrite (calculateComprehensiveSimilarity_miss _ _ _ Hmiss). cbn [final].
  set (s1 := mkInstance _ _ _ _).
  assert (similarityCache s1 !! cacheKey a (identifierOf el2)
          = Some (rawScore (config s) (a ++ "-" ++ b) el1)) as Hhit
    by (rewrite Hkey; apply lookup_insert_eq).
  now rewrite (calculateComprehensiveSimilarity_hit _ _ _ _ Hhit).
Qed.

Lemma cache_key_is_ambiguous_witness :
  result (calculateComprehensiveSimilarity "app" customElement
            (final (calculateComprehensiveSimilarity "app-nav"
                      containerSnapshot defaultInstance)))
  = inr (rawScore (config defaultInstance) "app-nav" containerSnapshot).
Proof.
  exact (proj2 (cache_key_is_ambiguous "app" "nav" containerSnapshot
                  customElement defaultInstance eq_refl eq_refl)).
Defined.


(** ** Identifier and synthesized selector *)

Section Strings.

Lemma append_nonempty_r (a b : string) : b <> EmptyString -> a ++ b <> EmptyString.
Proof.
  intros Hb. destruct a as [|c a]; [exact Hb|].
  rewrite append_cons. discriminate.
Qed.

Lemma append_nonempty_l (a b : string) : a <> EmptyString -> a ++ b <> EmptyString.
Proof.
  intros Ha. destruct a as [|c a]; [congruence|].
  rewrite append_cons. discriminate.
Qed.

Lemma startsWith_app (a b : string) : Js.startsWith (a ++ b) a = true.
Proof.
  induction a as [|c a IH]; [reflexivity|].
  rewrite append_cons. cbn. now rewrite Ascii.eqb_refl.
Qed.

Lemma orElse_nonempty (a b : string) :
  b <> EmptyString -> Js.orElse a b <> EmptyString.
Proof. intros Hb. destruct a; cbn; [exact Hb | discriminate]. Qed.

(** X14: the identifier of a snapshot is never empty and begins with the
    lower-cased tag name, or with [div] when the snapshot has no tag. *)
Theorem identifier_begins_with_tag :
  forall el : SerializedElement,
    identifierOf el <> EmptyString
    /\ Js.startsWith (identifierOf el)
         (Js.orElse (Js.toLowerCase (SerializedElement.tagName el)) "div")
       = true.
Proof.
  intros el. unfold identifierOf.
  set (tag := Js.orElse (Js.toLowerCase (SerializedElement.tagName el)) "div").
  assert (tag <> EmptyString) as Htag
    by (apply orElse_nonempty; discriminate).
  cbv zeta. destruct (Nat.ltb 0 _).
  - split; [now apply append_nonempty_l | apply startsWith_app].
  - split; [exact Htag | apply startsWith_refl].
Qed.

Lemma optimalSelector_nonempty (el : SerializedElement) :
  optimalSelector el <> EmptyString.
Proof.
  unfold optimalSelector. cbv zeta.
  repeat match goal with
         | |- (if ?b then _ else _) <> _ => destruct b
         end; try (rewrite append_cons; discriminate).
  destruct (if Js.truthy (SerializedElement.className el) then _ else _).
  - apply orElse_nonempty. discriminate.
  - apply append_nonempty_r. rewrite append_cons. discriminate.
Qed.

(** X15: the selector synthesized for any snapshot is never the empty
    string, and the strategies hand it to [page.locator] as it is. *)
Theorem synthesized_selector_is_never_empty :
  forall (page : PlaywrightPage) (el : SerializedElement) (s : Instance),
    exists healedSelector,
      result (heal page el s)
      = inr (Some (Locator (pageId page) healedSelector))
      /\ healedSelector = optimalSelector el
      /\ healedSelector <> EmptyString
      /\ In (PageLocator (pageId page) healedSelector) (events (heal page el s)).
Proof.
  intros page el s. exists (optimalSelector el).
  rewrite heal_outcome. cbn [result events].
  split; [reflexivity|]. split; [reflexivity|].
  split; [apply optimalSelector_nonempty | right; now left].
Qed.

Lemma takeUnquoted_run (v : string) (q : ascii) (rest : string) :
  hasQuote v = false -> isQuote q = true ->
  takeUnquoted (v ++ String q rest) = (v, String q rest).
Proof.
  intros Hv Hq. induction v as [|c v IH].
  - change (takeUnquoted (String q rest) = (EmptyString, String q rest)).
    cbn [takeUnquoted]. now rewrite Hq.
  - cbn [hasQuote] in Hv. apply orb_false_iff in Hv as (Hc & Hv).
    rewrite append_cons. cbn [takeUnquoted]. rewrite Hc, (IH Hv). reflexivity.
Qed.

Lemma matchAttribute_name (v : string) :
  v <> EmptyString -> hasQuote v = false ->
  matchAttribute "name=" ("[name=" ++ Js.quoted v ++ "]") = Some v.
Proof.
  intros Hne Hq.
  assert ("[name=" ++ Js.quoted v ++ "]"
          = String "[" ("name=" ++ String "034" (v ++ String "034" "]")))
    as ->.
  { unfold Js.quoted, Js.dquote.
    change ("[name=" ++ ?x) with (String "[" ("name=" ++ x)).
    do 2 f_equal. rewrite <- !append_assoc. reflexivity. }
  cbn [matchAttribute].
  change (Js.startsWith (String "[" _) "name=") with false. cbv iota.
  change ("name=" ++ ?x)
    with (String "n" (String "a" (String "m" (String "e" (String "=" x))))).
  cbn [matchAttribute Js.startsWith Ascii.eqb Bool.eqb andb String.length
       dropChars matchQuoted isQuote orb].
  rewrite takeUnquoted_run by (assumption || reflexivity).
  destruct v; [congruence | reflexivity].
Qed.

(** X16: a selector synthesized from the name of a snapshot is read back by
    the attribute bonus: for a snapshot without id that is not a link and
    whose name is not empty and has no quote, the synthesized selector is
    [[name="..."]], the name parsed out of it is the name of the snapshot,
    and the attribute bonus of that selector against the snapshot is at
    least 0.5. *)
Theorem name_selector_round_trip :
  forall el : SerializedElement,
    SerializedElement.id el = EmptyString ->
    SerializedElement.tagName el <> "a" ->
    SerializedElement.name el <> EmptyString ->
    hasQuote (SerializedElement.name el) = false ->
    optimalSelector el
    = "[name=" ++ Js.quoted (SerializedElement.name el) ++ "]"
    /\ matchAttribute "name=" (optimalSelector el)
       = Some (SerializedElement.name el)
    /\ 0.5 <= attributeBonus (optimalSelector el) el.
Proof.
  intros el Hid Htag Hname Hquote.
  assert (optimalSelector el
          = "[name=" ++ Js.quoted (SerializedElement.name el) ++ "]") as Hsel.
  { unfold optimalSelector. rewrite Hid. cbn [Js.truthy].
    destruct (String.eqb_spec (SerializedElement.tagName el) "a");
      [contradiction|]. cbn [andb].
    destruct (SerializedElement.name el); [congruence | reflexivity]. }
  split; [exact Hsel|]. rewrite Hsel.
  pose proof (matchAttribute_name _ Hname Hquote) as Hmatch.
  split; [exact Hmatch|].
  unfold attributeBonus. rewrite Hmatch, String.eqb_refl.
  assert (Js.includes
            ("[name=" ++ Js.quoted (SerializedElement.name el) ++ "]") "name="
          = true) as ->.
  { apply includes_spec.
    exists "[", (Js.quoted (SerializedElement.name el) ++ "]"). reflexivity. }
  assert (Js.truthy (SerializedElement.name el) = true) as ->
    by (destruct (SerializedElement.name el); [congruence | reflexivity]).
  cbn [andb]. cbv zeta.
  repeat match goal with
         | |- context [if ?b then _ else _] => destruct b
         | |- context [match ?o with Some _ => _ | None => _ end] => destruct o
         end; lra.
Qed.

Lemma name_selector_round_trip_witness :
  optimalSelector namedField = "[name=" ++ Js.quoted "email" ++ "]"
  /\ matchAttribute "name=" (optimalSelector namedField) = Some "email"
  /\ 0.5 <= attributeBonus (optimalSelector namedField) namedField.
Proof.
  apply (name_selector_round_trip namedField); try reflexivity; discriminate.
Defined.

End Strings.


(** ** A selector that is the identifier of a snapshot *)

Section Identity.

Lemma includes_refl (s : string) : Js.includes s s = true.
Proof.
  destruct s; cbn [Js.includes]; now rewrite startsWith_refl.
Qed.

Lemma splitWordsGo_nonempty (fuel : nat) (cur s : string) :
  Js.splitWordsGo fuel cur s <> [].
Proof.
  destruct fuel; cbn; [discriminate|].
  destruct s; [discriminate|].
  destruct (Js.isWordSeparator _); [discriminate|].
  revert cur a s. induction fuel as [|fuel IH]; intros cur a s;
    cbn; [discriminate|].
  destruct s; [discriminate|].
  destruct (Js.isWordSeparator _); [discriminate | apply IH].
Qed.

Lemma filter_all {A} (f : A -> bool) (l : list A) :
  (forall x, In x l -> f x = true) -> List.filter f l = l.
Proof.
  induction l as [|x l IH]; intros H; [reflexivity|].
  cbn. rewrite (H x (or_introl eq_refl)), IH; [reflexivity|].
  intros y Hy. apply H. now right.
Qed.

Lemma semanticScore_refl (text : string) : semanticScore text text == 1.
Proof.
  unfold semanticScore.
  set (words := Js.splitWords (Js.toLowerCase text)).
  assert (List.filter (wordMatches words) words = words) as ->.
  { apply filter_all. intros w Hw. unfold wordMatches.
    apply existsb_exists. exists w. split; [exact Hw|].
    now rewrite includes_refl. }
  assert (0 < List.length words)%nat as Hlen.
  { subst words. unfold Js.splitWords.
    pose proof (splitWordsGo_nonempty
                  (String.length (Js.toLowerCase text)) EmptyString
                  (Js.toLowerCase text)).
    destruct (Js.splitWordsGo _ _ _); [congruence | cbn; lia]. }
  apply Nat.ltb_lt in Hlen as Hb. rewrite Hb.
  unfold Qdiv. apply Qmult_inv_r.
  unfold ofNat. intros H.
  apply (Qeq_eq_bool) in H. revert H. unfold Qeq_bool. cbn.
  destruct (List.length words); [lia|]. cbn. discriminate.
Qed.

(** X17: when the original selector is exactly the identifier of a
    snapshot, the lexical and the semantic score of that snapshot are 1, so
    its score is 1 under the simple strategy and at least 0.6 under the
    complex strategy. *)
Theorem identifier_as_selector_scores_full :
  forall el : SerializedElement,
    let selector := identifierOf el in
    simpleScore selector el == 1
    /\ semanticScore selector (identifierOf el) == 1
    /\ 0.6 <= complexScore selector el.
Proof.
  intros el selector. subst selector.
  pose proof (semanticScore_refl (identifierOf el)) as Hsem.
  split; [|split; [exact Hsem|]].
  - unfold simpleScore, calculateLevenshteinSimilarity, substringBonus.
    rewrite startsWith_refl.
    destruct (identifierOf el) as [|c id] eqn:Hid; [reflexivity|].
    cbn [String.length Nat.eqb].
    rewrite baseSimilarity_refl. reflexivity.
  - unfold complexScore. rewrite Hsem.
    pose proof (structuralScore_bounds (identifierOf el) el) as (H0 & _).
    lra.
Qed.

End Identity.


(** ** Where a returned locator comes from *)

Section Provenance.

Variables (now : Z) (page : PlaywrightPage) (selector : string).
Variable s : Instance.

Hypothesis Hvalid : isValidSelector selector = true.
Hypothesis Hfails : waitForOk page selector = false.

Local Opaque Qltb Qle_bool calculateLevenshteinSimilarity semanticScore
  structuralScore typeBonus attributeBonus identifierOf optimalSelector
  universalScore rawScore contextualRelevance Qmin Qplus Qmult Qminus
  universalLoop.

Lemma findElement_rejected (strategy : Strategy) :
  getAllPageElements now page s
  = mkOutcome (inl HostRejection) s [PageEvaluate (pageId page)] ->
  result (findElement strategy now page selector s) = inl HostRejection.
Proof.
  intros Hrej.
  destruct strategy; cbn [findElement];
    unfold findElementUniversal, findElementSimple, findElementComplex,
      findElementAdvanced;
    rewrite Hvalid; cbn [negb];
    rewrite (bind_outcome _ _ _ _ _ _ (tryOriginal_outcome _ _ _)), Hfails;
    rewrite (bind_throw _ _ _ _ _ _ Hrej); reflexivity.
Qed.

Lemma findElementUniversal_from_candidates
    (allElements : list SerializedElement) :
  result (getAllPageElements now page s) = inr allElements ->
  exists choice,
    result (findElementUniversal now page selector s)
    = inr (healed page choice)
    /\ forall el, choice = Some el ->
         In el (slice0 allElements (maxElementsToAnalyze (config s))).
Proof.
  intros Hpage.
  destruct (extraction_outcome now page s allElements Hpage)
    as (s1 & ev & Hget & Hcfg & _).
  unfold findElementUniversal. rewrite Hvalid. cbn [negb].
  rewrite (bind_outcome _ _ _ _ _ _ (tryOriginal_outcome _ _ _)), Hfails.
  rewrite (bind_outcome _ _ _ _ _ _ Hget).
  rewrite (bind_outcome _ _ _ _ _ _ (getConfig_outcome _)).
  cbn [result final events]. rewrite Hcfg.
  set (cands := slice0 allElements (maxElementsToAnalyze (config s))).
  pose proof (universalLoop_spec selector cands None 0 0%nat s1) as Hloop.
  cbv zeta in Hloop.
  destruct (universalLoop selector cands None 0 0%nat s1)
    as [r s2 evl] eqn:Hrun.
  cbn [result final events] in Hloop.
  destruct Hloop as (([bm bs] & -> & Hkept) & _).
  rewrite (bind_outcome _ _ _ _ _ _ Hrun). cbn [fst] in *.
  exists bm. split; [destruct bm; reflexivity|].
  intros el ->. destruct Hkept as [? | (e & [= <-] & Hin)];
    [discriminate | exact Hin].
Qed.

End Provenance.

(** X18: a locator returned by any strategy is bound to the page it was
    asked for, and to the original selector or to the selector synthesized
    from one of the candidates, the snapshots of the page cut at
    [maxElementsToAnalyze]. *)
Theorem returned_locator_comes_from_a_candidate :
  forall (strategy : Strategy) (now : Z) (page : PlaywrightPage)
         (selector : string) (s : Instance) (locator : PlaywrightLocator),
    result (findElement strategy now page selector s) = inr (Some locator) ->
    locator = Locator (pageId page) selector
    \/ exists el,
         In el (slice0 (snapshotsOf now page s)
                       (maxElementsToAnalyze (config s)))
         /\ locator = Locator (pageId page) (optimalSelector el).
Proof.
  intros strategy now page selector s locator Hresult.
  destruct (isValidSelector selector) eqn:Hvalid.
  2:{ rewrite (proj1 (findElement_cases now page selector strategy s) Hvalid)
        in Hresult. discriminate. }
  destruct (waitForOk page selector) eqn:Hwait.
  { rewrite (findElement_resolving strategy now page selector s Hvalid Hwait)
      in Hresult. injection Hresult as <-. now left. }
  right. unfold snapshotsOf.
  destruct (getAllPageElements_cases now page s)
    as [Hrej | (allElements & s1 & ev & Hget & _)].
  { rewrite (findElement_rejected now page selector s Hvalid Hwait strategy Hrej)
      in Hresult. discriminate. }
  assert (result (getAllPageElements now page s) = inr allElements) as Hpage
    by (rewrite Hget; reflexivity).
  rewrite Hpage.
  assert (forall choice : option SerializedElement,
             inr (healed page choice)
             = (inr (Some locator) : Exn + option PlaywrightLocator) ->
             exists el, choice = Some el
                        /\ locator = Locator (pageId page) (optimalSelector el))
    as Hchoice.
  { intros [el|] [= <-]. now exists el. }
  destruct strategy; cbn [findElement] in Hresult.
  - destruct (findElementUniversal_from_candidates now page selector s
                Hvalid Hwait allElements Hpage) as (choice & Hr & Hin).
    rewrite Hr in Hresult. apply Hchoice in Hresult as (el & -> & ->).
    exists el. split; [now apply Hin | reflexivity].
  - rewrite (findElementSimple_result now page selector s allElements
               Hvalid Hwait Hpage) in Hresult.
    apply Hchoice in Hresult as (el & Hfind & ->).
    exists el. split; [|reflexivity].
    now apply find_some in Hfind as (Hin & _).
  - destruct (findElementComplex_result now page selector s allElements
                Hvalid Hwait Hpage)
      as (r & Hr & [(-> & _) | (el & -> & _ & before & after & Heq & _)]);
      rewrite Hr in Hresult; [discriminate|].
    injection Hresult as <-. exists el. split; [|reflexivity].
    rewrite Heq. apply in_or_app. right. now left.
  - rewrite (findElementAdvanced_result now page selector s allElements
               Hvalid Hwait Hpage) in Hresult.
    apply Hchoice in Hresult as (el & Hsel & ->).
    exists el. split; [|reflexivity].
    destruct (selectBest_spec
                (advancedScore selector (contextualOf page selector))
                (minSimilarityThreshold (config s))
                (slice0 allElements (maxElementsToAnalyze (config s))) None 0)
      as [(Heq & _) | (e & Heq & _ & _ & before & after & Hsplit & _)];
      rewrite Heq in Hsel; cbn [fst] in Hsel; [discriminate|].
    injection Hsel as ->. rewrite Hsplit. apply in_or_app. right. now left.
Qed.

Lemma returned_locator_comes_from_a_candidate_witness :
  Locator 3 "#b-e-g-h-j-k" = Locator (pageId fixturePage) driftedSelector
  \/ exists el,
       In el (slice0 (snapshotsOf 0 fixturePage fixtureInstance)
                     (maxElementsToAnalyze (config fixtureInstance)))
       /\ Locator 3 "#b-e-g-h-j-k"
          = Locator (pageId fixturePage) (optimalSelector el).
Proof.
  exact (returned_locator_comes_from_a_candidate Universal 0%Z fixturePage
           driftedSelector fixtureInstance (Locator 3 "#b-e-g-h-j-k") eq_refl).
Defined.


(** ** What the strategies leave unchanged *)

Section Frame.

Variables (now : Z) (page : PlaywrightPage) (selector : string).

Local Opaque Qltb Qle_bool calculateLevenshteinSimilarity semanticScore
  structuralScore typeBonus attributeBonus identifierOf optimalSelector
  universalScore rawScore contextualRelevance Qmin Qplus Qmult Qminus.

Lemma keepsScores_refl (s : Instance) : keepsScores s s.
Proof. split; reflexivity. Qed.

Lemma keepsScores_trans (a b c : Instance) :
  keepsScores a b -> keepsScores b c -> keepsScores a c.
Proof. intros (? & ?) (? & ?). split; congruence. Qed.

Lemma growsScores_trans (a b c : Instance) :
  growsScores a b -> growsScores b c -> growsScores a c.
Proof.
  intros (? & ?) (? & ?). split; [congruence | etrans; eassumption].
Qed.

Lemma keepsScores_grows (a b : Instance) : keepsScores a b -> growsScores a b.
Proof. intros (? & Hsim). split; [assumption | now rewrite Hsim]. Qed.

Lemma simpleLoop_keeps (cands : list SerializedElement) :
  forall s : Instance,
    keepsScores s (final (simpleLoop page selector cands s)).
Proof.
  induction cands as [|el rest IH]; intros s; [apply keepsScores_refl|].
  cbn [simpleLoop].
  rewrite (bind_outcome _ _ _ _ _ _ (getElementIdentifier_outcome _ _)).
  rewrite (bind_outcome _ _ _ _ _ _ (getConfig_outcome _)).
  cbn [result final events config setDebugElementCount].
  destruct (Qle_bool _ _).
  - rewrite heal_outcome. split; reflexivity.
  - eapply keepsScores_trans; [|apply IH]. split; reflexivity.
Qed.

Lemma complexLoop_keeps (els : list SerializedElement) :
  forall (candidates : list MatchCandidate) (s : Instance),
    keepsScores s (final (complexLoop selector els candidates s)).
Proof.
  induction els as [|el rest IH]; intros candidates s;
    [apply keepsScores_refl|].
  cbn [complexLoop].
  rewrite (bind_outcome _ _ _ _ _ _ (calculateSemanticSimilarity_outcome _ _ _)).
  rewrite (bind_outcome _ _ _ _ _ _ (calculateStructuralSimilarity_outcome _ _ _)).
  rewrite (bind_outcome _ _ _ _ _ _ (getConfig_outcome _)).
  cbn [result final events config setDebugElementCount].
  destruct (Qle_bool _ _);
    (eapply keepsScores_trans; [|apply IH]; split; reflexivity).
Qed.

Lemma advancedLoop_keeps (contextual cands : list SerializedElement) :
  forall (bestMatch : option SerializedElement) (bestScore : Q)
         (s : Instance),
    keepsScores s
      (final (advancedLoop selector contextual cands bestMatch bestScore s)).
Proof.
  induction cands as [|el rest IH]; intros bestMatch bestScore s;
    [apply keepsScores_refl|].
  cbn [advancedLoop].
  rewrite (bind_outcome _ _ _ _ _ _ (calculatePatternSimilarity_outcome _ _ _ _)).
  rewrite (bind_outcome _ _ _ _ _ _ (calculateContextualRelevance_outcome _ _ _)).
  rewrite (bind_outcome _ _ _ _ _ _ (getConfig_outcome _)).
  cbn [result final events config setDebugElementCount].
  destruct (Qltb _ _ && Qle_bool _ _);
    (eapply keepsScores_trans; [|apply IH]; split; reflexivity).
Qed.

Lemma calculateComprehensiveSimilarity_grows (el : SerializedElement)
    (s : Instance) :
  exists v s1 ev,
    calculateComprehensiveSimilarity selector el s = mkOutcome (inr v) s1 ev
    /\ growsScores s s1.
Proof.
  destruct (similarityCache s !! cacheKey selector (identifierOf el))
    as [cached|] eqn:Hcache.
  - rewrite (calculateComprehensiveSimilarity_hit _ _ _ _ Hcache).
    eexists _, _, _. split; [reflexivity|]. split; reflexivity.
  - rewrite (calculateComprehensiveSimilarity_miss _ _ _ Hcache).
    eexists _, _, _. split; [reflexivity|]. split; [reflexivity|].
    cbn. now apply insert_subseteq.
Qed.

Lemma universalLoop_grows (cands : list SerializedElement) :
  forall (bestMatch : option SerializedElement) (bestScore : Q)
         (elementCount : nat) (s : Instance),
    growsScores s
      (final (universalLoop selector cands bestMatch bestScore elementCount s)).
Proof.
  induction cands as [|el rest IH]; intros bestMatch bestScore elementCount s.
  - split; reflexivity.
  - cbn [universalLoop].
    destruct (calculateComprehensiveSimilarity_grows el s)
      as (v & s1 & ev & Hrun & Hgrow).
    rewrite (bind_outcome _ _ _ _ _ _ Hrun).
    rewrite (bind_outcome _ _ _ _ _ _ (getConfig_outcome _)).
    cbn [result final events].
    rewrite (bind_outcome _ _ _ _ _ _ (debugIdentifier_outcome _ _ _)).
    cbn [result final events].
    eapply growsScores_trans; [exact Hgrow|].
    destruct (Qltb _ _ && Qle_bool _ _);
      (eapply growsScores_trans; [|apply IH];
       destruct (debug (config s1) && Nat.ltb elementCount 5);
       split; reflexivity).
Qed.

Lemma getAllPageElements_keeps (s : Instance) :
  keepsScores s (final (getAllPageElements now page s)).
Proof.
  destruct (getAllPageElements_cases now page s)
    as [-> | (allElements & s1 & ev & -> & Hcfg & Hsim & _)];
    split; cbn; congruence.
Qed.

Lemma bind_final {A B} (m : M A) (f : A -> M B) (s : Instance) :
  final (bind m f s)
  = match result (m s) with
    | inl _ => final (m s)
    | inr a => final (f a (final (m s)))
    end.
Proof. unfold bind. destruct (result (m s)); reflexivity. Qed.

Lemma healed_keeps (choice : option SerializedElement) (s : Instance) :
  final (match choice with
         | Some bestMatch => heal page bestMatch
         | None => ret None
         end s) = s.
Proof. destruct choice; reflexivity. Qed.

(** X19: no strategy changes the configuration of the instance, and none
    removes or overwrites an entry of the similarity cache; the simple, the
    complex and the advanced strategy leave the similarity cache exactly as
    it was. *)
Theorem strategies_keep_configuration_and_scores :
  forall (strategy : Strategy) (s : Instance),
    let after := final (findElement strategy now page selector s) in
    config after = config s
    /\ similarityCache s ⊆ similarityCache after
    /\ (strategy <> Universal -> similarityCache after = similarityCache s).
Proof.
  intros strategy s after.
  assert (growsScores s after
          /\ (strategy <> Universal -> keepsScores s after)) as (Hgrow & Hkeep).
  2:{ destruct Hgrow as (Hcfg & Hsub). repeat split; try assumption.
      intros Hne. now apply Hkeep. }
  subst after.
  destruct (isValidSelector selector) eqn:Hvalid.
  2:{ rewrite (proj1 (findElement_cases now page selector strategy s) Hvalid).
      split; [split; reflexivity | intros _; apply keepsScores_refl]. }
  destruct (waitForOk page selector) eqn:Hwait.
  { rewrite (findElement_resolving strategy now page selector s Hvalid Hwait).
    split; [split; reflexivity | intros _; apply keepsScores_refl]. }
  pose proof (getAllPageElements_keeps s) as Hget.
  destruct strategy; cbn [findElement];
    unfold findElementUniversal, findElementSimple, findElementComplex,
      findElementAdvanced;
    rewrite Hvalid; cbn [negb];
    rewrite (bind_outcome _ _ _ _ _ _ (tryOriginal_outcome _ _ _)), Hwait;
    cbn [final]; rewrite bind_final;
    destruct (result (getAllPageElements now page s)) as [e|allElements];
    try (split; [now apply keepsScores_grows | now intros _]).
  - split; [|congruence].
    eapply growsScores_trans; [apply keepsScores_grows, Hget|].
    rewrite (bind_outcome _ _ _ _ _ _ (getConfig_outcome _)). cbn [final].
    rewrite bind_final.
    pose proof (universalLoop_grows
                  (slice0 allElements
                     (maxElementsToAnalyze
                        (config (final (getAllPageElements now page s)))))
                  None 0 0%nat (final (getAllPageElements now page s))) as Hloop.
    destruct (result (universalLoop _ _ _ _ _ _)); [exact Hloop|].
    now rewrite healed_keeps.
  - assert (keepsScores s
              (final ((cfg <- getConfig ;;
                       simpleLoop page selector
                         (slice0 allElements (maxElementsToAnalyze cfg)))
                        (final (getAllPageElements now page s))))) as H.
    { eapply keepsScores_trans; [exact Hget|].
      rewrite (bind_outcome _ _ _ _ _ _ (getConfig_outcome _)). cbn [final].
      apply simpleLoop_keeps. }
    split; [now apply keepsScores_grows | now intros _].
  - assert (keepsScores s
              (final ((cfg <- getConfig ;;
                       candidates <- complexLoop selector
                                       (slice0 allElements
                                          (maxElementsToAnalyze cfg)) [] ;;
                       match sortCandidates candidates with
                       | bestCandidate :: _ => heal page (element bestCandidate)
                       | [] => ret None
                       end)
                        (final (getAllPageElements now page s))))) as H.
    { eapply keepsScores_trans; [exact Hget|].
      rewrite (bind_outcome _ _ _ _ _ _ (getConfig_outcome _)). cbn [final].
      rewrite bind_final.
      pose proof (complexLoop_keeps
                    (slice0 allElements
                       (maxElementsToAnalyze
                          (config (final (getAllPageElements now page s)))))
                    [] (final (getAllPageElements now page s))) as Hloop.
      destruct (result (complexLoop _ _ _ _)) as [e|candidates];
        [exact Hloop|].
      destruct (sortCandidates candidates); exact Hloop. }
    split; [now apply keepsScores_grows | now intros _].
  - assert (keepsScores s
              (final ((contextualElements <- getContextualElements page selector ;;
                       cfg <- getConfig ;;
                       best <- advancedLoop selector contextualElements
                                 (slice0 allElements (maxElementsToAnalyze cfg))
                                 None 0 ;;
                       match fst best with
                       | Some bestMatch => heal page bestMatch
                       | None => ret None
                       end)
                        (final (getAllPageElements now page s))))) as H.
    { eapply keepsScores_trans; [exact Hget|].
      rewrite (bind_outcome _ _ _ _ _ _ (getContextualElements_value _ _ _)).
      rewrite (bind_outcome _ _ _ _ _ _ (getConfig_outcome _)). cbn [final].
      rewrite bind_final.
      pose proof (advancedLoop_keeps (contextualOf page selector)
                    (slice0 allElements
                       (maxElementsToAnalyze
                          (config (final (getAllPageElements now page s)))))
                    None 0 (final (getAllPageElements now page s))) as Hloop.
      destruct (result (advancedLoop _ _ _ _ _ _)); [exact Hloop|].
      now rewrite healed_keeps. }
    split; [now apply keepsScores_grows | now intros _].
Qed.

End Frame.


(** ** The universal strategy on a warm cache *)

Section Warm.

Variable selector : string.

Local Opaque Qltb Qle_bool calculateLevenshteinSimilarity semanticScore
  structuralScore typeBonus attributeBonus identifierOf optimalSelector
  universalScore rawScore contextualRelevance Qmin Qplus Qmult Qminus.

Lemma selectBest_ext (f g : SerializedElement -> Q) (threshold : Q)
    (cands : list SerializedElement) :
  (forall el, In el cands -> f el = g el) ->
  forall (bestMatch : option SerializedElement) (bestScore : Q),
    selectBest f threshold cands bestMatch bestScore
    = selectBest g threshold cands bestMatch bestScore.
Proof.
  induction cands as [|el rest IH]; intros Heq bestMatch bestScore;
    [reflexivity|].
  cbn [selectBest]. rewrite (Heq el (or_introl eq_refl)).
  destruct (Qltb _ _ && Qle_bool _ _); apply IH; intros x Hx; apply Heq;
    now right.
Qed.

Lemma universalLoop_warm (cands : list SerializedElement) :
  forall (bestMatch : option SerializedElement) (bestScore : Q)
         (elementCount : nat) (s1 : Instance),
    (forall el, In el cands ->
       is_Some (similarityCache s1 !! cacheKey selector (identifierOf el))) ->
    let o := universalLoop selector cands bestMatch bestScore elementCount s1 in
    result o
    = inr (selectBest (cachedScore s1 selector)
                      (minSimilarityThreshold (config s1))
                      cands bestMatch bestScore)
    /\ similarityCache (final o) = similarityCache s1.
Proof.
  induction cands as [|el rest IH];
    intros bestMatch bestScore elementCount s1 Hwarm; [split; reflexivity|].
  cbn [universalLoop selectBest]. cbv zeta.
  destruct (Hwarm el (or_introl eq_refl)) as (cached & Hhit).
  rewrite (bind_outcome _ _ _ _ _ _
             (calculateComprehensiveSimilarity_hit _ _ _ _ Hhit)).
  rewrite (bind_outcome _ _ _ _ _ _ (getConfig_outcome _)).
  cbn [result final events config setDebugElementCount].
  rewrite (bind_outcome _ _ _ _ _ _ (debugIdentifier_outcome _ _ _)).
  cbn [result final events].
  assert (cachedScore s1 selector el = cached) as ->
    by (unfold cachedScore; now rewrite Hhit).
  assert (forall next : Instance,
             config next = config s1 ->
             similarityCache next = similarityCache s1 ->
             forall bm bs n,
               result (universalLoop selector rest bm bs n next)
               = inr (selectBest (cachedScore s1 selector)
                                 (minSimilarityThreshold (config s1))
                                 rest bm bs)
               /\ similarityCache
                    (final (universalLoop selector rest bm bs n next))
                  = similarityCache s1) as Hnext.
  { intros next Hcfg Hsim bm bs n.
    destruct (IH bm bs n next) as (Hr & Hf).
    - intros x Hx. rewrite Hsim. apply Hwarm. now right.
    - rewrite Hr, Hf, Hcfg. split; [|exact Hsim].
      f_equal. apply selectBest_ext. intros x _.
      unfold cachedScore. now rewrite Hsim. }
  destruct (Qltb _ _ && Qle_bool _ _);
    (apply Hnext; destruct (debug (config s1) && Nat.ltb elementCount 5);
     reflexivity).
Qed.

Lemma universalLoop_fills (cands : list SerializedElement) :
  forall (bestMatch : option SerializedElement) (bestScore : Q)
         (elementCount : nat) (s1 : Instance),
    (forall el, In el cands ->
       similarityCache s1 !! cacheKey selector (identifierOf el) = None) ->
    List.NoDup (List.map identifierOf cands) ->
    forall el, In el cands ->
      similarityCache
        (final (universalLoop selector cands bestMatch bestScore
                              elementCount s1))
      !! cacheKey selector (identifierOf el)
      = Some (rawScore (config s1) selector el).
Proof.
  induction cands as [|c rest IH];
    intros bestMatch bestScore elementCount s1 Hfresh Hdistinct el Hin;
    [destruct Hin|].
  cbn [universalLoop].
  rewrite (bind_outcome _ _ _ _ _ _
             (calculateComprehensiveSimilarity_miss _ _ _
                (Hfresh c (or_introl eq_refl)))).
  rewrite (bind_outcome _ _ _ _ _ _ (getConfig_outcome _)).
  cbn [result final events config].
  rewrite (bind_outcome _ _ _ _ _ _ (debugIdentifier_outcome _ _ _)).
  cbn [result final events].
  inversion Hdistinct as [|? ? Hnotin Hrest]; subst.
  assert (forall next : Instance,
             config next = config s1 ->
             similarityCache next
             = <[cacheKey selector (identifierOf c)
                 := rawScore (config s1) selector c]> (similarityCache s1) ->
             forall bm bs n,
               similarityCache (final (universalLoop selector rest bm bs n next))
               !! cacheKey selector (identifierOf el)
               = Some (rawScore (config s1) selector el)) as Hnext.
  { intros next Hcfg Hsim bm bs n.
    destruct Hin as [<- | Hin].
    - destruct (universalLoop_grows selector rest bm bs n next) as (_ & Hsub).
      eapply lookup_weaken; [|exact Hsub].
      rewrite Hsim. apply lookup_insert_eq.
    - rewrite <- Hcfg. apply IH; [|exact Hrest|exact Hin].
      intros x Hx. rewrite Hsim, lookup_insert_ne; [apply Hfresh; now right|].
      unfold cacheKey. intros Heq.
      apply (inj (String.append selector)) in Heq.
      apply (inj (String.append "-")) in Heq.
      apply Hnotin. rewrite Heq. now apply in_map. }
  destruct (Qltb _ _ && Qle_bool _ _);
    (apply Hnext; destruct (debug (config s1) && Nat.ltb elementCount 5);
     reflexivity).
Qed.

Variables (now : Z) (page : PlaywrightPage).
Variables (s : Instance) (allElements : list SerializedElement).

Hypothesis Hvalid : isValidSelector selector = true.
Hypothesis Hfails : waitForOk page selector = false.
Hypothesis Hpage : result (getAllPageElements now page s) = inr allElements.

Lemma findElementUniversal_warm :
  (forall el,
     In el (slice0 allElements (maxElementsToAnalyze (config s))) ->
     is_Some (similarityCache s !! cacheKey selector (identifierOf el))) ->
  result (findElementUniversal now page selector s)
  = inr (healed page
           (fst (selectBest (cachedScore s selector)
                            (minSimilarityThreshold (config s))
                            (slice0 allElements (maxElementsToAnalyze (config s)))
                            None 0))).
Proof.
  intros Hwarm.
  destruct (extraction_outcome now page s allElements Hpage)
    as (s1 & ev & Hget & Hcfg & Hsim).
  unfold findElementUniversal. rewrite Hvalid. cbn [negb].
  rewrite (bind_outcome _ _ _ _ _ _ (tryOriginal_outcome _ _ _)), Hfails.
  rewrite (bind_outcome _ _ _ _ _ _ Hget).
  rewrite (bind_outcome _ _ _ _ _ _ (getConfig_outcome _)).
  cbn [result final events]. rewrite Hcfg.
  set (cands := slice0 allElements (maxElementsToAnalyze (config s))) in *.
  destruct (universalLoop_warm cands None 0 0%nat s1) as (Hloop & _).
  { intros el Hel. rewrite Hsim. now apply Hwarm. }
  rewrite Hcfg in Hloop.
  rewrite (selectBest_ext (cachedScore s1 selector) (cachedScore s selector))
    in Hloop by (intros el _; unfold cachedScore; now rewrite Hsim).
  destruct (universalLoop selector cands None 0 0%nat s1)
    as [r s2 evl] eqn:Hrun.
  cbn [result] in Hloop. subst r.
  rewrite (bind_outcome _ _ _ _ _ _ Hrun).
  destruct (selectBest _ _ _ _ _) as [[bm|] bs]; reflexivity.
Qed.

Lemma findElementUniversal_fills :
  (forall el,
     In el (slice0 allElements (maxElementsToAnalyze (config s))) ->
     similarityCache s !! cacheKey selector (identifierOf el) = None) ->
  List.NoDup (List.map identifierOf
                (slice0 allElements (maxElementsToAnalyze (config s)))) ->
  let s1 := final (findElementUniversal now page selector s) in
  config s1 = config s
  /\ forall el,
       In el (slice0 allElements (maxElementsToAnalyze (config s))) ->
       similarityCache s1 !! cacheKey selector (identifierOf el)
       = Some (rawScore (config s) selector el).
Proof.
  intros Hfresh Hdistinct.
  destruct (extraction_outcome now page s allElements Hpage)
    as (s1 & ev & Hget & Hcfg & Hsim).
  unfold findElementUniversal. rewrite Hvalid. cbn [negb].
  rewrite (bind_outcome _ _ _ _ _ _ (tryOriginal_outcome _ _ _)), Hfails.
  rewrite (bind_outcome _ _ _ _ _ _ Hget).
  rewrite (bind_outcome _ _ _ _ _ _ (getConfig_outcome _)).
  cbn [result final events]. rewrite Hcfg.
  set (cands := slice0 allElements (maxElementsToAnalyze (config s))) in *.
  pose proof (universalLoop_fills cands None 0 0%nat s1) as Hfill.
  rewrite Hsim, Hcfg in Hfill. specialize (Hfill Hfresh Hdistinct).
  pose proof (universalLoop_grows selector cands None 0 0%nat s1) as (Hc & _).
  pose proof (universalLoop_spec selector cands None 0 0%nat s1) as Hspec.
  cbv zeta in Hspec. destruct Hspec as ((v & Hv & _) & _).
  rewrite bind_final, Hv, healed_keeps.
  split; [congruence | exact Hfill].
Qed.

End Warm.

(** X20: when the original selector fails and every candidate has an entry
    in the similarity cache, the universal strategy ranks the candidates by
    the cached values as they are, without the clamp: it answers with no
    match when no candidate has a positive cached value that reaches the
    threshold, and otherwise with the locator synthesized from the earliest
    of the candidates with the highest cached value. *)
Theorem universal_ranks_by_cached_scores :
  forall (now : Z) (page : PlaywrightPage) (selector : string)
         (s : Instance) (allElements : list SerializedElement),
    isValidSelector selector = true ->
    waitForOk page selector = false ->
    result (getAllPageElements now page s) = inr allElements ->
    let cands := slice0 allElements (maxElementsToAnalyze (config s)) in
    let score := cachedScore s selector in
    (forall el, In el cands ->
       is_Some (similarityCache s !! cacheKey selector (identifierOf el))) ->
    exists r,
      result (findElementUniversal now page selector s) = inr r
      /\ choosesEarliestBest page score
           (fun el => 0 < score el
                      /\ minSimilarityThreshold (config s) <= score el)
           cands r.
Proof.
  intros now page selector s allElements Hvalid Hfails Hpage cands score Hwarm.
  eexists. split.
  - now apply (findElementUniversal_warm selector now page s allElements).
  - apply selected_chooses.
Qed.

Lemma universal_ranks_by_cached_scores_witness :
  exists r,
    result (findElementUniversal 1 twoFields searchSelector
              (final (findElementUniversal 0 twoFields searchSelector
                        defaultInstance)))
    = inr r
    /\ choosesEarliestBest twoFields
         (cachedScore (final (findElementUniversal 0 twoFields searchSelector
                                defaultInstance)) searchSelector)
         (fun el =>
            0 < cachedScore (final (findElementUniversal 0 twoFields
                                      searchSelector defaultInstance))
                  searchSelector el
            /\ minSimilarityThreshold
                 (config (final (findElementUniversal 0 twoFields
                                   searchSelector defaultInstance)))
               <= cachedScore (final (findElementUniversal 0 twoFields
                                        searchSelector defaultInstance))
                    searchSelector el)
         [idField; searchField] r.
Proof.
  apply (universal_ranks_by_cached_scores 1%Z twoFields searchSelector
           (final (findElementUniversal 0 twoFields searchSelector
                     defaultInstance))
           [idField; searchField] eq_refl eq_refl eq_refl).
  intros el Hel. vm_compute in Hel.
  destruct Hel as [<- | [<- | []]]; vm_compute; eauto.
Defined.


(** ** One snapshot cache entry per page *)

Section PerPage.

Lemma getAllPageElements_other (now : Z) (page : PlaywrightPage)
    (s : Instance) (other : nat) :
  other <> pageId page ->
  domCache (final (getAllPageElements now page s)) !! other
  = domCache s !! other.
Proof.
  intros Hne.
  unfold getAllPageElements, bind, get, modify, put, emit, ret, throw. cbn.
  destruct (domCache s !! pageId page) as [cached|];
    [destruct (Qltb _ _); [reflexivity|]|];
    (destruct (evaluateElements page); cbn; [|reflexivity];
     now rewrite lookup_insert_ne).
Qed.

Lemma getAllPageElements_depends (later : Z) (page : PlaywrightPage)
    (s s' : Instance) :
  config s' = config s ->
  domCache s' !! pageId page = domCache s !! pageId page ->
  result (getAllPageElements later page s')
  = result (getAllPageElements later page s)
  /\ events (getAllPageElements later page s')
     = events (getAllPageElements later page s).
Proof.
  intros Hcfg Hdom.
  unfold getAllPageElements, bind, get, modify, put, emit, ret, throw. cbn.
  rewrite Hdom, Hcfg.
  destruct (domCache s !! pageId page) as [cached|];
    [destruct (Qltb _ _); [split; reflexivity|]|];
    (destruct (evaluateElements page); split; reflexivity).
Qed.

(** X22: the snapshot cache holds one entry per page: extracting or serving
    the snapshots of one page neither changes the entry of another page nor
    what a later call for that other page returns and whether it evaluates
    the page. *)
Theorem snapshot_cache_is_per_page :
  forall (now later : Z) (page other : PlaywrightPage) (s : Instance),
    pageId other <> pageId page ->
    let s1 := final (getAllPageElements now page s) in
    domCache s1 !! pageId other = domCache s !! pageId other
    /\ result (getAllPageElements later other s1)
       = result (getAllPageElements later other s)
    /\ events (getAllPageElements later other s1)
       = events (getAllPageElements later other s).
Proof.
  intros now later page other s Hne s1.
  pose proof (getAllPageElements_other now page s (pageId other) Hne) as Hdom.
  split; [exact Hdom|].
  apply getAllPageElements_depends; [|exact Hdom].
  apply getAllPageElements_keeps.
Qed.

Lemma snapshot_cache_is_per_page_witness :
  result (getAllPageElements 1 twoFields
            (final (getAllPageElements 0 fixturePage defaultInstance)))
  = inr [idField; searchField].
Proof.
  destruct (snapshot_cache_is_per_page 0%Z 1%Z fixturePage twoFields
              defaultInstance ltac:(discriminate)) as (_ & Hresult & _).
  rewrite Hresult. reflexivity.
Defined.

End PerPage.


(** * Properties of the engine in binary64 arithmetic *)

Import Floats.

#[local] Set Warnings "-inexact-float".

(** ** Comparison of doubles *)

Section FloatOrder.

Import Binary64.
Local Open Scope float_scope.

Ltac compare_cases :=
  repeat match goal with
  | H : context [Pos.compare_cont Eq ?a ?b] |- _ =>
      change (Pos.compare_cont Eq a b) with (Pos.compare a b) in H
  | |- context [Pos.compare_cont Eq ?a ?b] =>
      change (Pos.compare_cont Eq a b) with (Pos.compare a b)
  end;
  repeat match goal with
  | H : context [Z.compare ?a ?b] |- _ =>
      destruct (Z.compare_spec a b); cbn in H; try discriminate
  | |- context [Z.compare ?a ?b] =>
      destruct (Z.compare_spec a b); cbn; try discriminate
  | H : context [Pos.compare ?a ?b] |- _ =>
      destruct (Pos.compare_spec a b); cbn in H; try discriminate
  | |- context [Pos.compare ?a ?b] =>
      destruct (Pos.compare_spec a b); cbn; try discriminate
  end;
  subst; try reflexivity; try discriminate; try lia.

Lemma SFcompare_antisym (x y : spec_float) (c : comparison) :
  SFcompare x y = Some c -> SFcompare y x = Some (CompOpp c).
Proof.
  destruct x as [[]|[]| |[] m1 e1], y as [[]|[]| |[] m2 e2]; cbn;
    intros H; try discriminate; injection H as <-; try reflexivity;
    f_equal; compare_cases.
Qed.

Lemma SFcompare_trans (x y z : spec_float) (c : comparison) :
  SFcompare x y = Some c -> SFcompare y z = Some c -> SFcompare x z = Some c.
Proof.
  destruct x as [[]|[]| |[] m1 e1], y as [[]|[]| |[] m2 e2],
           z as [[]|[]| |[] m3 e3]; cbn;
    intros H1 H2; try discriminate;
    injection H1 as <-; try (injection H2 as H2); f_equal;
    try reflexivity; try discriminate; compare_cases.
Qed.

Lemma SFcompare_Eq_l (x y z : spec_float) (c : comparison) :
  SFcompare x y = Some Eq -> SFcompare y z = Some c -> SFcompare x z = Some c.
Proof.
  destruct x as [[]|[]| |[] m1 e1], y as [[]|[]| |[] m2 e2],
           z as [[]|[]| |[] m3 e3]; cbn;
    intros H1 H2; try discriminate; try assumption;
    injection H1 as H1; try discriminate;
    compare_cases; assumption.
Qed.

Lemma SFcompare_some (x y : spec_float) :
  x <> S754_nan -> y <> S754_nan -> exists c, SFcompare x y = Some c.
Proof.
  destruct x as [[]|[]| |[] m1 e1], y as [[]|[]| |[] m2 e2]; cbn;
    intros Hx Hy; try congruence; eauto.
Qed.

Lemma SFcompare_nan (x y : spec_float) (c : comparison) :
  SFcompare x y = Some c -> x <> S754_nan /\ y <> S754_nan.
Proof.
  destruct x as [[]|[]| |[] m1 e1], y as [[]|[]| |[] m2 e2]; cbn;
    intros H; try discriminate; split; discriminate.
Qed.

Lemma SFcompare_refl (x : spec_float) :
  x <> S754_nan -> SFcompare x x = Some Eq.
Proof.
  destruct x as [[]|[]| |[] m e]; cbn; intros H; try congruence;
    now rewrite Z.compare_refl, Pos.compare_cont_refl.
Qed.

Lemma isNaN_spec (x : float) : isNaN x = false <-> Prim2SF x <> S754_nan.
Proof.
  unfold isNaN. rewrite FloatAxioms.eqb_spec. unfold SFeqb. split.
  - intros H Hnan. rewrite Hnan in H. discriminate.
  - intros H. now rewrite (SFcompare_refl _ H).
Qed.

Lemma ltb_compare (x y : float) :
  (x <? y) = true <-> SFcompare (Prim2SF x) (Prim2SF y) = Some Lt.
Proof.
  rewrite FloatAxioms.ltb_spec. unfold SFltb.
  destruct (SFcompare _ _) as [[]|]; intuition congruence.
Qed.

Lemma leb_compare (x y : float) :
  (x <=? y) = true
  <-> SFcompare (Prim2SF x) (Prim2SF y) = Some Lt
      \/ SFcompare (Prim2SF x) (Prim2SF y) = Some Eq.
Proof.
  rewrite FloatAxioms.leb_spec. unfold SFleb.
  destruct (SFcompare _ _) as [[]|]; intuition congruence.
Qed.

Lemma ltb_trans (x y z : float) :
  (x <? y) = true -> (y <? z) = true -> (x <? z) = true.
Proof. rewrite !ltb_compare. apply SFcompare_trans. Qed.

Lemma SFcompare_Eq_r (x y z : spec_float) (c : comparison) :
  SFcompare x y = Some c -> SFcompare y z = Some Eq -> SFcompare x z = Some c.
Proof.
  intros H1 H2. apply SFcompare_antisym in H1, H2.
  pose proof (SFcompare_Eq_l _ _ _ _ H2 H1) as H.
  apply SFcompare_antisym in H. now rewrite CompOpp_involutive in H.
Qed.

Lemma ltb_leb_trans (x y z : float) :
  (x <? y) = true -> (y <=? z) = true -> (x <? z) = true.
Proof.
  rewrite !ltb_compare, leb_compare. intros H1 [H2 | H2].
  - exact (SFcompare_trans _ _ _ _ H1 H2).
  - exact (SFcompare_Eq_r _ _ _ _ H1 H2).
Qed.

Lemma leb_ltb_trans (x y z : float) :
  (x <=? y) = true -> (y <? z) = true -> (x <? z) = true.
Proof.
  rewrite !ltb_compare, leb_compare. intros [H1 | H1] H2.
  - exact (SFcompare_trans _ _ _ _ H1 H2).
  - exact (SFcompare_Eq_l _ _ _ _ H1 H2).
Qed.

Lemma ltb_leb (x y : float) : (x <? y) = true -> (x <=? y) = true.
Proof. rewrite ltb_compare, leb_compare. auto. Qed.

Lemma leb_trans (x y z : float) :
  (x <=? y) = true -> (y <=? z) = true -> (x <=? z) = true.
Proof.
  rewrite !leb_compare. intros [H1 | H1] [H2 | H2].
  - left. exact (SFcompare_trans _ _ _ _ H1 H2).
  - left. exact (SFcompare_Eq_r _ _ _ _ H1 H2).
  - left. exact (SFcompare_Eq_l _ _ _ _ H1 H2).
  - right. exact (SFcompare_Eq_l _ _ _ _ H1 H2).
Qed.

Lemma ltb_asym (x y : float) : (x <? y) = true -> (y <=? x) = false.
Proof.
  rewrite ltb_compare. intros H. apply SFcompare_antisym in H.
  destruct (y <=? x) eqn:Hle; [|reflexivity].
  apply leb_compare in Hle as [Hle | Hle]; rewrite H in Hle; discriminate.
Qed.

Lemma leb_asym (x y : float) : (x <=? y) = true -> (y <? x) = false.
Proof.
  intros H. destruct (y <? x) eqn:Hlt; [|reflexivity].
  apply ltb_asym in Hlt. congruence.
Qed.

(** Two numbers that are not NaN compare one way or the other. *)
Lemma leb_total (x y : float) :
  isNaN x = false -> isNaN y = false -> (x <? y) = false -> (y <=? x) = true.
Proof.
  rewrite !isNaN_spec. intros Hx Hy Hlt.
  destruct (SFcompare_some _ _ Hx Hy) as (c & Hc).
  apply leb_compare. pose proof (SFcompare_antisym _ _ _ Hc) as Hop.
  destruct c; cbn in Hop; auto.
  apply ltb_compare in Hc. congruence.
Qed.

(** What compares is not NaN. *)
Lemma leb_ordered (x y : float) :
  (x <=? y) = true -> isNaN x = false /\ isNaN y = false.
Proof.
  rewrite leb_compare, !isNaN_spec.
  intros [H | H]; exact (SFcompare_nan _ _ _ H).
Qed.

Lemma leb_false_nan (x y : float) :
  isNaN x = true -> (x <=? y) = false /\ (y <=? x) = false
                    /\ (x <? y) = false /\ (y <? x) = false.
Proof.
  intros Hx.
  assert (forall a b, (a <=? b) = true -> isNaN a = false /\ isNaN b = false)
    as Hle by apply leb_ordered.
  repeat split.
  - destruct (x <=? y) eqn:H; [|reflexivity]. apply Hle in H as []. congruence.
  - destruct (y <=? x) eqn:H; [|reflexivity]. apply Hle in H as []. congruence.
  - destruct (x <? y) eqn:H; [|reflexivity].
    apply ltb_leb, Hle in H as []. congruence.
  - destruct (y <? x) eqn:H; [|reflexivity].
    apply ltb_leb, Hle in H as []. congruence.
Qed.

End FloatOrder.

(** ** The sign of a difference of doubles *)

Section Subtraction.

Local Open Scope Z_scope.

Lemma digits2_pos_bounds (m : positive) :
  2 ^ (Zpos (digits2_pos m) - 1) <= Zpos m < 2 ^ Zpos (digits2_pos m).
Proof.
  induction m as [m IH|m IH|]; cbn [digits2_pos].
  - rewrite Pos2Z.inj_succ.
    replace (Z.succ (Zpos (digits2_pos m)) - 1) with (Z.succ (Zpos (digits2_pos m) - 1)) by lia.
    rewrite !Z.pow_succ_r by lia. lia.
  - rewrite Pos2Z.inj_succ.
    replace (Z.succ (Zpos (digits2_pos m)) - 1) with (Z.succ (Zpos (digits2_pos m) - 1)) by lia.
    rewrite !Z.pow_succ_r by lia. lia.
  - cbn. lia.
Qed.

Lemma iter_xO_value (m d : positive) :
  Zpos (Pos.iter xO m d) = Zpos m * 2 ^ Zpos d.
Proof.
  revert m. induction d as [|d IH] using Pos.peano_ind; intros m.
  - cbn. lia.
  - rewrite Pos.iter_succ, Pos2Z.inj_succ, Z.pow_succ_r by lia.
    rewrite Pos2Z.inj_xO, IH. lia.
Qed.

(** The mantissa aligned on an exponent that is not greater. *)
Lemma shl_align_value (m : positive) (e e' : Z) :
  e' <= e -> Zpos (fst (shl_align m e e')) = Zpos m * 2 ^ (e - e').
Proof.
  intros Hle. unfold shl_align.
  destruct (e' - e) as [|d|d] eqn:Hd; cbn [fst]; try lia.
  - replace (e - e') with 0 by lia. cbn. lia.
  - rewrite iter_xO_value. f_equal. f_equal. lia.
Qed.

Lemma shl_align_exponent (m : positive) (e e' : Z) :
  snd (shl_align m e e') = Z.min e e'.
Proof.
  unfold shl_align. destruct (e' - e) as [|d|d] eqn:Hd; cbn [snd]; lia.
Qed.

Lemma shl_align_digits (m : positive) (e e' : Z) :
  Zpos (digits2_pos (fst (shl_align m e e'))) + snd (shl_align m e e')
  = Zpos (digits2_pos m) + e.
Proof.
  unfold shl_align. destruct (e' - e) as [|d|d] eqn:Hd; cbn [fst snd]; try lia.
  assert (forall k n, Zpos (digits2_pos (Pos.iter xO n k))
                      = Zpos (digits2_pos n) + Zpos k) as H.
  { intros k. induction k as [|k IH] using Pos.peano_ind; intros n.
    - cbn. lia.
    - rewrite Pos.iter_succ. cbn [digits2_pos]. rewrite Pos2Z.inj_succ, IH. lia. }
  rewrite H. lia.
Qed.

Lemma shr_1_m (r : shr_record) :
  0 <= shr_m r -> shr_m (shr_1 r) = Z.div2 (shr_m r).
Proof.
  destruct r as [[|[p|p|]|p] b s]; cbn; intros H; try reflexivity; lia.
Qed.

Lemma iter_shr_1_m (p : positive) :
  forall r : shr_record,
    0 <= shr_m r ->
    shr_m (iter_pos shr_1 p r) = Z.shiftr (shr_m r) (Zpos p).
Proof.
  assert (forall r, 0 <= shr_m r -> 0 <= shr_m (shr_1 r)) as Hnn.
  { intros r H. rewrite shr_1_m by exact H. rewrite Z.div2_nonneg. exact H. }
  induction p as [p IH|p IH|]; intros r Hr; cbn [iter_pos].
  - assert (0 <= shr_m (shr_1 r)) as H1 by auto.
    assert (0 <= shr_m (iter_pos shr_1 p (shr_1 r))) as H2
      by (rewrite IH by exact H1; now apply Z.shiftr_nonneg).
    rewrite (IH _ H2), (IH _ H1), (shr_1_m _ Hr), Z.div2_spec.
    rewrite !Z.shiftr_shiftr by lia. f_equal. lia.
  - assert (0 <= shr_m (iter_pos shr_1 p r)) as H2
      by (rewrite IH by exact Hr; now apply Z.shiftr_nonneg).
    rewrite (IH _ H2), (IH _ Hr).
    rewrite !Z.shiftr_shiftr by lia. f_equal. lia.
  - rewrite shr_1_m by exact Hr. now rewrite Z.div2_spec.
Qed.

(** A shift by fewer positions than the mantissa has digits leaves a
    positive mantissa. *)
Lemma shr_positive (m : positive) (l : location) (e n : Z) :
  n < Zpos (digits2_pos m) ->
  0 < shr_m (fst (shr (shr_record_of_loc (Zpos m) l) e n)).
Proof.
  intros Hn.
  assert (shr_m (shr_record_of_loc (Zpos m) l) = Zpos m) as Hm
    by (destruct l as [|[]]; reflexivity).
  unfold shr. destruct n as [|p|p]; cbn [fst]; rewrite ?Hm; try lia.
  rewrite iter_shr_1_m by (rewrite Hm; lia).
  rewrite Hm, Z.shiftr_div_pow2 by lia.
  apply Z.div_str_pos. split; [apply Z.pow_pos_nonneg; lia|].
  pose proof (digits2_pos_bounds m) as (Hlow & _).
  eapply Z.le_trans; [|exact Hlow].
  apply Z.pow_le_mono_r; lia.
Qed.

Lemma shr_exponent (r : shr_record) (e n : Z) :
  e <= snd (shr r e n).
Proof. unfold shr. destruct n; cbn [snd]; lia. Qed.

Lemma shr_fexp_positive (m : positive) (l : location) (e : Z) :
  emin <= e ->
  0 < shr_m (fst (shr_fexp prec emax (Zpos m) e l))
  /\ emin <= snd (shr_fexp prec emax (Zpos m) e l).
Proof.
  intros He. unfold shr_fexp. split.
  - apply shr_positive. cbn [Zdigits2]. unfold fexp.
    pose proof (Pos2Z.is_pos (digits2_pos m)). unfold prec in *. lia.
  - eapply Z.le_trans; [exact He | apply shr_exponent].
Qed.

Lemma round_nearest_even_positive (m : Z) (l : location) :
  0 < m -> 0 < round_nearest_even m l.
Proof.
  intros H. destruct l as [|[]]; cbn; try destruct (Z.even m); lia.
Qed.

(** Rounding a positive mantissa at an exponent that is not below the least
    one never gives zero: the result is a finite number or an infinity of
    the given sign. *)
Lemma binary_round_aux_sign (s : bool) (m : positive) (e : Z) (l : location) :
  emin <= e ->
  SFltb (S754_zero false) (binary_round_aux prec emax s (Zpos m) e l) = negb s
  /\ SFltb (binary_round_aux prec emax s (Zpos m) e l) (S754_zero false) = s.
Proof.
  intros He. unfold binary_round_aux.
  destruct (shr_fexp_positive m l e He) as (Hm1 & He1).
  destruct (shr_fexp prec emax (Zpos m) e l) as [mrs' e'].
  cbn [fst snd] in Hm1, He1.
  pose proof (round_nearest_even_positive (shr_m mrs')
                (loc_of_shr_record mrs') Hm1) as Hm2.
  destruct (round_nearest_even (shr_m mrs') (loc_of_shr_record mrs'))
    as [|m2|m2]; try lia.
  destruct (shr_fexp_positive m2 loc_Exact e' He1) as (Hm3 & _).
  destruct (shr_fexp prec emax (Zpos m2) e' loc_Exact) as [mrs'' e''].
  cbn [fst] in Hm3.
  destruct (shr_m mrs'') as [|m3|m3]; try lia.
  destruct (e'' <=? emax - prec), s; split; reflexivity.
Qed.

Lemma binary_round_sign (s : bool) (m : positive) (e : Z) :
  emin <= e ->
  SFltb (S754_zero false) (binary_round prec emax s m e) = negb s
  /\ SFltb (binary_round prec emax s m e) (S754_zero false) = s.
Proof.
  intros He. unfold binary_round.
  pose proof (shl_align_exponent m e (fexp prec emax (Zpos (digits2_pos m) + e)))
    as Hexp.
  destruct (shl_align m e (fexp prec emax (Zpos (digits2_pos m) + e)))
    as [mz ez].
  cbn [snd] in Hexp. apply binary_round_aux_sign.
  subst ez. unfold fexp. lia.
Qed.

(** What validity says of a finite number. *)
Lemma bounded_digits (m : positive) (e : Z) :
  bounded prec emax m e = true ->
  emin <= e
  /\ Zpos (digits2_pos m) <= prec
  /\ (emin < e -> Zpos (digits2_pos m) = prec).
Proof.
  unfold bounded, canonical_mantissa, fexp. intros H.
  apply andb_true_iff in H as (H & _). apply Z.eqb_eq in H. lia.
Qed.

(** The aligned mantissas of two valid finite numbers compare as the
    numbers do. *)
Lemma aligned_compare (m1 m2 : positive) (e1 e2 : Z) :
  bounded prec emax m1 e1 = true ->
  bounded prec emax m2 e2 = true ->
  let ez := Z.min e1 e2 in
  (Zpos (fst (shl_align m1 e1 ez)) ?= Zpos (fst (shl_align m2 e2 ez)))
  = match e1 ?= e2 with
    | Lt => Lt
    | Gt => Gt
    | Eq => Pos.compare_cont Eq m1 m2
    end.
Proof.
  intros H1 H2 ez.
  apply bounded_digits in H1 as (Hmin1 & Hd1 & Hn1).
  apply bounded_digits in H2 as (Hmin2 & Hd2 & Hn2).
  rewrite !shl_align_value by (unfold ez; lia).
  pose proof (digits2_pos_bounds m1) as (Hl1 & Hu1).
  pose proof (digits2_pos_bounds m2) as (Hl2 & Hu2).
  assert (forall d, d <= prec -> 2 ^ d <= 2 ^ prec) as Hmono
    by (intros d Hd; apply Z.pow_le_mono_r; lia).
  assert (forall k, 0 < k -> 2 * 2 ^ (prec - 1) <= 2 ^ (prec - 1) * 2 ^ k)
    as Hshift.
  { intros k Hk. rewrite <- (Z.pow_1_r 2) at 1.
    rewrite <- !Z.pow_add_r by (unfold prec; lia).
    apply Z.pow_le_mono_r; unfold prec; lia. }
  assert (2 * 2 ^ (prec - 1) = 2 ^ prec) as Hdouble by reflexivity.
  destruct (Z.compare_spec e1 e2) as [Heq | Hlt | Hgt].
  - subst e2. unfold ez. rewrite Z.min_id, Z.sub_diag. cbn [Z.pow].
    rewrite !Z.mul_1_r. reflexivity.
  - unfold ez. rewrite Z.min_l by lia. rewrite Z.sub_diag. cbn [Z.pow].
    rewrite Z.mul_1_r. apply Z.compare_lt_iff.
    specialize (Hn2 ltac:(lia)). rewrite Hn2 in Hl2.
    specialize (Hshift (e2 - e1) ltac:(lia)).
    specialize (Hmono _ Hd1).
    assert (2 ^ (prec - 1) * 2 ^ (e2 - e1) <= Zpos m2 * 2 ^ (e2 - e1)).
    { apply Z.mul_le_mono_nonneg_r; [apply Z.pow_nonneg; lia | exact Hl2]. }
    lia.
  - unfold ez. rewrite Z.min_r by lia. rewrite Z.sub_diag. cbn [Z.pow].
    rewrite Z.mul_1_r. apply Z.compare_gt_iff.
    specialize (Hn1 ltac:(lia)). rewrite Hn1 in Hl1.
    specialize (Hshift (e1 - e2) ltac:(lia)).
    specialize (Hmono _ Hd2).
    assert (2 ^ (prec - 1) * 2 ^ (e1 - e2) <= Zpos m1 * 2 ^ (e1 - e2)).
    { apply Z.mul_le_mono_nonneg_r; [apply Z.pow_nonneg; lia | exact Hl1]. }
    lia.
Qed.

Lemma binary_normalize_sign (d e : Z) :
  emin <= e ->
  SFltb (S754_zero false) (binary_normalize prec emax d e false) = (0 <? d).
Proof.
  intros He. destruct d as [|p|p]; cbn [binary_normalize].
  - reflexivity.
  - now destruct (binary_round_sign false p e He) as (-> & _).
  - now destruct (binary_round_sign true p e He) as (-> & _).
Qed.

(** The sign of a difference: [y - x] is positive exactly when [x < y]. *)
Lemma SFsub_positive (x y : spec_float) :
  valid_binary x = true -> valid_binary y = true ->
  SFltb (S754_zero false) (SF64sub y x) = SFltb x y.
Proof.
  destruct x as [[]|[]| |sx mx ex], y as [[]|[]| |sy my ey];
    try (intros; reflexivity);
    try (destruct sx; intros; reflexivity);
    try (destruct sy; intros; reflexivity).
  cbn [valid_binary]. intros Hx Hy.
  unfold SF64sub, SFsub.
  rewrite binary_normalize_sign
    by (apply bounded_digits in Hx as (? & _);
        apply bounded_digits in Hy as (? & _); lia).
  pose proof (aligned_compare my mx ey ex Hy Hx) as Hcmp. cbv zeta in Hcmp.
  unfold SFltb, SFcompare.
  set (Y := Zpos (fst (shl_align my ey (Z.min ey ex)))) in *.
  set (X := Zpos (fst (shl_align mx ex (Z.min ey ex)))) in *.
  assert (0 < X /\ 0 < Y) as (HX & HY) by (unfold X, Y; lia).
  clearbody X Y.
  change (Pos.compare_cont Eq my mx) with (Pos.compare my mx) in Hcmp.
  change (Pos.compare_cont Eq mx my) with (Pos.compare mx my).
  apply eq_true_iff_eq. rewrite Z.ltb_lt.
  destruct (Z.compare_spec Y X) as [HYX | HYX | HYX];
    destruct sx, sy; cbn [cond_Zopp];
    destruct (Z.compare_spec ey ex), (Z.compare_spec ex ey),
             (Pos.compare_spec my mx), (Pos.compare_spec mx my);
    try lia; cbv beta iota in Hcmp |- *; try discriminate Hcmp;
    split; intros; try discriminate; try reflexivity; try lia.
Qed.

End Subtraction.

(** [y - x > 0] exactly when [x < y], for all doubles. *)
Lemma sub_positive (x y : float) : (0 <? y - x)%float = (x <? y)%float.
Proof.
  rewrite !FloatAxioms.ltb_spec, FloatAxioms.sub_spec.
  change (Prim2SF 0) with (S754_zero false).
  apply SFsub_positive; apply Prim2SF_valid.
Qed.

(** ** The methods, run on an instance *)

Section Runs.

Import Binary64.
Local Open Scope float_scope.

Lemma bind_run {A B} (m : M A) (f : A -> M B) (s s1 : Instance) (a : A) :
  m s = (inr a, s1) -> bind m f s = f a s1.
Proof. unfold bind. now intros ->. Qed.

Lemma getConfig_run (s : Instance) : getConfig s = (inr (config s), s).
Proof. reflexivity. Qed.

Lemma getElementIdentifier_run (el : SerializedElement) (s : Instance) :
  getElementIdentifier el s
  = (inr (identifierOf el), setDebugElementCount (S (debugElementCount s)) s).
Proof. reflexivity. Qed.

Lemma calculateSemanticSimilarity_run (selector : string)
    (el : SerializedElement) (s : Instance) :
  calculateSemanticSimilarity selector el s
  = (inr (semanticScore selector (identifierOf el)),
     setDebugElementCount (S (debugElementCount s)) s).
Proof. reflexivity. Qed.

Lemma calculateStructuralSimilarity_run (selector : string)
    (el : SerializedElement) (s : Instance) :
  calculateStructuralSimilarity selector el s
  = (inr (structuralScore selector el), s).
Proof. reflexivity. Qed.

Lemma calculatePatternSimilarity_run (selector : string)
    (el : SerializedElement) (contextual : list SerializedElement)
    (s : Instance) :
  calculatePatternSimilarity selector el contextual s
  = (inr (mathMin (calculateLevenshteinSimilarity selector (identifierOf el)
                   + (if Nat.ltb 0 (List.length contextual) then 0.2 else 0)) 1),
     setDebugElementCount (S (debugElementCount s)) s).
Proof. reflexivity. Qed.

Lemma calculateContextualRelevance_run (el : SerializedElement)
    (contextual : list SerializedElement) (s : Instance) :
  calculateContextualRelevance el contextual s
  = (inr (contextualRelevance el contextual), s).
Proof. reflexivity. Qed.

Lemma heal_run (page : PlaywrightPage) (el : SerializedElement) (s : Instance) :
  heal page el s = (inr (healed page (Some el)), s).
Proof. reflexivity. Qed.

Lemma tryOriginal_run (page : PlaywrightPage) (selector : string)
    (s : Instance) :
  tryOriginal page selector s
  = (inr (if waitForOk page selector
          then Some (Locator (pageId page) selector) else None), s).
Proof.
  unfold tryOriginal, tryCatch. destruct (waitForOk page selector); reflexivity.
Qed.

Lemma getContextualElements_run (page : PlaywrightPage) (selector : string)
    (s : Instance) :
  getContextualElements page selector s = (inr (contextualOf page selector), s).
Proof.
  unfold getContextualElements, contextualOf, tryCatch.
  destruct (evaluateContext page selector); reflexivity.
Qed.

(** An extraction that returns leaves the configuration and the similarity
    cache as they were. *)
Lemma getAllPageElements_returns (now : Z) (page : PlaywrightPage)
    (s : Instance) (allElements : list SerializedElement) :
  fst (getAllPageElements now page s) = inr allElements ->
  exists s1,
    getAllPageElements now page s = (inr allElements, s1)
    /\ config s1 = config s
    /\ similarityCache s1 = similarityCache s.
Proof.
  unfold getAllPageElements, bind, get, ret, throw, modify, put.
  destruct (domCache s !! pageId page) as [cached|];
    [destruct (_ <? _)|];
    destruct (evaluateElements page); cbn; intros H;
    try discriminate; injection H as <-; eauto.
Qed.

(** The composite score on a miss: the clamped score is returned and the
    score before the clamp is stored. *)
Lemma calculateComprehensiveSimilarity64_miss (selector : string)
    (el : SerializedElement) (s : Instance) :
  similarityCache s !! cacheKey selector (identifierOf el) = None ->
  calculateComprehensiveSimilarity selector el s
  = (inr (universalScore (config s) selector el),
     mkInstance (config s) (domCache s)
       (<[cacheKey selector (identifierOf el) := rawScore (config s) selector el]>
          (similarityCache s))
       (S (S (debugElementCount s)))).
Proof.
  intros Hmiss. unfold calculateComprehensiveSimilarity.
  rewrite (bind_run _ _ _ _ _ (getElementIdentifier_run _ _)).
  unfold bind at 1, get at 1.
  cbn [similarityCache setDebugElementCount]. rewrite Hmiss.
  rewrite (bind_run _ _ _ _ _ (calculateSemanticSimilarity_run _ _ _)).
  rewrite (bind_run _ _ _ _ _ (calculateStructuralSimilarity_run _ _ _)).
  rewrite (bind_run _ _ _ _ _ (getConfig_run _)).
  reflexivity.
Qed.

(** The composite score on a hit: the stored value, as it is. *)
Lemma calculateComprehensiveSimilarity64_hit (selector : string)
    (el : SerializedElement) (s : Instance) (cached : float) :
  similarityCache s !! cacheKey selector (identifierOf el) = Some cached ->
  calculateComprehensiveSimilarity selector el s
  = (inr cached, setDebugElementCount (S (debugElementCount s)) s).
Proof.
  intros Hhit. unfold calculateComprehensiveSimilarity.
  rewrite (bind_run _ _ _ _ _ (getElementIdentifier_run _ _)).
  unfold bind at 1, get at 1.
  cbn [similarityCache setDebugElementCount]. now rewrite Hhit.
Qed.

Lemma debugIdentifier_run (b : bool) (el : SerializedElement) (s : Instance) :
  exists n,
    when b (_ <- getElementIdentifier el ;; ret tt)%js64 s
    = (inr tt, setDebugElementCount n s).
Proof.
  destruct b; cbn.
  - eexists. reflexivity.
  - exists (debugElementCount s). now destruct s.
Qed.

End Runs.

(** ** The selection loop *)

Section Selection64.

Import Binary64.
Local Open Scope float_scope.

Variable score : SerializedElement -> float.
Variable threshold : float.

(** The loop keeps the best match it started with when no candidate beats
    the best score and reaches the threshold; otherwise it ends on the
    earliest of the best candidates. *)
Lemma selectBest64_spec (candidates : list SerializedElement) :
  forall (bestMatch : option SerializedElement) (bestScore : float),
    let r := selectBest score threshold candidates bestMatch bestScore in
    (r = (bestMatch, bestScore)
     /\ forall c, In c candidates ->
                  (bestScore <? score c) && (threshold <=? score c) = false)
    \/ exists el,
         r = (Some el, score el)
         /\ (threshold <=? score el) = true
         /\ (bestScore <? score el) = true
         /\ earliestBest score candidates el.
Proof.
  induction candidates as [|c rest IH]; intros bestMatch bestScore.
  - left. split; [reflexivity | intros c []].
  - cbn [selectBest]. cbv zeta.
    destruct ((bestScore <? score c) && (threshold <=? score c)) eqn:Hupdate.
    + apply andb_true_iff in Hupdate as (Hgt & Hthr).
      destruct (IH (Some c) (score c))
        as [(-> & Hrest) | (el & -> & Hel & Hbeats & Hbest)].
      * right. exists c. repeat split; try assumption.
        exists [], rest. repeat split; [intros x [] |].
        intros x Hx. specialize (Hrest x Hx).
        destruct (score c <? score x) eqn:Hlt; [|reflexivity].
        rewrite (ltb_leb _ _ (leb_ltb_trans _ _ _ Hthr Hlt)) in Hrest.
        discriminate.
      * right. exists el. repeat split; try assumption.
        { exact (ltb_trans _ _ _ Hgt Hbeats). }
        destruct Hbest as (before & after & -> & Hbefore & Hafter).
        exists (c :: before), after. repeat split; [|exact Hafter].
        intros x [<- | Hx]; [now apply ltb_asym | now apply Hbefore].
    + destruct (IH bestMatch bestScore)
        as [(-> & Hrest) | (el & -> & Hel & Hbeats & Hbest)].
      * left. split; [reflexivity|]. intros x [<- | Hx]; auto.
      * right. exists el. repeat split; try assumption.
        destruct Hbest as (before & after & -> & Hbefore & Hafter).
        exists (c :: before), after. repeat split; [|exact Hafter].
        intros x [<- | Hx]; [|now apply Hbefore].
        destruct (score el <=? score c) eqn:Hle; [|reflexivity].
        rewrite (ltb_leb_trans _ _ _ Hbeats Hle),
                (leb_trans _ _ _ Hel Hle) in Hupdate.
        discriminate.
Qed.

(** From no match and the score 0, the loop accepts the candidates with a
    positive score that reaches the threshold. *)
Lemma selected_answers (page : PlaywrightPage)
    (cands : list SerializedElement) :
  answers page (fun el => (0 <? score el) && (threshold <=? score el))
    (earliestBest score) cands
    (healed page (fst (selectBest score threshold cands None 0))).
Proof.
  destruct (selectBest64_spec cands None 0)
    as [(-> & Hnone) | (el & -> & Hthr & Hpos & Hbest)]; cbn [fst healed].
  - left. split; [reflexivity | exact Hnone].
  - right. exists el. rewrite Hthr, Hpos. auto.
Qed.

End Selection64.


(** ** The four strategies once the original selector has failed *)

Section Healing64.

Import Binary64.
Local Open Scope float_scope.

Variables (now : Z) (page : PlaywrightPage) (selector : string).
Variables (s : Instance) (allElements : list SerializedElement).

Hypothesis Hvalid : isValidSelector selector = true.
Hypothesis Hfails : waitForOk page selector = false.
Hypothesis Hpage : fst (getAllPageElements now page s) = inr allElements.

Local Opaque identifierOf optimalSelector calculateLevenshteinSimilarity
  semanticScore structuralScore typeBonus attributeBonus contextualRelevance
  universalScore rawScore mathMin mathMax.

Lemma simpleLoop64_finds (cands : list SerializedElement) :
  forall s1 : Instance,
    fst (simpleLoop page selector cands s1)
    = inr (healed page
             (List.find (fun el => toNumber (minSimilarityThreshold (config s1))
                                   <=? simpleScore selector el)
                        cands)).
Proof.
  induction cands as [|el rest IH]; intros s1; [reflexivity|].
  cbn [simpleLoop List.find].
  rewrite (bind_run _ _ _ _ _ (getElementIdentifier_run _ _)).
  rewrite (bind_run _ _ _ _ _ (getConfig_run _)).
  cbn [config setDebugElementCount].
  unfold simpleScore at 1.
  destruct (_ <=? _); [reflexivity|].
  now rewrite IH.
Qed.

Lemma findElementSimple64_result :
  fst (findElementSimple now page selector s)
  = inr (healed page
           (List.find (fun el => toNumber (minSimilarityThreshold (config s))
                                 <=? simpleScore selector el)
                      (slice0 allElements (maxElementsToAnalyze (config s))))).
Proof.
  destruct (getAllPageElements_returns _ _ _ _ Hpage) as (s1 & Hget & Hcfg & _).
  unfold findElementSimple. rewrite Hvalid. cbn [negb].
  rewrite (bind_run _ _ _ _ _ (tryOriginal_run _ _ _)), Hfails.
  rewrite (bind_run _ _ _ _ _ Hget).
  rewrite (bind_run _ _ _ _ _ (getConfig_run _)).
  now rewrite simpleLoop64_finds, Hcfg.
Qed.

Lemma advancedLoop64_selects (contextual cands : list SerializedElement) :
  forall (bestMatch : option SerializedElement) (bestScore : float)
         (s1 : Instance),
    fst (advancedLoop selector contextual cands bestMatch bestScore s1)
    = inr (selectBest (advancedScore selector contextual)
                      (toNumber (minSimilarityThreshold (config s1)))
                      cands bestMatch bestScore).
Proof.
  induction cands as [|el rest IH]; intros bestMatch bestScore s1;
    [reflexivity|].
  cbn [advancedLoop selectBest].
  rewrite (bind_run _ _ _ _ _ (calculatePatternSimilarity_run _ _ _ _)).
  rewrite (bind_run _ _ _ _ _ (calculateContextualRelevance_run _ _ _)).
  rewrite (bind_run _ _ _ _ _ (getConfig_run _)).
  cbn [config setDebugElementCount].
  unfold advancedScore at 1 2 3.
  destruct ((_ <? _) && (_ <=? _)); now rewrite IH.
Qed.

Lemma findElementAdvanced64_result :
  fst (findElementAdvanced now page selector s)
  = inr (healed page
           (fst (selectBest (advancedScore selector (contextualOf page selector))
                            (toNumber (minSimilarityThreshold (config s)))
                            (slice0 allElements (maxElementsToAnalyze (config s)))
                            None 0))).
Proof.
  destruct (getAllPageElements_returns _ _ _ _ Hpage) as (s1 & Hget & Hcfg & _).
  unfold findElementAdvanced. rewrite Hvalid. cbn [negb].
  rewrite (bind_run _ _ _ _ _ (tryOriginal_run _ _ _)), Hfails.
  rewrite (bind_run _ _ _ _ _ Hget).
  rewrite (bind_run _ _ _ _ _ (getContextualElements_run _ _ _)).
  rewrite (bind_run _ _ _ _ _ (getConfig_run _)).
  rewrite Hcfg.
  pose proof (advancedLoop64_selects (contextualOf page selector)
                (slice0 allElements (maxElementsToAnalyze (config s)))
                None 0 s1) as Hloop.
  rewrite Hcfg in Hloop.
  destruct (advancedLoop selector (contextualOf page selector)
              (slice0 allElements (maxElementsToAnalyze (config s))) None 0 s1)
    as [r s2] eqn:Hrun.
  cbn [fst] in Hloop. subst r.
  rewrite (bind_run _ _ _ _ _ Hrun).
  destruct (selectBest _ _ _ _ _) as [[bm|] bs]; reflexivity.
Qed.

Lemma universalLoop64_selects (cands : list SerializedElement) :
  forall (bestMatch : option SerializedElement) (bestScore : float)
         (elementCount : nat) (s1 : Instance),
    (forall el, In el cands ->
       similarityCache s1 !! cacheKey selector (identifierOf el) = None) ->
    List.NoDup (List.map identifierOf cands) ->
    fst (universalLoop selector cands bestMatch bestScore elementCount s1)
    = inr (selectBest (universalScore (config s1) selector)
                      (toNumber (minSimilarityThreshold (config s1)))
                      cands bestMatch bestScore).
Proof.
  induction cands as [|el rest IH];
    intros bestMatch bestScore elementCount s1 Hfresh Hdistinct;
    [reflexivity|].
  cbn [universalLoop selectBest].
  rewrite (bind_run _ _ _ _ _
             (calculateComprehensiveSimilarity64_miss _ _ _
                (Hfresh el (or_introl eq_refl)))).
  rewrite (bind_run _ _ _ _ _ (getConfig_run _)).
  cbn [config].
  destruct (debugIdentifier_run
              (debugOn (config s1) && Nat.ltb elementCount 5) el
              (mkInstance (config s1) (domCache s1)
                 (<[cacheKey selector (identifierOf el)
                    := rawScore (config s1) selector el]> (similarityCache s1))
                 (S (S (debugElementCount s1))))) as (n & Hdebug).
  rewrite (bind_run _ _ _ _ _ Hdebug).
  inversion Hdistinct as [|? ? Hnotin Hrest]; subst.
  assert (forall bm bs k,
             fst (universalLoop selector rest bm bs k
                    (setDebugElementCount n
                       (mkInstance (config s1) (domCache s1)
                          (<[cacheKey selector (identifierOf el)
                             := rawScore (config s1) selector el]>
                             (similarityCache s1))
                          (S (S (debugElementCount s1))))))
             = inr (selectBest (universalScore (config s1) selector)
                               (toNumber (minSimilarityThreshold (config s1)))
                               rest bm bs)) as Hnext.
  { intros bm bs k. rewrite IH; [reflexivity| |exact Hrest].
    intros el' Hin. cbn [similarityCache setDebugElementCount].
    rewrite lookup_insert_ne; [now apply Hfresh; right|].
    unfold cacheKey. intros Heq.
    apply (inj (String.append selector)) in Heq.
    apply (inj (String.append "-")) in Heq.
    apply Hnotin. rewrite Heq. now apply in_map. }
  destruct ((_ <? _) && (_ <=? _)); apply Hnext.
Qed.

Lemma findElementUniversal64_result :
  (forall el, In el (slice0 allElements (maxElementsToAnalyze (config s))) ->
     similarityCache s !! cacheKey selector (identifierOf el) = None) ->
  List.NoDup (List.map identifierOf
           (slice0 allElements (maxElementsToAnalyze (config s)))) ->
  fst (findElementUniversal now page selector s)
  = inr (healed page
           (fst (selectBest (universalScore (config s) selector)
                            (toNumber (minSimilarityThreshold (config s)))
                            (slice0 allElements (maxElementsToAnalyze (config s)))
                            None 0))).
Proof.
  intros Hfresh Hdistinct.
  destruct (getAllPageElements_returns _ _ _ _ Hpage)
    as (s1 & Hget & Hcfg & Hsim).
  unfold findElementUniversal. rewrite Hvalid. cbn [negb].
  rewrite (bind_run _ _ _ _ _ (tryOriginal_run _ _ _)), Hfails.
  rewrite (bind_run _ _ _ _ _ Hget).
  rewrite (bind_run _ _ _ _ _ (getConfig_run _)).
  rewrite Hcfg.
  pose proof (universalLoop64_selects
                (slice0 allElements (maxElementsToAnalyze (config s)))
                None 0 0%nat s1) as Hloop.
  rewrite Hcfg, Hsim in Hloop. specialize (Hloop Hfresh Hdistinct).
  destruct (universalLoop selector
              (slice0 allElements (maxElementsToAnalyze (config s))) None 0
              0%nat s1) as [r s2] eqn:Hrun.
  cbn [fst] in Hloop. subst r.
  rewrite (bind_run _ _ _ _ _ Hrun).
  destruct (selectBest _ _ _ _ _) as [[bm|] bs]; reflexivity.
Qed.

End Healing64.

(** ** Configuration *)

Section Configuration64.

Import Binary64.
Local Open Scope float_scope.

Lemma validateConfig_run (s : Instance) :
  validateConfig s
  = (if outside 0 1 (minSimilarityThreshold (config s))
     then inl (Error "minSimilarityThreshold must be between 0 and 1")
     else if outside 1 1000 (maxElementsToAnalyze (config s))
     then inl (Error "maxElementsToAnalyze must be between 1 and 1000")
     else if outside 100 60000 (findTimeout (config s))
     then inl (Error "findTimeout must be between 100ms and 60000ms")
     else inr tt, s).
Proof.
  unfold validateConfig, outside.
  rewrite (bind_run _ _ _ _ _ (getConfig_run _)).
  repeat match goal with
         | |- context [if ?b then _ else _] => destruct b
         end; reflexivity.
Qed.

Lemma throws_validateConfig (s : Instance) :
  throwsConfigurationError (validateConfig s)
  <-> outside 0 1 (minSimilarityThreshold (config s)) = true
      \/ outside 1 1000 (maxElementsToAnalyze (config s)) = true
      \/ outside 100 60000 (findTimeout (config s)) = true.
Proof.
  unfold throwsConfigurationError. rewrite validateConfig_run. cbn [fst].
  destruct (outside 0 1 _), (outside 1 1000 _), (outside 100 60000 _);
    split;
    try (intros _; eexists; split; reflexivity);
    try (intros (e & He & _); discriminate);
    try (intros [H | [H | H]]; discriminate);
    auto.
Qed.

(** A value that fails the test is not within the range. *)
Lemma outside_not_inRange (lo hi : float) (v : JsValue) :
  outside lo hi v = true -> ~ inRange lo hi v.
Proof.
  unfold outside. intros H (x & -> & Hlo & Hhi). cbn [toNumber] in H.
  apply orb_true_iff in H as [H | H]; apply ltb_asym in H; congruence.
Qed.

(** A number other than NaN passes the test only when it is within the
    range. *)
Lemma inside_inRange (lo hi : float) (v : JsValue) :
  isNaN lo = false -> isNaN hi = false -> ordered v ->
  outside lo hi v = false -> inRange lo hi v.
Proof.
  unfold outside. intros Hlo Hhi (x & -> & Hx) H. cbn [toNumber] in H.
  apply orb_false_iff in H as (H1 & H2).
  exists x. repeat split; now apply leb_total.
Qed.

(** NaN and [undefined] pass the test of every range and are within none. *)
Lemma unordered_passes (lo hi : float) (v : JsValue) :
  isNaN (toNumber v) = true ->
  outside lo hi v = false /\ ~ inRange lo hi v.
Proof.
  intros Hnan. split.
  - unfold outside.
    destruct (leb_false_nan _ lo Hnan) as (_ & _ & -> & _).
    destruct (leb_false_nan _ hi Hnan) as (_ & _ & _ & ->). reflexivity.
  - intros (x & -> & Hle & _). cbn [toNumber] in Hnan.
    apply leb_ordered in Hle as (_ & Hx). congruence.
Qed.

Lemma throws_iff_invalid (s : Instance) :
  ordered (minSimilarityThreshold (config s)) ->
  ordered (maxElementsToAnalyze (config s)) ->
  ordered (findTimeout (config s)) ->
  throwsConfigurationError (validateConfig s)
  <-> ~ validConfiguration (config s).
Proof.
  intros H1 H2 H3. rewrite throws_validateConfig. unfold validConfiguration.
  split.
  - intros [H | [H | H]] (V1 & V2 & V3);
      eapply outside_not_inRange; eassumption.
  - intros Hinvalid.
    destruct (outside 0 1 _) eqn:O1; [now left|].
    destruct (outside 1 1000 _) eqn:O2; [now right; left|].
    destruct (outside 100 60000 _) eqn:O3; [now right; right|].
    exfalso. apply Hinvalid.
    repeat split; apply inside_inRange; auto.
Qed.

Lemma throws_invalid (s : Instance) :
  throwsConfigurationError (validateConfig s) ->
  ~ validConfiguration (config s).
Proof.
  rewrite throws_validateConfig. unfold validConfiguration.
  intros [H | [H | H]] (V1 & V2 & V3);
    eapply outside_not_inRange; eassumption.
Qed.

Lemma updateConfig_run (newConfig : PartialConfig) (s : Instance) :
  updateConfig newConfig s
  = validateConfig (setConfig (spread (config s) newConfig) s).
Proof. reflexivity. Qed.

End Configuration64.

(** ** What the strategies answer *)

Section Answers64.

Import Binary64.
Local Open Scope float_scope.

Lemma find_none {A} (f : A -> bool) (l : list A) :
  (forall x, In x l -> f x = false) -> List.find f l = None.
Proof.
  induction l as [|a l IH]; intros H; [reflexivity|].
  cbn [List.find]. rewrite (H a (or_introl eq_refl)).
  apply IH. intros x Hx. apply H. now right.
Qed.

End Answers64.

(** X6: when the original selector fails, the simple strategy answers with
    the locator synthesized from the first candidate, in document order,
    whose lexical score, computed in binary64, is at least the threshold,
    and with no match when there is none. *)
Theorem simple_returns_first_reaching_threshold :
  forall (now : Z) (page : PlaywrightPage) (selector : string)
         (s : Binary64.Instance) (allElements : list SerializedElement),
    isValidSelector selector = true ->
    waitForOk page selector = false ->
    fst (Binary64.getAllPageElements now page s) = inr allElements ->
    fst (Binary64.findElementSimple now page selector s)
    = inr (healed page
             (List.find
                (fun el =>
                   PrimFloat.leb
                     (Binary64.toNumber
                        (Binary64.minSimilarityThreshold (Binary64.config s)))
                     (Binary64.simpleScore selector el))
                (Binary64.slice0 allElements
                   (Binary64.maxElementsToAnalyze (Binary64.config s))))).
Proof. exact findElementSimple64_result. Qed.

Lemma simple_returns_first_reaching_threshold_witness :
  fst (Binary64.findElementSimple 0 nearThresholdPage ".b"
         Binary64.defaultInstance)
  = inr None
  /\ fst (Binary64.findElementSimple 0 fixturePage driftedSelector
            Binary64.defaultInstance)
     = inr (Some (Locator 3 "#egh")).
Proof.
  split.
  - rewrite (simple_returns_first_reaching_threshold 0%Z nearThresholdPage
               ".b" Binary64.defaultInstance [snapshot "div" "ab" ""]
               eq_refl eq_refl eq_refl).
    vm_compute. reflexivity.
  - rewrite (simple_returns_first_reaching_threshold 0%Z fixturePage
               driftedSelector Binary64.defaultInstance [elementA; elementB]
               eq_refl eq_refl eq_refl).
    vm_compute. reflexivity.
Defined.

(** X7: when the original selector fails, no candidate has an entry in the
    similarity cache and the candidates have pairwise different identifiers,
    the universal strategy ranks the candidates by the clamped composite
    score, computed in binary64: it answers with no match when no candidate
    has a positive score that is at least the threshold, and otherwise with
    the locator synthesized from the earliest of the best candidates. *)
Theorem universal_returns_earliest_best :
  forall (now : Z) (page : PlaywrightPage) (selector : string)
         (s : Binary64.Instance) (allElements : list SerializedElement),
    isValidSelector selector = true ->
    waitForOk page selector = false ->
    fst (Binary64.getAllPageElements now page s) = inr allElements ->
    let cands := Binary64.slice0 allElements
                   (Binary64.maxElementsToAnalyze (Binary64.config s)) in
    let score := Binary64.universalScore (Binary64.config s) selector in
    let threshold :=
      Binary64.toNumber (Binary64.minSimilarityThreshold (Binary64.config s)) in
    (forall el, In el cands ->
       Binary64.similarityCache s !! cacheKey selector (identifierOf el) = None) ->
    List.NoDup (List.map identifierOf cands) ->
    exists r,
      fst (Binary64.findElementUniversal now page selector s) = inr r
      /\ Binary64.answers page
           (fun el => PrimFloat.ltb 0 (score el)
                      && PrimFloat.leb threshold (score el))
           (Binary64.earliestBest score) cands r.
Proof.
  intros now page selector s allElements Hvalid Hfails Hpage cands score
    threshold Hfresh Hdistinct.
  eexists. split.
  - now apply (findElementUniversal64_result now page selector s allElements).
  - apply selected_answers.
Qed.

Lemma universal_returns_earliest_best_witness :
  fst (Binary64.findElementUniversal 0 nearTiePage "x-y"
         Binary64.defaultInstance)
  = inr (Some (Locator 7 "abcd-ef"))
  /\ Binary64.answers nearTiePage
       (fun el =>
          PrimFloat.ltb 0
            (Binary64.universalScore Binary64.DEFAULT_CONFIG "x-y" el)
          && PrimFloat.leb 0.1
               (Binary64.universalScore Binary64.DEFAULT_CONFIG "x-y" el))
       (Binary64.earliestBest
          (Binary64.universalScore Binary64.DEFAULT_CONFIG "x-y"))
       [snapshot "qqqqx" "" ""; snapshot "abcd-ef" "" ""]
       (Some (Locator 7 "abcd-ef")).
Proof.
  destruct (universal_returns_earliest_best 0%Z nearTiePage "x-y"
              Binary64.defaultInstance
              [snapshot "qqqqx" "" ""; snapshot "abcd-ef" "" ""]
              eq_refl eq_refl eq_refl) as (r & Hr & Hanswers).
  - intros el _. apply lookup_empty.
  - vm_compute. repeat constructor; cbn; intuition discriminate.
  - assert (fst (Binary64.findElementUniversal 0 nearTiePage "x-y"
                   Binary64.defaultInstance)
            = inr (Some (Locator 7 "abcd-ef"))) as Hrun
      by (vm_compute; reflexivity).
    rewrite Hrun in Hr. injection Hr as <-.
    split; [reflexivity | exact Hanswers].
Defined.

(** X9: when the original selector fails, the advanced strategy ranks the
    candidates by [pattern * 0.7 + context * 0.3], computed in binary64, the
    context being the contextual elements of the page, or none when their
    evaluation is rejected: it answers with no match when no candidate has a
    positive score that is at least the threshold, and otherwise with the
    locator synthesized from the earliest of the best candidates. *)
Theorem advanced_returns_earliest_best :
  forall (now : Z) (page : PlaywrightPage) (selector : string)
         (s : Binary64.Instance) (allElements : list SerializedElement),
    isValidSelector selector = true ->
    waitForOk page selector = false ->
    fst (Binary64.getAllPageElements now page s) = inr allElements ->
    let score :=
      Binary64.advancedScore selector (contextualOf page selector) in
    let threshold :=
      Binary64.toNumber (Binary64.minSimilarityThreshold (Binary64.config s)) in
    exists r,
      fst (Binary64.findElementAdvanced now page selector s) = inr r
      /\ Binary64.answers page
           (fun el => PrimFloat.ltb 0 (score el)
                      && PrimFloat.leb threshold (score el))
           (Binary64.earliestBest score)
           (Binary64.slice0 allElements
              (Binary64.maxElementsToAnalyze (Binary64.config s))) r.
Proof.
  intros now page selector s allElements Hvalid Hfails Hpage score threshold.
  eexists. split.
  - now apply (findElementAdvanced64_result now page selector s allElements).
  - apply selected_answers.
Qed.

Lemma advanced_returns_earliest_best_witness :
  fst (Binary64.findElementAdvanced 0 passPage "pass-input"
         (Binary64.withThreshold (Binary64.Number 0.43)))
  = inr None
  /\ Binary64.answers passPage
       (fun el =>
          PrimFloat.ltb 0 (Binary64.advancedScore "pass-input" [] el)
          && PrimFloat.leb 0.43 (Binary64.advancedScore "pass-input" [] el))
       (Binary64.earliestBest (Binary64.advancedScore "pass-input" []))
       [snapshot "pass" "" ""] None
  /\ fst (Binary64.findElementAdvanced 0 passPage "pass-input"
            Binary64.defaultInstance)
     = inr (Some (Locator 9 "pass")).
Proof.
  destruct (advanced_returns_earliest_best 0%Z passPage "pass-input"
              (Binary64.withThreshold (Binary64.Number 0.43))
              [snapshot "pass" "" ""] eq_refl eq_refl eq_refl)
    as (r & Hr & Hanswers).
  assert (fst (Binary64.findElementAdvanced 0 passPage "pass-input"
                 (Binary64.withThreshold (Binary64.Number 0.43)))
          = inr None) as Hrun by (vm_compute; reflexivity).
  rewrite Hrun in Hr. injection Hr as <-.
  split; [reflexivity|]. split; [exact Hanswers|].
  vm_compute. reflexivity.
Defined.

(** ** The universal strategy called again *)

Section Warm64.

Import Binary64.
Local Open Scope float_scope.

Variable selector : string.

Local Opaque identifierOf optimalSelector calculateLevenshteinSimilarity
  semanticScore structuralScore typeBonus attributeBonus contextualRelevance
  universalScore rawScore mathMin mathMax.

Lemma selectBest64_ext (f g : SerializedElement -> float) (threshold : float)
    (cands : list SerializedElement) :
  (forall el, In el cands -> f el = g el) ->
  forall (bestMatch : option SerializedElement) (bestScore : float),
    selectBest f threshold cands bestMatch bestScore
    = selectBest g threshold cands bestMatch bestScore.
Proof.
  induction cands as [|el rest IH]; intros Heq bestMatch bestScore;
    [reflexivity|].
  cbn [selectBest]. rewrite (Heq el (or_introl eq_refl)).
  destruct ((_ <? _) && (_ <=? _)); apply IH; intros x Hx; apply Heq;
    now right.
Qed.

(** One round of the loop: the score of the element is computed or read,
    and the instance keeps its configuration and every cache entry. *)
Lemma calculateComprehensiveSimilarity_frame (el : SerializedElement)
    (s1 : Instance) :
  let o := calculateComprehensiveSimilarity selector el s1 in
  config (snd o) = config s1
  /\ forall k v, similarityCache s1 !! k = Some v ->
                 similarityCache (snd o) !! k = Some v.
Proof.
  cbv zeta.
  destruct (similarityCache s1 !! cacheKey selector (identifierOf el))
    as [cached|] eqn:Hlookup.
  - rewrite (calculateComprehensiveSimilarity64_hit _ _ _ _ Hlookup).
    split; [reflexivity | auto].
  - rewrite (calculateComprehensiveSimilarity64_miss _ _ _ Hlookup).
    split; [reflexivity|]. intros k v Hk. cbn [snd similarityCache].
    rewrite lookup_insert_ne; [exact Hk | congruence].
Qed.

Lemma universalLoop64_frame (cands : list SerializedElement) :
  forall (bestMatch : option SerializedElement) (bestScore : float)
         (elementCount : nat) (s1 : Instance),
    let o := universalLoop selector cands bestMatch bestScore elementCount s1 in
    (exists best, fst o = inr best)
    /\ config (snd o) = config s1
    /\ forall k v, similarityCache s1 !! k = Some v ->
                   similarityCache (snd o) !! k = Some v.
Proof.
  induction cands as [|el rest IH];
    intros bestMatch bestScore elementCount s1; cbv zeta.
  - cbn. eauto.
  - cbn [universalLoop].
    pose proof (calculateComprehensiveSimilarity_frame el s1) as Hround.
    cbv zeta in Hround.
    assert (exists v, fst (calculateComprehensiveSimilarity selector el s1)
                      = inr v) as (v & Hv).
    { destruct (similarityCache s1 !! cacheKey selector (identifierOf el))
        as [cached|] eqn:Hlookup.
      - rewrite (calculateComprehensiveSimilarity64_hit _ _ _ _ Hlookup). eauto.
      - rewrite (calculateComprehensiveSimilarity64_miss _ _ _ Hlookup). eauto. }
    destruct (calculateComprehensiveSimilarity selector el s1)
      as [r s2] eqn:Hrun.
    cbn [fst snd] in Hround, Hv. subst r. destruct Hround as (Hcfg & Hkeep).
    rewrite (bind_run _ _ _ _ _ Hrun).
    rewrite (bind_run _ _ _ _ _ (getConfig_run _)).
    destruct (debugIdentifier_run
                (debugOn (config s2) && Nat.ltb elementCount 5) el s2)
      as (n & Hdebug).
    rewrite (bind_run _ _ _ _ _ Hdebug).
    assert (forall bm bs k0,
               let o := universalLoop selector rest bm bs k0
                          (setDebugElementCount n s2) in
               (exists best, fst o = inr best)
               /\ config (snd o) = config s1
               /\ forall k w, similarityCache s1 !! k = Some w ->
                              similarityCache (snd o) !! k = Some w) as Hnext.
    { intros bm bs k0. cbv zeta.
      destruct (IH bm bs k0 (setDebugElementCount n s2)) as (Hr & Hc & Hk).
      split; [exact Hr|]. split; [now rewrite Hc|].
      intros k w Hw. apply Hk. cbn [similarityCache setDebugElementCount].
      now apply Hkeep. }
    destruct ((_ <? _) && (_ <=? _)); apply Hnext.
Qed.

Lemma universalLoop64_warm (cands : list SerializedElement) :
  forall (bestMatch : option SerializedElement) (bestScore : float)
         (elementCount : nat) (s1 : Instance),
    (forall el, In el cands ->
       is_Some (similarityCache s1 !! cacheKey selector (identifierOf el))) ->
    fst (universalLoop selector cands bestMatch bestScore elementCount s1)
    = inr (selectBest (cachedScore s1 selector)
                      (toNumber (minSimilarityThreshold (config s1)))
                      cands bestMatch bestScore).
Proof.
  induction cands as [|el rest IH];
    intros bestMatch bestScore elementCount s1 Hwarm; [reflexivity|].
  cbn [universalLoop selectBest].
  destruct (Hwarm el (or_introl eq_refl)) as (cached & Hhit).
  rewrite (bind_run _ _ _ _ _
             (calculateComprehensiveSimilarity64_hit _ _ _ _ Hhit)).
  rewrite (bind_run _ _ _ _ _ (getConfig_run _)).
  cbn [config setDebugElementCount].
  destruct (debugIdentifier_run
              (debugOn (config s1) && Nat.ltb elementCount 5) el
              (setDebugElementCount (S (debugElementCount s1)) s1))
    as (n & Hdebug).
  rewrite (bind_run _ _ _ _ _ Hdebug).
  assert (cachedScore s1 selector el = cached) as ->
    by (unfold cachedScore; now rewrite Hhit).
  assert (forall bm bs k,
             fst (universalLoop selector rest bm bs k
                    (setDebugElementCount n
                       (setDebugElementCount (S (debugElementCount s1)) s1)))
             = inr (selectBest (cachedScore s1 selector)
                               (toNumber (minSimilarityThreshold (config s1)))
                               rest bm bs)) as Hnext.
  { intros bm bs k. rewrite IH; [reflexivity|].
    intros x Hx. apply Hwarm. now right. }
  destruct ((_ <? _) && (_ <=? _)); apply Hnext.
Qed.

Lemma universalLoop64_fills (cands : list SerializedElement) :
  forall (bestMatch : option SerializedElement) (bestScore : float)
         (elementCount : nat) (s1 : Instance),
    (forall el, In el cands ->
       similarityCache s1 !! cacheKey selector (identifierOf el) = None) ->
    List.NoDup (List.map identifierOf cands) ->
    forall el, In el cands ->
      similarityCache
        (snd (universalLoop selector cands bestMatch bestScore
                            elementCount s1))
      !! cacheKey selector (identifierOf el)
      = Some (rawScore (config s1) selector el).
Proof.
  induction cands as [|c rest IH];
    intros bestMatch bestScore elementCount s1 Hfresh Hdistinct el Hin;
    [destruct Hin|].
  cbn [universalLoop].
  rewrite (bind_run _ _ _ _ _
             (calculateComprehensiveSimilarity64_miss _ _ _
                (Hfresh c (or_introl eq_refl)))).
  rewrite (bind_run _ _ _ _ _ (getConfig_run _)).
  cbn [config].
  destruct (debugIdentifier_run
              (debugOn (config s1) && Nat.ltb elementCount 5) c
              (mkInstance (config s1) (domCache s1)
                 (<[cacheKey selector (identifierOf c)
                    := rawScore (config s1) selector c]> (similarityCache s1))
                 (S (S (debugElementCount s1))))) as (n & Hdebug).
  rewrite (bind_run _ _ _ _ _ Hdebug).
  inversion Hdistinct as [|? ? Hnotin Hrest]; subst.
  set (next := setDebugElementCount n
                 (mkInstance (config s1) (domCache s1)
                    (<[cacheKey selector (identifierOf c)
                       := rawScore (config s1) selector c]> (similarityCache s1))
                    (S (S (debugElementCount s1))))).
  assert (forall bm bs k,
             similarityCache (snd (universalLoop selector rest bm bs k next))
             !! cacheKey selector (identifierOf el)
             = Some (rawScore (config s1) selector el)) as Hnext.
  { intros bm bs k.
    destruct Hin as [<- | Hin].
    - destruct (universalLoop64_frame rest bm bs k next) as (_ & _ & Hkeep).
      apply Hkeep. apply lookup_insert_eq.
    - change (config s1) with (config next).
      apply IH; [|exact Hrest|exact Hin].
      intros x Hx. cbn [next similarityCache setDebugElementCount].
      rewrite lookup_insert_ne; [apply Hfresh; now right|].
      unfold cacheKey. intros Heq.
      apply (inj (String.append selector)) in Heq.
      apply (inj (String.append "-")) in Heq.
      apply Hnotin. rewrite Heq. now apply in_map. }
  destruct ((_ <? _) && (_ <=? _)); apply Hnext.
Qed.

Variables (now : Z) (page : PlaywrightPage).
Variables (s : Instance) (allElements : list SerializedElement).

Hypothesis Hvalid : isValidSelector selector = true.
Hypothesis Hfails : waitForOk page selector = false.
Hypothesis Hpage : fst (getAllPageElements now page s) = inr allElements.

Lemma findElementUniversal64_warm :
  (forall el,
     In el (slice0 allElements (maxElementsToAnalyze (config s))) ->
     is_Some (similarityCache s !! cacheKey selector (identifierOf el))) ->
  fst (findElementUniversal now page selector s)
  = inr (healed page
           (fst (selectBest (cachedScore s selector)
                            (toNumber (minSimilarityThreshold (config s)))
                            (slice0 allElements (maxElementsToAnalyze (config s)))
                            None 0))).
Proof.
  intros Hwarm.
  destruct (getAllPageElements_returns _ _ _ _ Hpage)
    as (s1 & Hget & Hcfg & Hsim).
  unfold findElementUniversal. rewrite Hvalid. cbn [negb].
  rewrite (bind_run _ _ _ _ _ (tryOriginal_run _ _ _)), Hfails.
  rewrite (bind_run _ _ _ _ _ Hget).
  rewrite (bind_run _ _ _ _ _ (getConfig_run _)).
  rewrite Hcfg.
  set (cands := slice0 allElements (maxElementsToAnalyze (config s))) in *.
  pose proof (universalLoop64_warm cands None 0 0%nat s1) as Hloop.
  rewrite Hcfg in Hloop.
  rewrite (selectBest64_ext (cachedScore s1 selector) (cachedScore s selector))
    in Hloop by (intros el _; unfold cachedScore; now rewrite Hsim).
  destruct (universalLoop selector cands None 0 0%nat s1) as [r s2] eqn:Hrun.
  cbn [fst] in Hloop. rewrite Hloop in Hrun.
  - rewrite (bind_run _ _ _ _ _ Hrun).
    destruct (selectBest _ _ _ _ _) as [[bm|] bs]; reflexivity.
  - intros el Hel. rewrite Hsim. now apply Hwarm.
Qed.

Lemma findElementUniversal64_fills :
  (forall el,
     In el (slice0 allElements (maxElementsToAnalyze (config s))) ->
     similarityCache s !! cacheKey selector (identifierOf el) = None) ->
  List.NoDup (List.map identifierOf
                (slice0 allElements (maxElementsToAnalyze (config s)))) ->
  let s1 := snd (findElementUniversal now page selector s) in
  config s1 = config s
  /\ forall el,
       In el (slice0 allElements (maxElementsToAnalyze (config s))) ->
       similarityCache s1 !! cacheKey selector (identifierOf el)
       = Some (rawScore (config s) selector el).
Proof.
  intros Hfresh Hdistinct. cbv zeta.
  destruct (getAllPageElements_returns _ _ _ _ Hpage)
    as (s1 & Hget & Hcfg & Hsim).
  unfold findElementUniversal. rewrite Hvalid. cbn [negb].
  rewrite (bind_run _ _ _ _ _ (tryOriginal_run _ _ _)), Hfails.
  rewrite (bind_run _ _ _ _ _ Hget).
  rewrite (bind_run _ _ _ _ _ (getConfig_run _)).
  rewrite Hcfg.
  set (cands := slice0 allElements (maxElementsToAnalyze (config s))) in *.
  pose proof (universalLoop64_fills cands None 0 0%nat s1) as Hfill.
  rewrite Hsim, Hcfg in Hfill. specialize (Hfill Hfresh Hdistinct).
  destruct (universalLoop64_frame cands None 0 0%nat s1)
    as ((best & Hbest) & Hc & _).
  destruct (universalLoop selector cands None 0 0%nat s1) as [r s2] eqn:Hrun.
  cbn [fst snd] in Hbest, Hc, Hfill. subst r.
  rewrite (bind_run _ _ _ _ _ Hrun).
  destruct (fst best) as [bm|]; rewrite ?heal_run; unfold ret; cbn [snd];
    (split; [congruence | exact Hfill]).
Qed.

End Warm64.

(** X21: the universal strategy called a second time ranks differently.
    After a first call on a cache without entries for the candidates, whose
    identifiers are pairwise different, a second call that sees the same
    snapshots ranks them by the composite score before the clamp, where the
    first call ranked them by the clamped score: candidates that tied at 1
    in the first call are told apart in the second.  Scores are computed
    and compared in binary64. *)
Theorem universal_second_call_ranks_by_raw_score :
  forall (now later : Z) (page page' : PlaywrightPage) (selector : string)
         (s : Binary64.Instance) (allElements : list SerializedElement),
    isValidSelector selector = true ->
    waitForOk page selector = false ->
    waitForOk page' selector = false ->
    fst (Binary64.getAllPageElements now page s) = inr allElements ->
    let cands := Binary64.slice0 allElements
                   (Binary64.maxElementsToAnalyze (Binary64.config s)) in
    (forall el, In el cands ->
       Binary64.similarityCache s !! cacheKey selector (identifierOf el) = None) ->
    List.NoDup (List.map identifierOf cands) ->
    let s1 := snd (Binary64.findElementUniversal now page selector s) in
    fst (Binary64.getAllPageElements later page' s1) = inr allElements ->
    let raw := Binary64.rawScore (Binary64.config s) selector in
    let threshold :=
      Binary64.toNumber (Binary64.minSimilarityThreshold (Binary64.config s)) in
    exists r,
      fst (Binary64.findElementUniversal later page' selector s1) = inr r
      /\ Binary64.answers page'
           (fun el => PrimFloat.ltb 0 (raw el)
                      && PrimFloat.leb threshold (raw el))
           (Binary64.earliestBest raw) cands r.
Proof.
  intros now later page page' selector s allElements Hvalid Hfails Hfails'
    Hpage cands Hfresh Hdistinct s1 Hpage' raw threshold.
  destruct (findElementUniversal64_fills selector now page s allElements
              Hvalid Hfails Hpage Hfresh Hdistinct) as (Hcfg & Hfilled).
  fold s1 in Hcfg, Hfilled. fold cands in Hfilled.
  eexists. split.
  - apply (findElementUniversal64_warm selector later page' s1 allElements
             Hvalid Hfails' Hpage').
    rewrite Hcfg. intros el Hel. rewrite (Hfilled el Hel). eauto.
  - rewrite Hcfg. fold cands. fold threshold.
    rewrite (selectBest64_ext (Binary64.cachedScore s1 selector) raw).
    + apply selected_answers.
    + intros el Hel. unfold Binary64.cachedScore. now rewrite (Hfilled el Hel).
Qed.

Lemma universal_second_call_ranks_by_raw_score_witness :
  fst (Binary64.findElementUniversal 0 twoFields searchSelector
         Binary64.defaultInstance)
  = inr (Some (Locator 5 "#search"))
  /\ fst (Binary64.findElementUniversal 1 twoFields searchSelector
            (snd (Binary64.findElementUniversal 0 twoFields searchSelector
                    Binary64.defaultInstance)))
     = inr (Some (Locator 5 ("[name=" ++ Js.quoted "q" ++ "]")))
  /\ Binary64.answers twoFields
       (fun el =>
          PrimFloat.ltb 0
            (Binary64.rawScore Binary64.DEFAULT_CONFIG searchSelector el)
          && PrimFloat.leb 0.1
               (Binary64.rawScore Binary64.DEFAULT_CONFIG searchSelector el))
       (Binary64.earliestBest
          (Binary64.rawScore Binary64.DEFAULT_CONFIG searchSelector))
       [idField; searchField]
       (Some (Locator 5 ("[name=" ++ Js.quoted "q" ++ "]"))).
Proof.
  split; [vm_compute; reflexivity|].
  destruct (universal_second_call_ranks_by_raw_score 0%Z 1%Z twoFields
              twoFields searchSelector Binary64.defaultInstance
              [idField; searchField] eq_refl eq_refl eq_refl eq_refl)
    as (r & Hr & Hanswers).
  - intros el _. apply lookup_empty.
  - vm_compute. repeat constructor; cbn; intuition discriminate.
  - vm_compute. reflexivity.
  - assert (fst (Binary64.findElementUniversal 1 twoFields searchSelector
                   (snd (Binary64.findElementUniversal 0 twoFields
                           searchSelector Binary64.defaultInstance)))
            = inr (Some (Locator 5 ("[name=" ++ Js.quoted "q" ++ "]"))))
      as Hrun by (vm_compute; reflexivity).
    rewrite Hrun in Hr. injection Hr as <-.
    split; [reflexivity | exact Hanswers].
Defined.

(** ** The complex strategy *)

Section Complex64.

Import Binary64.
Local Open Scope float_scope.

Variables (now : Z) (page : PlaywrightPage) (selector : string).
Variables (s : Instance) (allElements : list SerializedElement).

Hypothesis Hvalid : isValidSelector selector = true.
Hypothesis Hfails : waitForOk page selector = false.
Hypothesis Hpage : fst (getAllPageElements now page s) = inr allElements.

Local Opaque identifierOf optimalSelector calculateLevenshteinSimilarity
  semanticScore structuralScore mathMin mathMax.

Lemma complexLoop64_collects (els : list SerializedElement) :
  forall (candidates : list MatchCandidate) (s1 : Instance),
    fst (complexLoop selector els candidates s1)
    = inr (candidates
           ++ List.map (fun el => mkCandidate el (complexScore selector el))
                (List.filter
                   (fun el => toNumber (minSimilarityThreshold (config s1))
                              <=? complexScore selector el)
                   els))%list.
Proof.
  induction els as [|el rest IH]; intros candidates s1.
  - cbn. now rewrite app_nil_r.
  - cbn [complexLoop List.filter].
    rewrite (bind_run _ _ _ _ _ (calculateSemanticSimilarity_run _ _ _)).
    rewrite (bind_run _ _ _ _ _ (calculateStructuralSimilarity_run _ _ _)).
    rewrite (bind_run _ _ _ _ _ (getConfig_run _)).
    cbn [config setDebugElementCount].
    unfold complexScore at 1 2.
    destruct (_ <=? _); rewrite IH; cbn [config setDebugElementCount];
      [|reflexivity].
    cbn [List.map]. now rewrite <- app_assoc.
Qed.

(** Among candidates whose scores are not NaN, the head of the sorted list
    is the earliest of the candidates with the highest score. *)
Lemma sortCandidates64_head (l : list MatchCandidate) :
  (forall c, In c l -> isNaN (score c) = false) ->
  match sortCandidates l with
  | [] => l = []
  | best :: _ =>
      exists before after,
        l = (before ++ best :: after)%list
        /\ (forall c, In c before -> (score c <? score best) = true)
        /\ (forall c, In c after -> (score best <? score c) = false)
  end.
Proof.
  induction l as [|a l IH]; intros Hnum; [reflexivity|].
  cbn [sortCandidates fold_right].
  change (fold_right insertCandidate [] l) with (sortCandidates l).
  specialize (IH (fun c Hc => Hnum c (or_intror Hc))).
  destruct (sortCandidates l) as [|h t].
  - subst l. cbn. exists [], []. repeat split; intros c [].
  - destruct IH as (before & after & -> & Hbefore & Hafter).
    cbn [insertCandidate]. rewrite sub_positive.
    destruct (score a <? score h) eqn:Hlt.
    + exists (a :: before), after. repeat split; [|exact Hafter].
      intros c [<- | Hc]; [exact Hlt | now apply Hbefore].
    + exists [], (before ++ h :: after)%list.
      repeat split; [intros c []|].
      assert (isNaN (score a) = false) as Ha by (apply Hnum; now left).
      assert (isNaN (score h) = false) as Hh
        by (apply Hnum; right; apply in_or_app; right; now left).
      pose proof (leb_total _ _ Ha Hh Hlt) as Hle.
      intros c Hc. destruct (score a <? score c) eqn:Hac; [|reflexivity].
      apply in_app_or in Hc as [Hc | [<- | Hc]].
      * pose proof (ltb_trans _ _ _ Hac (Hbefore c Hc)) as H. congruence.
      * congruence.
      * assert (isNaN (score c) = false) as Hc'
          by (apply Hnum; right; apply in_or_app; right; now right).
        pose proof (leb_total _ _ Hh Hc' (Hafter c Hc)) as Hch.
        pose proof (ltb_leb_trans _ _ _ Hac Hch) as H. congruence.
Qed.

Lemma collected64_split {A B} (g : A -> B) (q : A -> bool) (els : list A) :
  forall (before : list B) (best : B) (after : list B),
    List.map g (List.filter q els) = (before ++ best :: after)%list ->
    exists before0 el after0,
      els = (before0 ++ el :: after0)%list
      /\ best = g el /\ q el = true
      /\ before = List.map g (List.filter q before0)
      /\ after = List.map g (List.filter q after0).
Proof.
  induction els as [|x xs IH]; intros before best after Heq.
  - destruct before; discriminate.
  - cbn [List.filter] in Heq. destruct (q x) eqn:Hq.
    + destruct before as [|b before]; cbn in Heq; injection Heq as <- Heq.
      * exists [], x, xs. repeat split; auto.
      * destruct (IH _ _ _ Heq) as (b0 & el & a0 & -> & -> & Hel & -> & ->).
        exists (x :: b0), el, a0. cbn. rewrite Hq. repeat split; auto.
    + destruct (IH _ _ _ Heq) as (b0 & el & a0 & -> & -> & Hel & -> & ->).
      exists (x :: b0), el, a0. cbn. rewrite Hq. repeat split; auto.
Qed.

Lemma findElementComplex64_result :
  exists r,
    fst (findElementComplex now page selector s) = inr r
    /\ answers page
         (fun el => toNumber (minSimilarityThreshold (config s))
                    <=? complexScore selector el)
         (earliestBest (complexScore selector))
         (slice0 allElements (maxElementsToAnalyze (config s))) r.
Proof.
  destruct (getAllPageElements_returns _ _ _ _ Hpage) as (s1 & Hget & Hcfg & _).
  unfold findElementComplex. rewrite Hvalid. cbn [negb].
  rewrite (bind_run _ _ _ _ _ (tryOriginal_run _ _ _)), Hfails.
  rewrite (bind_run _ _ _ _ _ Hget).
  rewrite (bind_run _ _ _ _ _ (getConfig_run _)).
  rewrite Hcfg.
  set (cands := slice0 allElements (maxElementsToAnalyze (config s))).
  pose proof (complexLoop64_collects cands [] s1) as Hloop.
  rewrite Hcfg in Hloop. cbn [app] in Hloop.
  destruct (complexLoop selector cands [] s1) as [r s2] eqn:Hrun.
  cbn [fst] in Hloop. subst r.
  rewrite (bind_run _ _ _ _ _ Hrun).
  set (threshold := toNumber (minSimilarityThreshold (config s))) in *.
  set (q := fun el => threshold <=? complexScore selector el) in *.
  set (g := fun el => mkCandidate el (complexScore selector el)) in *.
  pose proof (sortCandidates64_head (List.map g (List.filter q cands))) as Hhead.
  destruct (sortCandidates (List.map g (List.filter q cands)))
    as [|best sorted].
  - eexists. split; [reflexivity|]. left. split; [reflexivity|].
    intros c Hc. destruct (q c) eqn:Hq; [|reflexivity].
    assert (In c (List.filter q cands)) as Hin
      by (apply filter_In; split; assumption).
    apply (in_map g) in Hin. rewrite Hhead in Hin; [destruct Hin|].
    intros x Hx. apply in_map_iff in Hx as (el & <- & Hel).
    apply filter_In in Hel as (_ & Hel). now apply leb_ordered in Hel.
  - destruct Hhead as (before & after & Heq & Hbefore & Hafter).
    { intros x Hx. apply in_map_iff in Hx as (el & <- & Hel).
      apply filter_In in Hel as (_ & Hel). now apply leb_ordered in Hel. }
    apply collected64_split in Heq
      as (before0 & el & after0 & Hcands & -> & Hel & -> & ->).
    rewrite heal_run. eexists. split; [reflexivity|].
    right. exists el. split; [reflexivity|]. split; [exact Hel|].
    exists before0, after0. split; [exact Hcands|].
    split; intros c Hc; destruct (q c) eqn:Hq.
    + apply ltb_asym. apply (Hbefore (g c)). apply in_map, filter_In. auto.
    + destruct (complexScore selector el <=? complexScore selector c) eqn:Hle;
        [|reflexivity].
      unfold q in Hq, Hel. rewrite (leb_trans _ _ _ Hel Hle) in Hq.
      discriminate.
    + apply (Hafter (g c)). apply in_map, filter_In. auto.
    + destruct (complexScore selector el <? complexScore selector c) eqn:Hlt;
        [|reflexivity].
      unfold q in Hq, Hel.
      rewrite (ltb_leb _ _ (leb_ltb_trans _ _ _ Hel Hlt)) in Hq.
      discriminate.
Qed.

End Complex64.

(** X8: when the original selector fails, the complex strategy answers with
    no match when no candidate's score [semantic * 0.6 + structural * 0.4],
    computed in binary64, is at least the threshold, and otherwise with the
    locator synthesized from the earliest of the best candidates; a score of
    0 is accepted under the threshold 0. *)
Theorem complex_returns_earliest_best :
  forall (now : Z) (page : PlaywrightPage) (selector : string)
         (s : Binary64.Instance) (allElements : list SerializedElement),
    isValidSelector selector = true ->
    waitForOk page selector = false ->
    fst (Binary64.getAllPageElements now page s) = inr allElements ->
    exists r,
      fst (Binary64.findElementComplex now page selector s) = inr r
      /\ Binary64.answers page
           (fun el =>
              PrimFloat.leb
                (Binary64.toNumber
                   (Binary64.minSimilarityThreshold (Binary64.config s)))
                (Binary64.complexScore selector el))
           (Binary64.earliestBest (Binary64.complexScore selector))
           (Binary64.slice0 allElements
              (Binary64.maxElementsToAnalyze (Binary64.config s))) r.
Proof. exact findElementComplex64_result. Qed.

Lemma complex_returns_earliest_best_witness :
  fst (Binary64.findElementComplex 0 oneWordPage sixWordsSelector
         Binary64.defaultInstance)
  = inr None
  /\ Binary64.answers oneWordPage
       (fun el =>
          PrimFloat.leb 0.1 (Binary64.complexScore sixWordsSelector el))
       (Binary64.earliestBest (Binary64.complexScore sixWordsSelector))
       [snapshot "p" "foo-bar" ""] None
  /\ fst (Binary64.findElementComplex 0 fixturePage driftedSelector
            Binary64.defaultInstance)
     = inr (Some (Locator 3 "#b-e-g-h-j-k")).
Proof.
  destruct (complex_returns_earliest_best 0%Z oneWordPage sixWordsSelector
              Binary64.defaultInstance [snapshot "p" "foo-bar" ""]
              eq_refl eq_refl eq_refl) as (r & Hr & Hanswers).
  assert (fst (Binary64.findElementComplex 0 oneWordPage sixWordsSelector
                 Binary64.defaultInstance)
          = inr None) as Hrun by (vm_compute; reflexivity).
  rewrite Hrun in Hr. injection Hr as <-.
  split; [reflexivity|]. split; [exact Hanswers|].
  vm_compute. reflexivity.
Defined.

(** C4: the constructor and [updateConfig] throw a configuration error only
    for a merged configuration that violates one of the three ranges, and
    the weights are never a cause.  The converse holds when the three
    validated options are numbers other than NaN, and fails otherwise: both
    comparisons of [validateConfig] are false for NaN and for [undefined],
    so a threshold NaN, or a [maxElementsToAnalyze] supplied as
    [undefined], is accepted and stored although it is within no range.
    With such a threshold no candidate is ever accepted, and with
    [undefined] as the bound every visible element is analysed. *)
Theorem validation_accepts_what_does_not_compare :
  (forall partial : Binary64.PartialConfig,
     let cfg := Binary64.spread Binary64.DEFAULT_CONFIG partial in
     (Binary64.throwsConfigurationError (Binary64.constructor partial)
      -> ~ Binary64.validConfiguration cfg)
     /\ (Binary64.ordered (Binary64.minSimilarityThreshold cfg) ->
         Binary64.ordered (Binary64.maxElementsToAnalyze cfg) ->
         Binary64.ordered (Binary64.findTimeout cfg) ->
         ~ Binary64.validConfiguration cfg ->
         Binary64.throwsConfigurationError (Binary64.constructor partial)))
  /\ (forall (newConfig : Binary64.PartialConfig) (s : Binary64.Instance),
        let cfg := Binary64.spread (Binary64.config s) newConfig in
        (Binary64.throwsConfigurationError (Binary64.updateConfig newConfig s)
         -> ~ Binary64.validConfiguration cfg)
        /\ (Binary64.ordered (Binary64.minSimilarityThreshold cfg) ->
            Binary64.ordered (Binary64.maxElementsToAnalyze cfg) ->
            Binary64.ordered (Binary64.findTimeout cfg) ->
            ~ Binary64.validConfiguration cfg ->
            Binary64.throwsConfigurationError (Binary64.updateConfig newConfig s)))
  /\ (forall (s : Binary64.Instance) (wl ws wt : Binary64.JsValue),
        fst (Binary64.validateConfig
               (Binary64.setConfig
                  (Binary64.withWeights wl ws wt (Binary64.config s)) s))
        = fst (Binary64.validateConfig s))
  /\ (forall v : Binary64.JsValue,
        Binary64.isNaN (Binary64.toNumber v) = true ->
        let partial :=
          Binary64.mkPartial (Some v) None None None None None None None in
        Binary64.constructor partial
        = (inr tt, Binary64.mkInstance
                     (Binary64.spread Binary64.DEFAULT_CONFIG partial) ∅ ∅ 0)
        /\ ~ Binary64.validConfiguration
               (Binary64.spread Binary64.DEFAULT_CONFIG partial))
  /\ (forall (v : Binary64.JsValue) (s : Binary64.Instance),
        Binary64.isNaN (Binary64.toNumber v) = true ->
        Binary64.validConfiguration (Binary64.config s) ->
        let newConfig :=
          Binary64.mkPartial None None None None None (Some v) None None in
        Binary64.updateConfig newConfig s
        = (inr tt, Binary64.setConfig
                     (Binary64.spread (Binary64.config s) newConfig) s)
        /\ ~ Binary64.validConfiguration
               (Binary64.spread (Binary64.config s) newConfig))
  /\ (Binary64.isNaN (Binary64.toNumber (Binary64.Number nan)) = true
      /\ Binary64.isNaN (Binary64.toNumber Binary64.Undefined) = true)
  /\ (forall (now : Z) (page : PlaywrightPage) (selector : string)
             (s : Binary64.Instance) (allElements : list SerializedElement),
        Binary64.isNaN
          (Binary64.toNumber
             (Binary64.minSimilarityThreshold (Binary64.config s))) = true ->
        isValidSelector selector = true ->
        waitForOk page selector = false ->
        fst (Binary64.getAllPageElements now page s) = inr allElements ->
        fst (Binary64.findElementSimple now page selector s) = inr None)
  /\ (forall (A : Type) (l : list A), Binary64.slice0 l Binary64.Undefined = l).
Proof.
  split; [|split; [|split; [|split; [|split; [|split; [|split]]]]]].
  - intros partial cfg. split.
    + apply throws_invalid.
    + intros H1 H2 H3 Hinvalid.
      exact (proj2 (throws_iff_invalid
                      (Binary64.mkInstance cfg ∅ ∅ 0) H1 H2 H3) Hinvalid).
  - intros newConfig s cfg. rewrite updateConfig_run. split.
    + apply throws_invalid.
    + intros H1 H2 H3 Hinvalid.
      exact (proj2 (throws_iff_invalid
                      (Binary64.setConfig cfg s) H1 H2 H3) Hinvalid).
  - intros s wl ws wt. now rewrite !validateConfig_run.
  - intros v Hnan partial.
    destruct (unordered_passes 0%float 1%float v Hnan) as (Hpass & Hout).
    split.
    + unfold Binary64.constructor. rewrite validateConfig_run.
      cbn [Binary64.config Binary64.spread Binary64.minSimilarityThreshold
             Binary64.minSimilarityThreshold' Binary64.maxElementsToAnalyze
             Binary64.maxElementsToAnalyze' Binary64.findTimeout
             Binary64.findTimeout' Binary64.DEFAULT_CONFIG default].
      unfold partial. cbn [Binary64.minSimilarityThreshold' default
                             Binary64.maxElementsToAnalyze'
                             Binary64.findTimeout'].
      cbv [Datatypes.id]. now rewrite Hpass.
    + intros (V & _). exact (Hout V).
  - intros v s Hnan (V1 & V2 & V3) newConfig.
    destruct (unordered_passes 1%float 1000%float v Hnan) as (Hpass & Hout).
    split.
    + rewrite updateConfig_run, validateConfig_run.
      cbn [Binary64.config Binary64.setConfig Binary64.spread
             Binary64.minSimilarityThreshold Binary64.maxElementsToAnalyze
             Binary64.findTimeout].
      unfold newConfig.
      cbn [Binary64.minSimilarityThreshold' default
             Binary64.maxElementsToAnalyze' Binary64.findTimeout'].
      cbv [Datatypes.id]. rewrite Hpass.
      assert (forall lo hi w, Binary64.inRange lo hi w -> Binary64.outside lo hi w = false)
        as Hin.
      { intros lo hi w Hw. destruct (Binary64.outside lo hi w) eqn:O; [|reflexivity].
        now apply outside_not_inRange in O. }
      now rewrite (Hin _ _ _ V1), (Hin _ _ _ V3).
    + intros (_ & V & _). exact (Hout V).
  - split; reflexivity.
  - intros now page selector s allElements Hnan Hvalid Hfails Hpage.
    rewrite (findElementSimple64_result now page selector s allElements
               Hvalid Hfails Hpage).
    rewrite find_none; [reflexivity|].
    intros el _. now destruct (leb_false_nan _ (Binary64.simpleScore selector el) Hnan).
  - reflexivity.
Qed.
